(** * tmlanguage: a TextMate-style grammar engine (tmlanguage.c / tmlanguage.h)

    A shallow embedding of the tokenizer of [tmlanguage.c] and the properties
    of it that the specification states.

    Conventions of the embedding.
    - [size_t] values are integers in [Z] reduced modulo [2^64] wherever the C
      code does arithmetic on them ([size_t_]); [uint32_t] likewise modulo
      [2^32].  [int] values coming from the regex library are plain [Z].
    - Pointers to states are handles ([stateId]) into the grammar's arena of
      states; a null pointer is [None].  Patterns are not mutated while
      rendering and are embedded by value.
    - Oniguruma is an external library.  Its entry points used by the code are
      the fields of the record [Onig]; every definition is parametric in it.
      [Lit.engine] is a small instance (literal byte strings) used to
      evaluate the model on concrete inputs.
    - Reads the C code does not guard (a null or dangling state, an index past
      an array) end a run in [Undefined].  Loops and the recursion between
      [renderLine] and [renderCaptures] are bounded by a fuel argument; a run
      that exhausts it ends in [OutOfFuel].  From a stack of 1 to 256 frames
      enough fuel always gives a result ([renderLine_terminates]). *)

From Stdlib Require Import ZArith Lia Bool.
From stdpp Require Import base option list gmap strings.

Local Open Scope Z_scope.

(** ** Machine integers and bytes *)

Definition SIZE_MAX : Z := 2 ^ 64 - 1.
Definition INT_MAX : Z := 2 ^ 31 - 1.

(** Reduction of a mathematical integer to [size_t] (64-bit) and [uint32_t]. *)
Definition size_t_ (z : Z) : Z := z mod 2 ^ 64.
Definition uint32_t_ (z : Z) : Z := z mod 2 ^ 32.

(** Bytes ([unsigned char]) are integers [0..255]. *)
Definition byte := Z.

Definition ch_backslash : byte := 92.
Definition ch_0 : byte := 48.
Definition ch_9 : byte := 57.
Definition ch_nl : byte := 10.
Definition ch_cr : byte := 13.

Definition isDigit (c : byte) : bool := (ch_0 <=? c) && (c <=? ch_9).

(** [bytes + a .. bytes + b]: the bytes between two offsets of a buffer. *)
Definition window (bytes : list byte) (a b : Z) : list byte :=
  take (Z.to_nat (b - a)) (drop (Z.to_nat a) bytes).

(** ** Results of a run *)

Inductive result (A : Type) : Type :=
  | Ok (a : A)
  | OutOfFuel
  | Undefined.
Arguments Ok {A} a.
Arguments OutOfFuel {A}.
Arguments Undefined {A}.

#[global] Instance result_ret : MRet result := fun A a => Ok a.
#[global] Instance result_bind : MBind result := fun A B k r =>
  match r with
  | Ok a => k a
  | OutOfFuel => OutOfFuel
  | Undefined => Undefined
  end.

(** A read through a pointer or an index that may be invalid. *)
Definition deref {A} (o : option A) : result A :=
  match o with
  | Some a => Ok a
  | None => Undefined
  end.

Definition terminated {A} (r : result A) : Prop := r <> OutOfFuel.

(** ** Loops

    A loop body returns the state of the next iteration or leaves the loop;
    [loop] runs it at most [fuel] times. *)

Inductive step (S R : Type) : Type :=
  | Continue (s : S)
  | Break (r : R).
Arguments Continue {S R} s.
Arguments Break {S R} r.

Fixpoint loop {S R : Type} (fuel : nat) (body : S -> result (step S R)) (s : S)
    : result R :=
  match fuel with
  | O => OutOfFuel
  | Datatypes.S fuel' =>
      x ← body s;
      match x with
      | Continue s' => loop fuel' body s'
      | Break r => Ok r
      end
  end.

(** ** The regex library *)

(** [OnigRegion]: [num_regs] pairs [(beg[i], end[i])]. *)
Definition OnigRegion := list (Z * Z).

Definition num_regs (region : OnigRegion) : Z := Z.of_nat (length region).
Definition reg_beg (region : OnigRegion) (i : Z) : option Z :=
  fst <$> region !! Z.to_nat i.
Definition reg_end (region : OnigRegion) (i : Z) : option Z :=
  snd <$> region !! Z.to_nat i.

(** The two option values the renderer passes. *)
Inductive OnigOptionType :=
  | ONIG_OPTION_NONE
  | ONIG_OPTION_NOT_BEGIN_POSITION.

(** The entry points of Oniguruma the code calls.  A subject is the byte
    string between the [str] and [end] pointers; [start], [range] and [at] are
    offsets from [str].  A search writes the region it is given, so the region
    is an argument and a result.
    - [onig_new regex]: compile ([None] on an error), with the fixed options,
      encoding and syntax of the code.
    - [onig_name_to_group_numbers re name]: the returned count (negative on
      an error) and the array of group numbers.
    - [onig_match re subject at]: the [int] returned.
    - [onig_search re subject start range region option]: the [int] returned
      and the region afterwards.
    - [onig_regset_search regexes regions subject start range option], with
      [ONIG_REGSET_POSITION_LEAD]: the [int] returned, the match position
      stored through [rmatch_pos], and the regions of the set afterwards. *)
Record Onig := {
  OnigRegex : Type;
  onig_new : list byte -> option OnigRegex;
  onig_number_of_captures : OnigRegex -> Z;
  onig_name_to_group_numbers : OnigRegex -> list byte -> Z * list Z;
  onig_match : OnigRegex -> list byte -> Z -> Z;
  onig_search :
    OnigRegex -> list byte -> Z -> Z -> OnigRegion -> OnigOptionType ->
    Z * OnigRegion;
  onig_regset_search :
    list OnigRegex -> list OnigRegion -> list byte -> Z -> Z ->
    OnigOptionType -> Z * Z * list OnigRegion;
}.

(** ** Data model *)

Definition scopeName := Z.
Definition stateId := nat.

Definition stackSize : nat := 256.

(** ** Rules and capture names *)

Inductive patternType := MATCH | BEGIN.

(** The loop of [createBackreferencingPattern] over the copy [text], run for
    the indices [i], [i+1], ... ([n] of them), updating the copy in place. *)
Fixpoint takeOutBackreferences (n : nat) (i : nat) (text : list byte)
    (backreferencing : bool) : list byte * bool :=
  match n with
  | O => (text, backreferencing)
  | S n' =>
      match text !! i, text !! S i with
      | Some c, Some d =>
          if (c =? ch_backslash) && isDigit d
          then takeOutBackreferences n' (S i) (<[i := ch_0]> text) true
          else takeOutBackreferences n' (S i) text backreferencing
      | _, _ => takeOutBackreferences n' (S i) text backreferencing
      end
  end.

(** The text that is compiled, and whether a backreference was seen: the loop
    runs while [i + 1 < len]. *)
Definition compiledText (regex : list byte) : list byte * bool :=
  takeOutBackreferences (length regex - 1) 0 regex false.

(** [captureNameToInt], over the bytes still to read, [result] being the
    [uint32_t] accumulator. *)
Fixpoint captureNameToInt_from (captureName : list byte) (result : Z) : Z :=
  match captureName with
  | [] => if result >? INT_MAX then -1 else result
  | c :: rest =>
      let result := uint32_t_ (result * 10) in
      if (c <? ch_0) || (c >? ch_9) then -1
      else captureNameToInt_from rest (uint32_t_ (result + (c - ch_0)))
  end.

Definition captureNameToInt (captureName : list byte) : Z :=
  captureNameToInt_from captureName 0.

(** [a[captures[i]] = v] for [i < n], as in the loops that end
    [setCaptureScope] and [setCaptureState]. *)
Fixpoint setGroups {A} (n : nat) (i : nat) (groups : list Z) (v : A)
    (a : list A) : result (list A) :=
  match n with
  | O => Ok a
  | S n' =>
      g ← deref (groups !! i);
      if (0 <=? g) && (g <? Z.of_nat (length a))
      then setGroups n' (S i) groups v (<[Z.to_nat g := v]> a)
      else Undefined
  end.

(** ** Lines of the input *)

(** [advanceToNextLine] from [offset], [rest] being the bytes from [offset]
    to [len]: the value returned ([beforeNewline]) and the offset afterwards. *)
Fixpoint advanceToNextLine_from (rest : list byte) (offset : Z) : Z * Z :=
  match rest with
  | [] => (offset, offset)
  | c :: rest' =>
      if c =? ch_nl then (offset, offset + 1)
      else if c =? ch_cr then
        match rest' with
        | d :: _ => if d =? ch_nl then (offset, offset + 2) else (offset, offset + 1)
        | [] => (offset, offset + 1)
        end
      else advanceToNextLine_from rest' (offset + 1)
  end.

Definition advanceToNextLine (bytes : list byte) (offset : Z) : Z * Z :=
  advanceToNextLine_from (drop (Z.to_nat offset) bytes) offset.

Inductive scopeType := SCOPE_BEGIN | SCOPE_END.

Record scope := {
  ty : scopeType;
  name : scopeName;
  sc_offset : Z;
  startOffset : Z;
  endOffset : Z;
  sc_seq : Z;
}.

(** [struct line]; the capacity of [scopes] is not modelled. *)
Record line := {
  scopes : list scope;
  line_begin : Z;
  line_end : Z;
  endIncludingNewline : Z;
}.

Definition addScope (l : line) (s : scope) : line :=
  {| scopes := scopes l ++ [s]; line_begin := line_begin l;
     line_end := line_end l; endIncludingNewline := endIncludingNewline l |}.

Definition addScopeRange (l : line) (name seq begin end_ : Z) : line :=
  let clampedBegin := if begin <? line_begin l then line_begin l else begin in
  let clampedEnd := if end_ >? line_end l then line_end l else end_ in
  if (name =? 0) || (clampedBegin >=? clampedEnd) then l
  else
    addScope
      (addScope l {| ty := SCOPE_BEGIN; name := name; sc_offset := clampedBegin;
                     startOffset := begin; endOffset := end_; sc_seq := seq |})
      {| ty := SCOPE_END; name := name; sc_offset := clampedEnd;
         startOffset := begin; endOffset := end_; sc_seq := seq |}.

(** ** Sorting the scopes of a line *)

Definition compareScopes (a b : scope) : Z :=
  if sc_offset a <? sc_offset b then -1
  else if sc_offset a >? sc_offset b then 1
  else
    match ty a, ty b with
    | SCOPE_END, SCOPE_BEGIN => -1
    | SCOPE_BEGIN, SCOPE_END => 1
    | _, _ =>
        let dir := match ty a with SCOPE_BEGIN => 1 | SCOPE_END => -1 end in
        if startOffset a <? startOffset b then - dir
        else if startOffset a >? startOffset b then dir
        else if endOffset a <? endOffset b then dir
        else if endOffset a >? endOffset b then - dir
        else if sc_seq a <? sc_seq b then - dir
        else if sc_seq a >? sc_seq b then dir
        else 0
    end.

(** [qsort] with [compareScopes], as an insertion sort: the C library does not
    fix the order of elements that compare equal, and [orderedByCompare]
    below is what any of its results satisfies. *)
Fixpoint insertScope (x : scope) (l : list scope) : list scope :=
  match l with
  | [] => [x]
  | y :: l' => if compareScopes x y <=? 0 then x :: l else y :: insertScope x l'
  end.

Definition qsort (l : list scope) : list scope := foldr insertScope [] l.

(** ** Backreference expansion *)

(** The four bytes written for a captured byte. *)
Definition octalEscape (b : byte) : list byte :=
  [ ch_backslash;
    ch_0 + Z.shiftr (Z.land b 448) 6;
    ch_0 + Z.shiftr (Z.land b 56) 3;
    ch_0 + Z.shiftr (Z.land b 7) 0 ].

(** [while (reserved > size) { if (size > SIZE_MAX / 2) goto fail; size *= 2; }]:
    [Ok None] is the jump to [fail].  The doubling cannot wrap under its
    guard. *)
Fixpoint growSize (n : nat) (size reserved : Z) : result (option Z) :=
  if reserved >? size then
    if size >? SIZE_MAX / 2 then Ok None
    else
      match n with
      | O => OutOfFuel
      | S n' => growSize n' (size * 2) reserved
      end
  else Ok (Some size).

(** The bytes [bytes[start..end)] read by the innermost loop. *)
Definition capturedBytes (bytes : list byte) (start end_ : Z) : result (list byte) :=
  if (start <? end_) && (Z.of_nat (length bytes) <? end_) then Undefined
  else Ok (window bytes start end_).

(** The loop of [backreferencingSearch] that fills [replaced], from index [i]
    of the pattern's text, [rest] being the text from [i] on.  The write
    offset is the length of [replaced].  [Ok None] is the jump to [fail]
    (a failing [realloc] is not modelled). *)
Fixpoint expandFrom (bytes : list byte) (beginOffset : Z) (region : OnigRegion)
    (plen : Z) (rest : list byte) (i size : Z) (replaced : list byte)
    : result (option (list byte)) :=
  match rest with
  | [] => Ok (Some replaced)
  | c :: rest1 =>
      let literal := expandFrom bytes beginOffset region plen rest1 (i + 1) size
                       (replaced ++ [c]) in
      match rest1 with
      | d :: rest2 =>
          if (c =? ch_backslash) && isDigit d then
            let i := i + 1 in
            let which := d - ch_0 in
            if which >=? num_regs region then Ok None
            else
              '(b, e) ← deref (region !! Z.to_nat which);
              if (b <? 0) || (e <? b) then Ok None
              else
                let start := size_t_ (beginOffset + b) in
                let end_ := size_t_ (beginOffset + e) in
                let reserved :=
                  size_t_ (Z.of_nat (length replaced) + 4 * (end_ - start) + plen - i) in
                sz ← growSize 64 size reserved;
                match sz with
                | None => Ok None
                | Some size' =>
                    captured ← capturedBytes bytes start end_;
                    expandFrom bytes beginOffset region plen rest2 (i + 1) size'
                      (replaced ++ concat (octalEscape <$> captured))
                end
          else literal
      | [] => literal
      end
  end.

(** ** Regions and the variables of the dispatch loop *)

(** A region the code holds a pointer to: the region of a regex of a state's
    regset (owned by the regset and rewritten by every search of it), or the
    local [endWhileRegion] of a [renderLine] call. *)
Inductive regionRef :=
  | RegsetRegion (sid : stateId) (idx : nat)
  | LocalRegion (region : OnigRegion).

(** The local variables of the dispatch loop of [renderLine]. *)
Record loopVars := {
  lv_offset : Z;
  maxOffset : Z;
  matchesWithoutProgress : Z;
  endWhileRegion : OnigRegion;
}.

Section Data.

Context {regex : Type}.

(** [struct pattern]; [text] and [len] are one optional byte string. *)
Record pattern := {
  re : regex;
  innerScope : scopeName;
  outerScope : scopeName;
  captures : Z;
  captureScopes : list scopeName;
  captureStates : list (option stateId);
  backreferencingPattern : bool;
  text : option (list byte);
}.

Definition len (p : pattern) : Z :=
  match text p with
  | Some t => Z.of_nat (length t)
  | None => 0
  end.

Definition with_captureScopes (p : pattern) (v : list scopeName) : pattern :=
  {| re := re p; innerScope := innerScope p; outerScope := outerScope p;
     captures := captures p; captureScopes := v;
     captureStates := captureStates p;
     backreferencingPattern := backreferencingPattern p; text := text p |}.

Definition with_captureStates (p : pattern) (v : list (option stateId)) : pattern :=
  {| re := re p; innerScope := innerScope p; outerScope := outerScope p;
     captures := captures p; captureScopes := captureScopes p;
     captureStates := v;
     backreferencingPattern := backreferencingPattern p; text := text p |}.

Definition with_text (p : pattern) (b : bool) (t : list byte) : pattern :=
  {| re := re p; innerScope := innerScope p; outerScope := outerScope p;
     captures := captures p; captureScopes := captureScopes p;
     captureStates := captureStates p;
     backreferencingPattern := b; text := Some t |}.

Definition setInnerScope (p : pattern) (name : scopeName) : pattern :=
  {| re := re p; innerScope := name; outerScope := outerScope p;
     captures := captures p; captureScopes := captureScopes p;
     captureStates := captureStates p;
     backreferencingPattern := backreferencingPattern p; text := text p |}.

Definition setOuterScope (p : pattern) (name : scopeName) : pattern :=
  {| re := re p; innerScope := innerScope p; outerScope := name;
     captures := captures p; captureScopes := captureScopes p;
     captureStates := captureStates p;
     backreferencingPattern := backreferencingPattern p; text := text p |}.

(** [patternInState]: a rule of a state. *)
Record patternInState := {
  pis_type : patternType;
  pis_p : pattern;
  pis_to : option stateId;
}.

(** [struct state].  The regset holds the regexes of [patterns] in the same
    order ([addPatternInState] keeps the two in step); the regions it owns are
    part of the run-time store ([regions] of a [machine]). *)
Record state := {
  whilePattern : option pattern;
  endPattern : option pattern;
  applyEndPatternLast : bool;
  patterns : list patternInState;
}.

Definition regset (s : state) : list regex :=
  (fun q => re (pis_p q)) <$> patterns s.

Definition createState : state :=
  {| whilePattern := None; endPattern := None; applyEndPatternLast := false;
     patterns := [] |}.

Definition addPatternInState (s : state) (q : patternInState) : state :=
  {| whilePattern := whilePattern s; endPattern := endPattern s;
     applyEndPatternLast := applyEndPatternLast s;
     patterns := patterns s ++ [q] |}.

Definition addMatch (s : state) (match_ : pattern) : state :=
  addPatternInState s {| pis_type := MATCH; pis_p := match_; pis_to := None |}.

Definition addBegin (s : state) (to : stateId) (begin : pattern) : state :=
  addPatternInState s {| pis_type := BEGIN; pis_p := begin; pis_to := Some to |}.

Definition setEnd (s : state) (end_ : pattern) (applyLast : bool) : state :=
  {| whilePattern := whilePattern s; endPattern := Some end_;
     applyEndPatternLast := applyLast; patterns := patterns s |}.

Definition setWhile (s : state) (while_ : pattern) : state :=
  {| whilePattern := Some while_; endPattern := endPattern s;
     applyEndPatternLast := applyEndPatternLast s; patterns := patterns s |}.

(** ** Renderer, lines and scopes *)

(** [activeState]: a frame of the renderer's stack. *)
Record activeState := {
  as_s : option stateId;
  as_p : option pattern;
  beginRegion : option OnigRegion;
  endRegex : option regex;
  whileRegex : option regex;
  beginOffset : Z;
  outerBegin : Z;
  outerSeq : Z;
  innerBegin : Z;
  innerSeq : Z;
}.

(** The frame [(activeState){ .s = s }]. *)
Definition transientFrame (s : option stateId) : activeState :=
  {| as_s := s; as_p := None; beginRegion := None; endRegex := None;
     whileRegex := None; beginOffset := 0; outerBegin := 0; outerSeq := 0;
     innerBegin := 0; innerSeq := 0 |}.

Definition with_endRegex (a : activeState) (c : option regex) : activeState :=
  {| as_s := as_s a; as_p := as_p a; beginRegion := beginRegion a;
     endRegex := c; whileRegex := whileRegex a; beginOffset := beginOffset a;
     outerBegin := outerBegin a; outerSeq := outerSeq a;
     innerBegin := innerBegin a; innerSeq := innerSeq a |}.

Definition with_whileRegex (a : activeState) (c : option regex) : activeState :=
  {| as_s := as_s a; as_p := as_p a; beginRegion := beginRegion a;
     endRegex := endRegex a; whileRegex := c; beginOffset := beginOffset a;
     outerBegin := outerBegin a; outerSeq := outerSeq a;
     innerBegin := innerBegin a; innerSeq := innerSeq a |}.

Definition with_begins (a : activeState) (outer inner : Z) : activeState :=
  {| as_s := as_s a; as_p := as_p a; beginRegion := beginRegion a;
     endRegex := endRegex a; whileRegex := whileRegex a;
     beginOffset := beginOffset a;
     outerBegin := outer; outerSeq := outerSeq a;
     innerBegin := inner; innerSeq := innerSeq a |}.

(** [struct renderer]: [stackDepth] is the length of [stack], whose last
    element is the top frame; [length] is the length of [bytes]. *)
Record renderer := {
  bytes : list byte;
  offset : Z;
  stack : list activeState;
  seq : Z;
}.

Definition createRenderer (bytes : list byte) (startState : option stateId) : renderer :=
  {| bytes := bytes; offset := 0; stack := [transientFrame startState]; seq := 0 |}.

(** ** The state of a run

    The renderer, the line being filled, and the regions owned by the regsets
    of the states (shared by every frame that is in the same state). *)
Record machine := {
  rd : renderer;
  ln : line;
  regions : gmap stateId (list OnigRegion);
}.

Definition stackDepth (m : machine) : nat := length (stack (rd m)).

Definition with_stack (m : machine) (st : list activeState) : machine :=
  {| rd := {| bytes := bytes (rd m); offset := offset (rd m); stack := st;
              seq := seq (rd m) |};
     ln := ln m; regions := regions m |}.

Definition with_seq (m : machine) (n : Z) : machine :=
  {| rd := {| bytes := bytes (rd m); offset := offset (rd m);
              stack := stack (rd m); seq := n |};
     ln := ln m; regions := regions m |}.

Definition with_line (m : machine) (l : line) : machine :=
  {| rd := rd m; ln := l; regions := regions m |}.

Definition with_regions (m : machine) (g : gmap stateId (list OnigRegion)) : machine :=
  {| rd := rd m; ln := ln m; regions := g |}.

(** [popStack]: the per-frame regexes and regions are released with the
    frames. *)
Definition popStack (m : machine) (depth : nat) : machine :=
  with_stack m (take depth (stack (rd m))).

Definition pushStack (m : machine) (a : activeState) : machine :=
  with_stack m (stack (rd m) ++ [a]).

Definition readRegion (m : machine) (ref : regionRef) : result OnigRegion :=
  match ref with
  | LocalRegion region => Ok region
  | RegsetRegion sid idx => deref (regions m !! sid ≫= fun rs => rs !! idx)
  end.

Definition setFrame (m : machine) (i : nat) (a : activeState) : machine :=
  with_stack m (<[i := a]> (stack (rd m))).

(** The subject of every search of a line: [bytes + line->begin] to
    [bytes + line->endIncludingNewline]. *)
Definition subject (m : machine) : list byte :=
  window (bytes (rd m)) (line_begin (ln m)) (endIncludingNewline (ln m)).

(** An offset of the renderer's bytes as an offset of the subject. *)
Definition rel (m : machine) (offset : Z) : Z := offset - line_begin (ln m).

(** An offset of the subject as a [size_t] offset of the renderer's bytes:
    [line->begin + region->beg[i]]. *)
Definition abs (m : machine) (pos : Z) : Z := size_t_ (line_begin (ln m) + pos).

(** The last loop of [renderLine]: the ranges of the frames still open. *)
Definition addOpenScopes (m : machine) (stackBase : nat) (end_ : Z) : line :=
  foldl
    (fun l a =>
       match as_p a with
       | None => l
       | Some p =>
           addScopeRange
             (addScopeRange l (outerScope p) (outerSeq a) (outerBegin a) end_)
             (innerScope p) (innerSeq a) (innerBegin a) end_
       end)
    (ln m) (drop stackBase (stack (rd m))).

(** ** Rendering the next line *)

(** The machine at the call of [renderLine] in [renderNextLine]: the line
    emptied and set to the next line of the input, the offset advanced. *)
Definition nextLine (m : machine) : machine :=
  let r := rd m in
  let '(e, next) := advanceToNextLine (bytes r) (offset r) in
  {| rd := {| bytes := bytes r; offset := next; stack := stack r; seq := seq r |};
     ln := {| scopes := []; line_begin := offset r; line_end := e;
              endIncludingNewline := next |};
     regions := regions m |}.

Definition sortLine (m : machine) : machine :=
  with_line m
    {| scopes := qsort (scopes (ln m)); line_begin := line_begin (ln m);
       line_end := line_end (ln m);
       endIncludingNewline := endIncludingNewline (ln m) |}.

End Data.

Arguments pattern : clear implicits.
Arguments patternInState : clear implicits.
Arguments state : clear implicits.
Arguments activeState : clear implicits.
Arguments renderer : clear implicits.
Arguments machine : clear implicits.

Section Model.

Context (E : Onig).

#[local] Abbreviation pattern := (pattern (OnigRegex E)) (only parsing).
#[local] Abbreviation state := (state (OnigRegex E)) (only parsing).
#[local] Abbreviation activeState := (activeState (OnigRegex E)) (only parsing).
#[local] Abbreviation renderer := (renderer (OnigRegex E)) (only parsing).
#[local] Abbreviation machine := (machine (OnigRegex E)) (only parsing).

(** ** Pattern construction *)

(** [createPattern]: the error string written through [error] is not part of
    the model; a failed compilation is [None]. *)
Definition createPattern (regex : list byte) : option pattern :=
  match onig_new E regex with
  | None => None
  | Some r =>
      let n := onig_number_of_captures E r + 1 in
      Some {| re := r; innerScope := 0; outerScope := 0; captures := n;
              captureScopes := replicate (Z.to_nat n) 0;
              captureStates := replicate (Z.to_nat n) None;
              backreferencingPattern := false; text := None |}
  end.

Definition createBackreferencingPattern (regex : list byte) : option pattern :=
  let '(text, backreferencing) := compiledText regex in
  match createPattern text with
  | None => None
  | Some p =>
      if negb backreferencing then Some p
      else Some (with_text p backreferencing regex)
  end.

Definition setCaptureScope (p : pattern) (name : list byte) (scope : scopeName)
    : result pattern :=
  let capture := captureNameToInt name in
  if (0 <=? capture) && (capture <? captures p) then
    if capture <? Z.of_nat (length (captureScopes p))
    then Ok (with_captureScopes p (<[Z.to_nat capture := scope]> (captureScopes p)))
    else Undefined
  else
    let '(n, groups) := onig_name_to_group_numbers E (re p) name in
    if n <? 0 then Ok p
    else
      v ← setGroups (Z.to_nat n) 0 groups scope (captureScopes p);
      Ok (with_captureScopes p v).

Definition setCaptureState (p : pattern) (name : list byte) (s : option stateId)
    : result pattern :=
  let capture := captureNameToInt name in
  if (0 <=? capture) && (capture <? captures p) then
    if capture <? Z.of_nat (length (captureStates p))
    then Ok (with_captureStates p (<[Z.to_nat capture := s]> (captureStates p)))
    else Undefined
  else
    let '(n, groups) := onig_name_to_group_numbers E (re p) name in
    if n <? 0 then Ok p
    else
      v ← setGroups (Z.to_nat n) 0 groups s (captureStates p);
      Ok (with_captureStates p v).

Definition firstLineMatch (bytes : list byte) (p : pattern) : bool :=
  let '(_, offset) := advanceToNextLine bytes 0 in
  0 <=? onig_match E (re p) (window bytes 0 offset) 0.

(** [backreferencingSearch]: the [int] returned, the frame's cached regex
    ([*re]) afterwards, and the region afterwards. *)
Definition backreferencingSearch (r : renderer) (a : activeState)
    (cache : option (OnigRegex E)) (p : pattern) (subject : list byte)
    (start range : Z) (region : OnigRegion) (opt : OnigOptionType)
    : result (Z * option (OnigRegex E) * OnigRegion) :=
  if negb (backreferencingPattern p) then
    let '(res, region') := onig_search E (re p) subject start range region opt in
    Ok (res, cache, region')
  else
    match cache with
    | Some c =>
        let '(res, region') := onig_search E c subject start range region opt in
        Ok (res, cache, region')
    | None =>
        match beginRegion a with
        | None => Ok (-1, None, region)
        | Some br =>
            if len p >? SIZE_MAX / 2 then Ok (-1, None, region)
            else
              x ← expandFrom (bytes r) (beginOffset a) br (len p)
                    (default [] (text p)) 0 (len p * 2) [];
              match x with
              | None => Ok (-1, None, region)
              | Some replaced =>
                  match onig_new E replaced with
                  | None => Ok (-1, None, region)
                  | Some c =>
                      let '(res, region') :=
                        onig_search E c subject start range region opt in
                      Ok (res, Some c, region')
                  end
              end
        end
    end.

Section Bodies.

(** The grammar: the arena of states. *)
Context (states : list state).

(** The recursive calls. *)
Context (renderLine_rec : machine -> Z -> Z -> nat -> result machine).

(** One iteration of the loop of [renderCaptures], at index [i]. *)
Definition renderCapture (p : pattern) (ref : regionRef) (s : machine * Z)
    : result (step (machine * Z) machine) :=
  let '(m, i) := s in
  region ← readRegion m ref;
  if i <? num_regs region then
    '(b, e) ← deref (region !! Z.to_nat i);
    m' ← (if b <? 0 then Ok m
          else
            sc ← deref (captureScopes p !! Z.to_nat i);
            if negb (sc =? 0) then
              Ok (with_seq
                    (with_line m (addScopeRange (ln m) sc (seq (rd m)) (abs m b) (abs m e)))
                    (size_t_ (seq (rd m) + 1)))
            else
              cs ← deref (captureStates p !! Z.to_nat i);
              match cs with
              | None => Ok m
              | Some sid =>
                  if (stackDepth m =? stackSize)%nat then Ok m
                  else
                    let depth := stackDepth m in
                    let m1 := pushStack m (transientFrame (Some sid)) in
                    m2 ← renderLine_rec m1 (abs m b) (abs m e) (stackDepth m1);
                    Ok (popStack m2 depth)
              end);
    if i <? INT_MAX then Ok (Continue (m', i + 1)) else Undefined
  else Ok (Break m).

Context (renderCaptures_rec : machine -> pattern -> regionRef -> result machine).

(** One iteration of the first loop of [renderLine] (the while patterns of the
    frames from [stackBase] up), at frame [i]. *)
Definition whileAnchor (end_ : Z) (s : machine * nat * Z * OnigRegion)
    : result (step (machine * nat * Z * OnigRegion) (machine * Z * OnigRegion)) :=
  let '(m, i, offset, ewr) := s in
  if (i <? stackDepth m)%nat then
    a ← deref (stack (rd m) !! i);
    sid ← deref (as_s a);
    st ← deref (states !! sid);
    match whilePattern st with
    | None => Ok (Continue (m, S i, offset, ewr))
    | Some p =>
        '(res, cache, ewr') ←
          backreferencingSearch (rd m) a (whileRegex a) p (subject m)
            (rel m offset) (rel m end_) ewr ONIG_OPTION_NOT_BEGIN_POSITION;
        let m := setFrame m i (with_whileRegex a cache) in
        if res <? 0 then Ok (Break (popStack m i, offset, ewr'))
        else
          m' ← renderCaptures_rec m p (LocalRegion ewr');
          b0 ← deref (reg_beg ewr' 0);
          e0 ← deref (reg_end ewr' 0);
          a' ← deref (stack (rd m') !! i);
          Ok (Continue (setFrame m' i (with_begins a' (abs m' b0) (abs m' e0)),
                        S i, abs m' e0, ewr'))
    end
  else Ok (Break (m, offset, ewr)).

(** The test that selects the regular rule:
    [res >= 0 && (endres < 0 || matchpos < endWhileRegion->beg[0] ||
     (a.s->applyEndPatternLast && matchpos == endWhileRegion->beg[0]))]. *)
Definition regularRuleApplies (st : state) (res endres matchpos : Z)
    (ewr : OnigRegion) : result bool :=
  if res <? 0 then Ok false
  else if endres <? 0 then Ok true
  else
    b0 ← deref (reg_beg ewr 0);
    Ok ((matchpos <? b0) || (applyEndPatternLast st && (matchpos =? b0))).

(** The branch of the dispatch loop that applies rule [res] of the state
    [sid] of the top frame. *)
Definition applyRule (sid : stateId) (st : state) (res : Z) (m : machine)
    (v : loopVars) : result (step (machine * loopVars) machine) :=
  let ref := RegsetRegion sid (Z.to_nat res) in
  q ← deref (patterns st !! Z.to_nat res);
  m1 ← renderCaptures_rec m (pis_p q) ref;
  pushed ←
    match pis_type q with
    | MATCH => Ok (Some m1)
    | BEGIN =>
        if (stackDepth m1 =? stackSize)%nat then Ok None
        else
          to ← deref (pis_to q);
          tost ← deref (states !! to);
          region ← readRegion m1 ref;
          b0 ← deref (reg_beg region 0);
          e0 ← deref (reg_end region 0);
          let saved :=
            match endPattern tost with
            | Some ep => if backreferencingPattern ep then Some region else None
            | None => None
            end in
          Ok (Some (with_seq
                      (pushStack m1
                         {| as_s := Some to; as_p := Some (pis_p q);
                            beginRegion := saved; endRegex := None;
                            whileRegex := None;
                            beginOffset := line_begin (ln m1);
                            outerBegin := abs m1 b0; outerSeq := seq (rd m1);
                            innerBegin := abs m1 e0;
                            innerSeq := size_t_ (seq (rd m1) + 1) |})
                      (size_t_ (seq (rd m1) + 2))))
    end;
  match pushed with
  | None => Ok (Break m1)
  | Some m2 =>
      region ← readRegion m2 ref;
      e0 ← deref (reg_end region 0);
      let e := abs m2 e0 in
      Ok (Continue
            (m2,
             if e >? maxOffset v then
               {| lv_offset := e; maxOffset := e; matchesWithoutProgress := 0;
                  endWhileRegion := endWhileRegion v |}
             else
               {| lv_offset := e; maxOffset := maxOffset v;
                  matchesWithoutProgress := matchesWithoutProgress v + 1;
                  endWhileRegion := endWhileRegion v |}))
  end.

(** The branch of the dispatch loop that applies the end pattern of the state
    of the top frame [a]. *)
Definition applyEnd (a : activeState) (st : state) (stackBase : nat)
    (m : machine) (v : loopVars) : result (step (machine * loopVars) machine) :=
  ep ← deref (endPattern st);
  m1 ← renderCaptures_rec m ep (LocalRegion (endWhileRegion v));
  if (stackDepth m1 <=? stackBase)%nat then Ok (Break m1)
  else
    ap ← deref (as_p a);
    b0 ← deref (reg_beg (endWhileRegion v) 0);
    e0 ← deref (reg_end (endWhileRegion v) 0);
    let l1 := addScopeRange (ln m1) (innerScope ap) (innerSeq a) (innerBegin a)
                (abs m1 b0) in
    let l2 := addScopeRange l1 (outerScope ap) (outerSeq a) (outerBegin a)
                (abs m1 e0) in
    Ok (Continue
          (popStack (with_line m1 l2) (stackDepth m1 - 1),
           {| lv_offset := abs m1 e0; maxOffset := maxOffset v;
              matchesWithoutProgress := matchesWithoutProgress v;
              endWhileRegion := endWhileRegion v |})).

(** The search of the end pattern of the top frame [a], at the start of an
    iteration: [endres], the machine (the frame's cached regex updated) and the
    region afterwards. *)
Definition searchEnd (a : activeState) (st : state) (end_ : Z)
    (opt : OnigOptionType) (m : machine) (v : loopVars)
    : result (Z * machine * OnigRegion) :=
  match endPattern st with
  | None => Ok (-1, m, endWhileRegion v)
  | Some ep =>
      '(endres, cache, ewr) ←
        backreferencingSearch (rd m) a (endRegex a) ep (subject m)
          (rel m (lv_offset v)) (rel m end_) (endWhileRegion v) opt;
      Ok (endres, setFrame m (stackDepth m - 1) (with_endRegex a cache), ewr)
  end.

(** The regions of the regset of state [sid]: one per regex, empty until the
    first search. *)
Definition regsetRegions (m : machine) (sid : stateId) (st : state)
    : list OnigRegion :=
  default (replicate (length (patterns st)) []) (regions m !! sid).

(** The search of the regset of the state [sid] of the top frame: [res],
    [matchpos] and the machine (the regions of the regset rewritten). *)
Definition searchRegset (sid : stateId) (st : state) (end_ : Z)
    (opt : OnigOptionType) (m : machine) (v : loopVars) : Z * Z * machine :=
  let '(res, matchpos, rs) :=
    onig_regset_search E (regset st) (regsetRegions m sid st) (subject m)
      (rel m (lv_offset v)) (rel m end_) opt in
  (res, matchpos, with_regions m (<[sid := rs]> (regions m))).

(** One iteration of the dispatch loop of [renderLine]. *)
Definition dispatch (end_ : Z) (stackBase : nat) (s : machine * loopVars)
    : result (step (machine * loopVars) machine) :=
  let '(m, v) := s in
  if matchesWithoutProgress v <? 32 then
    a ← deref (last (stack (rd m)));
    match as_s a with
    | None => Ok (Break m)
    | Some sid =>
        st ← deref (states !! sid);
        let opt := if lv_offset v >? innerBegin a
                   then ONIG_OPTION_NOT_BEGIN_POSITION else ONIG_OPTION_NONE in
        '(endres, m, ewr) ← searchEnd a st end_ opt m v;
        let v := {| lv_offset := lv_offset v; maxOffset := maxOffset v;
                    matchesWithoutProgress := matchesWithoutProgress v;
                    endWhileRegion := ewr |} in
        let '(res, matchpos, m) := searchRegset sid st end_ opt m v in
        regularRuleApplies st res endres matchpos ewr ≫= fun regular : bool =>
        if regular then applyRule sid st res m v
        else if 0 <=? endres then applyEnd a st stackBase m v
        else Ok (Break m)
    end
  else Ok (Break m).

(** The body of [renderLine]; its loops run at most [fuel] times each. *)
Definition renderLine_body (fuel : nat) (m : machine) (begin end_ : Z)
    (stackBase : nat) : result machine :=
  if begin =? end_ then Ok m
  else
    '(m1, offset, ewr) ← loop fuel (whileAnchor end_) (m, stackBase, begin, []);
    m2 ← loop fuel (dispatch end_ stackBase)
           (m1, {| lv_offset := offset; maxOffset := begin;
                   matchesWithoutProgress := 0; endWhileRegion := ewr |});
    Ok (with_line m2 (addOpenScopes m2 stackBase end_)).

End Bodies.

Context (states : list state).

(** [renderLine] and [renderCaptures], which call each other. *)
Fixpoint renderLine (fuel : nat) (m : machine) (begin end_ : Z) (stackBase : nat)
    : result machine :=
  match fuel with
  | O => OutOfFuel
  | S fuel' =>
      renderLine_body states
        (fun m p ref => loop fuel' (renderCapture (renderLine fuel') p ref) (m, 0))
        fuel' m begin end_ stackBase
  end.

Definition renderCaptures (fuel : nat) (m : machine) (p : pattern)
    (ref : regionRef) : result machine :=
  loop fuel (renderCapture (renderLine fuel) p ref) (m, 0).

(** [renderNextLine]: the [bool] returned and the machine afterwards, whose
    line is [*outLine]. *)
Definition renderNextLine (fuel : nat) (m : machine) : result (bool * machine) :=
  if offset (rd m) >=? Z.of_nat (length (bytes (rd m))) then Ok (false, m)
  else
    let m0 := nextLine m in
    m1 ← renderLine fuel m0 (line_begin (ln m0)) (endIncludingNewline (ln m0)) 1;
    Ok (true, sortLine m1).

End Model.

Arguments setCaptureScope {E} p name scope.
Arguments setCaptureState {E} p name s.
Arguments firstLineMatch {E} bytes p.
Arguments backreferencingSearch {E} r a cache p subject start range region opt.
Arguments renderCapture {E} renderLine_rec p ref s.
Arguments whileAnchor {E} states renderCaptures_rec end_ s.
Arguments regularRuleApplies {E} st res endres matchpos ewr.
Arguments applyRule {E} states renderCaptures_rec sid st res m v.
Arguments applyEnd {E} renderCaptures_rec a st stackBase m v.
Arguments searchEnd {E} a st end_ opt m v.
Arguments regsetRegions {E} m sid st.
Arguments searchRegset {E} sid st end_ opt m v.
Arguments dispatch {E} states renderCaptures_rec end_ stackBase s.
Arguments renderLine_body {E} states renderCaptures_rec fuel m begin end_ stackBase.
Arguments renderLine {E} states fuel m begin end_ stackBase.
Arguments renderCaptures {E} states fuel m p ref.
Arguments renderNextLine {E} states fuel m.

(** ** A regex library for literal patterns

    An instance of [Onig] in which a regex is a string of literal bytes, the
    only group being group 0.  The source of a regex is its bytes, a byte
    being written as itself or as a backslash and three octal digits.  The
    searches follow Oniguruma on such patterns: a search looks for the
    leftmost position from [start] up to [range] (from [start] down to [range]
    when [range] is not after [start]), a regset search for the leftmost
    position at which a regex of the set matches, the first such regex in the
    order of the set, and a failed search leaves a cleared region. *)
Module Lit.

Definition isOctal (c : byte) : bool := (48 <=? c) && (c <=? 55).

Fixpoint compile (src : list byte) : option (list byte) :=
  match src with
  | [] => Some []
  | c :: rest =>
      if c =? ch_backslash then
        match rest with
        | d1 :: d2 :: d3 :: rest' =>
            if isOctal d1 && isOctal d2 && isOctal d3 then
              cons (64 * (d1 - 48) + 8 * (d2 - 48) + (d3 - 48)) <$> compile rest'
            else None
        | _ => None
        end
      else cons c <$> compile rest
  end.

Definition matchesAt (lit subject : list byte) (at_ : Z) : bool :=
  (0 <=? at_) && (at_ <=? Z.of_nat (length subject)) &&
  bool_decide (take (length lit) (drop (Z.to_nat at_) subject) = lit).

Definition cleared : OnigRegion := [(-1, -1)].

(** The positions a search tries, in order. *)
Definition positions (subject : list byte) (start range : Z) : list Z :=
  if (start <? 0) || (Z.of_nat (length subject) <? start) then []
  else if start <? range then seqZ start (range - start + 1)
  else reverse (seqZ range (start - range + 1)).

Definition search (lit subject : list byte) (start range : Z)
    (region : OnigRegion) (opt : OnigOptionType) : Z * OnigRegion :=
  match List.find (matchesAt lit subject) (positions subject start range) with
  | Some s => (s, [(s, s + Z.of_nat (length lit))])
  | None => (-1, cleared)
  end.

(** The first regex of the set that matches at [s], with its index. *)
Fixpoint firstAt (lits : list (list byte)) (subject : list byte) (s : Z) (i : nat)
    : option (nat * list byte) :=
  match lits with
  | [] => None
  | lit :: lits' =>
      if matchesAt lit subject s then Some (i, lit)
      else firstAt lits' subject s (S i)
  end.

Fixpoint leadFrom (lits : list (list byte)) (subject : list byte) (ps : list Z)
    : option (Z * nat * list byte) :=
  match ps with
  | [] => None
  | s :: ps' =>
      match firstAt lits subject s 0 with
      | Some (i, lit) => Some (s, i, lit)
      | None => leadFrom lits subject ps'
      end
  end.

Definition regset_search (lits : list (list byte)) (regions : list OnigRegion)
    (subject : list byte) (start range : Z) (opt : OnigOptionType)
    : Z * Z * list OnigRegion :=
  let clearedAll := replicate (length lits) cleared in
  if (start <? range) || bool_decide (subject = []) then
    match leadFrom lits subject (positions subject start range) with
    | Some (s, i, lit) =>
        (Z.of_nat i, s, <[i := [(s, s + Z.of_nat (length lit))]]> clearedAll)
    | None => (-1, 0, clearedAll)
    end
  else (-30, 0, clearedAll).

Definition engine : Onig := {|
  OnigRegex := list byte;
  onig_new := compile;
  onig_number_of_captures := fun _ => 0;
  onig_name_to_group_numbers := fun _ _ => (-217, []);
  onig_match := fun lit subject at_ =>
    if matchesAt lit subject at_ then Z.of_nat (length lit) else -1;
  onig_search := search;
  onig_regset_search := regset_search;
|}.

(** Bytes of a string literal. *)
Definition bytesOf (s : string) : list byte :=
  (fun a => Z.of_N (Ascii.N_of_ascii a)) <$> String.list_ascii_of_string s.

(** A pattern of a literal, with the scope of group 0 and the inner and outer
    scopes given. *)
Definition pat (s : string) (scope0 inner outer : scopeName) : pattern (OnigRegex engine) :=
  {| re := bytesOf s : OnigRegex engine; innerScope := inner; outerScope := outer;
     captures := 1; captureScopes := [scope0]; captureStates := [None];
     backreferencingPattern := false; text := None |}.

Definition start (states : list (state (OnigRegex engine))) (input : string) : machine (OnigRegex engine) :=
  {| rd := createRenderer (bytesOf input) (Some 0%nat);
     ln := {| scopes := []; line_begin := 0; line_end := 0;
              endIncludingNewline := 0 |};
     regions := ∅ |}.

(** The machine after [n] more lines. *)
Fixpoint lines (states : list (state (OnigRegex engine))) (fuel : nat) (n : nat)
    (m : machine (OnigRegex engine)) : result (machine (OnigRegex engine)) :=
  match n with
  | O => Ok m
  | S n' =>
      '(_, m') ← renderNextLine states fuel m;
      lines states fuel n' m'
  end.

(** The events of a line as tuples [(ty, name, offset, seq)]. *)
Definition events (m : result (machine (OnigRegex engine)))
    : result (list (scopeType * scopeName * Z * Z)) :=
  m' ← m;
  Ok ((fun s => (ty s, name s, sc_offset s, sc_seq s)) <$> scopes (ln m')).

End Lit.

(** ** Pattern construction as the specification words it *)

(** The copy that is compiled, were each digit of a backslash-digit pair
    replaced with ['0']. *)
Fixpoint digitsZeroed (regex : list byte) : list byte :=
  match regex with
  | [] => []
  | c :: rest =>
      match rest with
      | d :: rest' =>
          if (c =? ch_backslash) && isDigit d
          then c :: ch_0 :: digitsZeroed rest'
          else c :: digitsZeroed rest
      | [] => [c]
      end
  end.

(** The copy with the backslash of each backslash-digit pair replaced with
    ['0'], and whether there is such a pair. *)
Fixpoint backslashesZeroed (regex : list byte) : list byte :=
  match regex with
  | [] => []
  | c :: rest =>
      (match rest with
       | d :: _ => if (c =? ch_backslash) && isDigit d then ch_0 else c
       | [] => c
       end) :: backslashesZeroed rest
  end.

Fixpoint hasBackreference (regex : list byte) : bool :=
  match regex with
  | [] => false
  | c :: rest =>
      (match rest with
       | d :: _ => (c =? ch_backslash) && isDigit d
       | [] => false
       end) || hasBackreference rest
  end.

Definition C5_as_stated (regex : list byte) : Prop :=
  hasBackreference regex = true ->
  fst (compiledText regex) = digitsZeroed regex.

(** ** The first line of an input *)

Definition isNewline (c : byte) : bool := (c =? ch_nl) || (c =? ch_cr).

(** [term] is the terminator of a line that is followed by [rest]. *)
Definition terminator (term rest : list byte) : Prop :=
  term = [ch_nl] \/ term = [ch_cr; ch_nl] \/
  (term = [ch_cr] /\ head rest <> Some ch_nl) \/
  (term = [] /\ rest = []).

(** The bytes of the first line, without its terminator. *)
Definition firstLine (bytes : list byte) : list byte :=
  window bytes 0 (fst (advanceToNextLine bytes 0)).

Definition C9_as_stated (E : Onig) (bytes : list byte) (p : pattern (OnigRegex E)) : Prop :=
  firstLineMatch bytes p = true <->
  exists at_, 0 <= at_ <= Z.of_nat (length (firstLine bytes)) /\
              0 <= onig_match E (re p) (firstLine bytes) at_.

(** ** An iteration of the dispatch loop *)

(** The iteration of the dispatch loop at [(m, v)] has the top frame [a], in
    state [st] (handle [sid]); the search of the end pattern returns [endres]
    and leaves the region [ewr]; the search of the regset returns [res] and
    [matchpos]; [m'] and [v'] are the machine and the local variables after
    the two searches. *)
Definition searches {E : Onig} (states : list (state (OnigRegex E))) (end_ : Z)
    (m : machine (OnigRegex E)) (v : loopVars) (a : activeState (OnigRegex E)) (sid : stateId)
    (st : state (OnigRegex E)) (endres res matchpos : Z) (ewr : OnigRegion)
    (m' : machine (OnigRegex E)) (v' : loopVars) : Prop :=
  matchesWithoutProgress v < 32 /\
  last (stack (rd m)) = Some a /\
  as_s a = Some sid /\
  states !! sid = Some st /\
  let opt := if lv_offset v >? innerBegin a
             then ONIG_OPTION_NOT_BEGIN_POSITION else ONIG_OPTION_NONE in
  exists m1,
    searchEnd a st end_ opt m v = Ok (endres, m1, ewr) /\
    v' = {| lv_offset := lv_offset v; maxOffset := maxOffset v;
            matchesWithoutProgress := matchesWithoutProgress v;
            endWhileRegion := ewr |} /\
    searchRegset sid st end_ opt m1 v' = (res, matchpos, m').

(** The regular match is preferred to the end match, given that the regset
    search succeeded. *)
Definition regularPreferred {E : Onig} (st : state (OnigRegex E)) (endres matchpos : Z)
    (ewr : OnigRegion) : Prop :=
  endres < 0 \/
  exists b0, reg_beg ewr 0 = Some b0 /\
    (matchpos < b0 \/ (applyEndPatternLast st = true /\ matchpos = b0)).

(** The iteration ends with the top frame popped and the loop continuing. *)
Definition framePopped {E : Onig} (m : machine (OnigRegex E))
    (x : result (step (machine (OnigRegex E) * loopVars) (machine (OnigRegex E)))) : Prop :=
  exists m2 v2, x = Ok (Continue (m2, v2)) /\ S (stackDepth m2) = stackDepth m.

Definition C1_as_stated {E : Onig} (states : list (state (OnigRegex E)))
    (rc : machine (OnigRegex E) -> pattern (OnigRegex E) -> regionRef -> result (machine (OnigRegex E)))
    (end_ : Z) (stackBase : nat) (m : machine (OnigRegex E)) (v : loopVars) : Prop :=
  forall a sid st endres res matchpos ewr m' v',
    searches states end_ m v a sid st endres res matchpos ewr m' v' ->
    0 <= res ->
    (regularPreferred st endres matchpos ewr ->
       dispatch states rc end_ stackBase (m, v) = applyRule states rc sid st res m' v') /\
    (~ regularPreferred st endres matchpos ewr ->
       dispatch states rc end_ stackBase (m, v) = applyEnd rc a st stackBase m' v' /\
       framePopped m (dispatch states rc end_ stackBase (m, v))).

Definition C2_as_stated {E : Onig} (states : list (state (OnigRegex E)))
    (rc : machine (OnigRegex E) -> pattern (OnigRegex E) -> regionRef -> result (machine (OnigRegex E)))
    (end_ : Z) (stackBase : nat) (m : machine (OnigRegex E)) (v : loopVars) : Prop :=
  forall a sid st endres res matchpos ewr m' v' q,
    searches states end_ m v a sid st endres res matchpos ewr m' v' ->
    0 <= res -> 0 <= endres ->
    reg_beg ewr 0 = Some matchpos ->
    patterns st !! Z.to_nat res = Some q -> pis_type q = MATCH ->
    (applyEndPatternLast st = false ->
       dispatch states rc end_ stackBase (m, v) = applyRule states rc sid st res m' v') /\
    (applyEndPatternLast st = true ->
       dispatch states rc end_ stackBase (m, v) = applyEnd rc a st stackBase m' v' /\
       framePopped m (dispatch states rc end_ stackBase (m, v))).

(** A BEGIN rule [q] (rule [res] of the state) is the rule applied, and after
    its captures are rendered (the machine is then [m1]) the stack is full. *)
Definition beginOnFullStack {E : Onig} (states : list (state (OnigRegex E)))
    (rc : machine (OnigRegex E) -> pattern (OnigRegex E) -> regionRef -> result (machine (OnigRegex E)))
    (end_ : Z) (m : machine (OnigRegex E)) (v : loopVars) (m1 : machine (OnigRegex E)) : Prop :=
  exists a sid st endres res matchpos ewr m' v' q,
    searches states end_ m v a sid st endres res matchpos ewr m' v' /\
    0 <= res /\ regularPreferred st endres matchpos ewr /\
    patterns st !! Z.to_nat res = Some q /\ pis_type q = BEGIN /\
    rc m' (pis_p q) (RegsetRegion sid (Z.to_nat res)) = Ok m1 /\
    stackDepth m1 = stackSize.

Definition C6_as_stated {E : Onig} (states : list (state (OnigRegex E)))
    (rc : machine (OnigRegex E) -> pattern (OnigRegex E) -> regionRef -> result (machine (OnigRegex E)))
    (end_ : Z) (stackBase : nat) (m : machine (OnigRegex E)) (v : loopVars) : Prop :=
  forall m1,
    beginOnFullStack states rc end_ m v m1 ->
    exists v2, dispatch states rc end_ stackBase (m, v) = Ok (Continue (m1, v2)).

(** ** Grammars and inputs of the examples *)

Module Examples.
Import Lit.

(** The machine and local variables at the first iteration of the dispatch
    loop of the next line, for a stack whose frames have no while pattern. *)
Definition firstIteration (m : machine (OnigRegex engine)) : machine (OnigRegex engine) * loopVars :=
  (nextLine m,
   {| lv_offset := line_begin (ln (nextLine m));
      maxOffset := line_begin (ln (nextLine m));
      matchesWithoutProgress := 0; endWhileRegion := [] |}).

(** The state of the next iteration. *)
Definition continued (x : result (step (machine (OnigRegex engine) * loopVars) (machine (OnigRegex engine))))
    (s : machine (OnigRegex engine) * loopVars) : machine (OnigRegex engine) * loopVars :=
  match x with
  | Ok (Continue s') => s'
  | _ => s
  end.

(** The machine after [n] lines, or [m] if the run fails. *)
Definition after (states : list (state (OnigRegex engine))) (fuel n : nat)
    (m : machine (OnigRegex engine)) : machine (OnigRegex engine) :=
  match lines states fuel n m with
  | Ok m' => m'
  | _ => m
  end.

(** A start state with a rule [b] and the end pattern [a]. *)
Definition endAtBase : list (state (OnigRegex engine)) :=
  [ setEnd (addMatch createState (pat "b" 5 0 0)) (pat "a" 6 0 0) false ].

(** A rule [a] that begins a state with a rule [x] (scope 5) and the end
    pattern [x] (scope 6). *)
Definition tie (applyLast : bool) : list (state (OnigRegex engine)) :=
  [ addBegin createState 1%nat (pat "a" 0 0 1);
    setEnd (addMatch createState (pat "x" 5 0 0)) (pat "x" 6 0 0)
      applyLast ].

(** A rule [a] (scope 5) that begins the state it is in. *)
Definition nest : list (state (OnigRegex engine)) :=
  [ addBegin createState 0%nat (pat "a" 5 0 0) ].

(** 255 bytes [a], a line feed, and two bytes [a]. *)
Definition deep : list byte := replicate 255 97 ++ [ch_nl; 97; 97].

Definition deepStart : machine (OnigRegex engine) :=
  {| rd := createRenderer deep (Some 0%nat);
     ln := {| scopes := []; line_begin := 0; line_end := 0;
              endIncludingNewline := 0 |};
     regions := ∅ |}.

End Examples.


Module Situations.
Import Lit Examples.

(** The second iteration on the input [ax] with the grammar [tie]: the rule
    [a] has begun the inner state, and the rule [x] and the end pattern [x]
    both match at offset 1. *)
Definition tieSecond (applyLast : bool) : machine (OnigRegex engine) * loopVars :=
  continued
    (dispatch (tie applyLast) (renderCaptures (tie applyLast) 10) 2 1
       (firstIteration (start (tie applyLast) "ax")))
    (firstIteration (start (tie applyLast) "ax")).

(** The first iteration of the second line of [deep] with the grammar [nest]:
    the first line has filled the stack. *)
Definition fullStack : machine (OnigRegex engine) * loopVars :=
  firstIteration (after nest 300 1 deepStart).

Definition fullTop : activeState (OnigRegex engine) :=
  default (transientFrame None) (last (stack (rd (fst fullStack)))).

Definition fullRoot : state (OnigRegex engine) :=
  addBegin createState 0%nat (pat "a" 5 0 0).

(** The machine after the regset search of that iteration, and after the
    captures of the rule [a] are rendered. *)
Definition fullSearched : machine (OnigRegex engine) :=
  snd (searchRegset 0%nat fullRoot 258
         (if lv_offset (snd fullStack) >? innerBegin fullTop
          then ONIG_OPTION_NOT_BEGIN_POSITION else ONIG_OPTION_NONE)
         (fst fullStack) (snd fullStack)).

Definition fullCaptured : machine (OnigRegex engine) :=
  match renderCaptures nest 10 fullSearched (pat "a" 5 0 0) (RegsetRegion 0%nat 0%nat) with
  | Ok m => m
  | _ => fullSearched
  end.

End Situations.

(** The depth of the stack with which an iteration lets the loop continue. *)
Definition continuesAt {E : Onig}
    (x : result (step (machine (OnigRegex E) * loopVars) (machine (OnigRegex E)))) : option nat :=
  match x with
  | Ok (Continue (m, _)) => Some (stackDepth m)
  | _ => None
  end.


Module Backrefs.
Import Lit.

(** The pattern [createBackreferencingPattern] makes of a source, with the
    scope of group 0 set. *)
Definition backref (src : string) (scope0 : scopeName) : pattern (OnigRegex engine) :=
  match createBackreferencingPattern engine (bytesOf src) with
  | Some p => with_captureScopes p [scope0]
  | None => pat "" 0 0 0
  end.

(** A rule [ab] that begins a state whose while pattern is [\0] (scope 7),
    with no end pattern. *)
Definition whileOnly : list (state (OnigRegex engine)) :=
  [ addBegin createState 1%nat (pat "ab" 0 0 1);
    setWhile createState (backref "\0" 7) ].

(** The same, the state having the end pattern [\0zz] as well. *)
Definition whileAndEnd : list (state (OnigRegex engine)) :=
  [ addBegin createState 1%nat (pat "ab" 0 0 1);
    setEnd (setWhile createState (backref "\0" 7)) (backref "\0zz" 0) false ].

Definition twoLines : string := "ab
ab
".

End Backrefs.


(** ** What a run does to the line *)

(** [l'] is [l] after some calls of [addScopeRange]. *)
Inductive lineSteps (l : line) : line -> Prop :=
  | lineSteps_refl : lineSteps l l
  | lineSteps_add (l' : line) (name seq begin end_ : Z) :
      lineSteps l l' -> lineSteps l (addScopeRange l' name seq begin end_).

(** The line of [m'] is the line of [m] after some calls of [addScopeRange],
    and the input and the offset of the renderer are those of [m]. *)
Definition lineRel {regex : Type} (m m' : machine regex) : Prop :=
  lineSteps (ln m) (ln m') /\
  bytes (rd m') = bytes (rd m) /\
  offset (rd m') = offset (rd m).


(** ** The events of a line *)




(** The two events of a range that is emitted on a line from [lb] to [le]. *)
Definition beginEvent (lb : Z) (name seq begin end_ : Z) : scope :=
  {| ty := SCOPE_BEGIN; name := name;
     sc_offset := if begin <? lb then lb else begin;
     startOffset := begin; endOffset := end_; sc_seq := seq |}.

Definition endEvent (le : Z) (name seq begin end_ : Z) : scope :=
  {| ty := SCOPE_END; name := name;
     sc_offset := if end_ >? le then le else end_;
     startOffset := begin; endOffset := end_; sc_seq := seq |}.

(** A list of events made of the pairs of emitted ranges, in the order of
    emission: each range has a name, and is not empty once clamped to the
    line. *)
Inductive paired (lb le : Z) : list scope -> Prop :=
  | paired_nil : paired lb le []
  | paired_range (ps : list scope) (name seq begin end_ : Z) :
      paired lb le ps ->
      name <> 0 ->
      sc_offset (beginEvent lb name seq begin end_) <
        sc_offset (endEvent le name seq begin end_) ->
      paired lb le
        (ps ++ [beginEvent lb name seq begin end_; endEvent le name seq begin end_]).






(** The line that [renderNextLine] renders next is empty. *)
Definition emptyLineNext {regex : Type} (m : machine regex) : Prop :=
  line_begin (ln (nextLine m)) = line_end (ln (nextLine m)).

Definition C7_as_stated {E : Onig} (states : list (state (OnigRegex E)))
    (fuel : nat) (m : machine (OnigRegex E)) : Prop :=
  emptyLineNext m ->
  forall m', renderNextLine states fuel m = Ok (true, m') ->
    scopes (ln m') =
      qsort (scopes (addOpenScopes (nextLine m) 1 (endIncludingNewline (ln (nextLine m))))) /\
    stack (rd m') = stack (rd m).

Module Scenarios.
Import Lit.

(** A rule [a] (outer scope 1) begins a state with the while pattern [w] and
    a rule [b] (outer scope 2) that begins a state with the end pattern [e]. *)
Definition reanchored : list (state (OnigRegex engine)) :=
  [ addBegin createState 1%nat (pat "a" 0 0 1);
    setWhile (addBegin createState 2%nat (pat "b" 0 0 2)) (pat "w" 0 0 0);
    setEnd createState (pat "e" 0 0 0) false ].

Definition reanchoredInput : string := "ab
wxex
".

(** A rule that matches a line feed and begins a state. *)
Definition atLineFeed : list (state (OnigRegex engine)) :=
  [ addBegin createState 1%nat (pat "
" 0 0 1);
    createState ].

Definition lineFeed : string := "
".

End Scenarios.


(** ** What a run does to the stack *)

(** The stack of [m] has at least [stackBase] frames and fits the array. *)
Definition inRange {regex : Type} (stackBase : nat) (m : machine regex) : Prop :=
  (stackBase <= stackDepth m <= stackSize)%nat.

(** The frames of [m] under the frame below [stackBase] are those of [m'],
    which is in range. *)
Definition keeps {regex : Type} (stackBase : nat) (m m' : machine regex) : Prop :=
  take (stackBase - 1) (stack (rd m')) = take (stackBase - 1) (stack (rd m)) /\
  inRange stackBase m'.

(** The variant of the dispatch loop: what is left of [size_t] above
    [maxOffset], then of the 32 matches without progress, then the depth of
    the stack. *)
Definition dispatchMeasure {regex : Type} (s : machine regex * loopVars) : Z :=
  (Z.max 0 (2 ^ 64 - maxOffset (snd s)) * 33 +
   Z.max 0 (32 - matchesWithoutProgress (snd s))) * 257 +
  Z.of_nat (stackDepth (fst s)).


(** [r'] is [r] wherever [r] did not run out of fuel. *)
Definition refines {A} (r r' : result A) : Prop := r <> OutOfFuel -> r' = r.

Module Stalls.
Import Lit.






End Stalls.

Module Reentry.
Import Lit Backrefs.

(** The machine at the call of [renderLine] for the second line of
    [twoLines], the first line rendered with the grammar [states]. *)
Definition secondLine (states : list (state (OnigRegex engine)))
    : machine (OnigRegex engine) :=
  nextLine (Examples.after states 20 1 (start states twoLines)).

(** The frame that the rule [ab] pushed on the first line. *)
Definition pushed (states : list (state (OnigRegex engine)))
    : activeState (OnigRegex engine) :=
  default (transientFrame None) (stack (rd (secondLine states)) !! 1%nat).

End Reentry.


(** ** The order of the events *)

(** The fields [compareScopes] reads: every field of an event but its name. *)
Definition sortKey (s : scope) : scopeType * Z * Z * Z * Z :=
  (ty s, sc_offset s, startOffset s, endOffset s, sc_seq s).

(** The order of [compareScopes] as a lexicographic one: by offset; at one
    offset END events first; then BEGIN events by their start, the later end
    first, then by sequence number, and END events the other way round. *)
Definition lexKey (s : scope) : Z * Z * Z * Z * Z :=
  match ty s with
  | SCOPE_END => (sc_offset s, 0, - startOffset s, endOffset s, - sc_seq s)
  | SCOPE_BEGIN => (sc_offset s, 1, startOffset s, - endOffset s, sc_seq s)
  end.

Definition lexLe (x y : Z * Z * Z * Z * Z) : Prop :=
  let '(x1, x2, x3, x4, x5) := x in
  let '(y1, y2, y3, y4, y5) := y in
  x1 < y1 \/ (x1 = y1 /\ (x2 < y2 \/ (x2 = y2 /\ (x3 < y3 \/ (x3 = y3 /\
    (x4 < y4 \/ (x4 = y4 /\ x5 <= y5))))))).

(** No element of [l] comes after one it is greater than: what [qsort]
    leaves, whatever its algorithm. *)
Fixpoint orderedByCompare (l : list scope) : Prop :=
  match l with
  | [] => True
  | s :: l' => Forall (fun t => compareScopes s t <= 0) l' /\ orderedByCompare l'
  end.

(** ** Capture names, read as the header words them *)

(** The number a string of decimal digits denotes, continuing from [acc]. *)
Definition decimalFrom (acc : Z) (name : list byte) : Z :=
  foldl (fun a c => a * 10 + (c - ch_0)) acc name.

Definition decimal (name : list byte) : Z := decimalFrom 0 name.

(** ** The renderer between two lines *)

(** The stack is in range with the start frame at its base, and the offset
    is within the input. *)
Definition rendererOk {regex : Type} (m : machine regex) : Prop :=
  inRange 1 m /\ 0 <= offset (rd m) <= Z.of_nat (length (bytes (rd m))).

(** An event lies within the line from [lb] to [le] at the bound of its
    range, clamped to the line, and its range has a name and is not empty. *)
Definition withinLine (lb le : Z) (s : scope) : Prop :=
  lb <= sc_offset s <= le /\ name s <> 0 /\ startOffset s < endOffset s /\
  sc_offset s =
    match ty s with
    | SCOPE_BEGIN => Z.max lb (startOffset s)
    | SCOPE_END => Z.min le (endOffset s)
    end.

Module Runs.
Import Lit.

(** The machine at the call of [renderLine] for the first line of [input],
    and the machine that call returns. *)
Definition entered (states : list (state (OnigRegex engine))) (input : string)
    : machine (OnigRegex engine) :=
  nextLine (start states input).

Definition returned (states : list (state (OnigRegex engine))) (input : string)
    : machine (OnigRegex engine) :=
  match renderLine states 20 (entered states input)
          (line_begin (ln (entered states input)))
          (endIncludingNewline (ln (entered states input))) 1 with
  | Ok m => m
  | _ => entered states input
  end.

End Runs.

(** ** The expansion of a backreferencing pattern, as the specification
    words it *)

(** The bytes of group [d] of the begin match, if the group took part in
    the match and its indices are consistent. *)
Definition capturedGroup (bytes : list byte) (beginOffset : Z)
    (region : OnigRegion) (d : Z) : option (list byte) :=
  match region !! Z.to_nat d with
  | Some (b, e) =>
      if (b <? 0) || (e <? b) then None
      else Some (window bytes (beginOffset + b) (beginOffset + e))
  | None => None
  end.

(** Every backslash-digit pair replaced with the octal escapes of the bytes
    of the group, every other byte kept. *)
Fixpoint expansion_as_stated (bytes : list byte) (beginOffset : Z)
    (region : OnigRegion) (text : list byte) : option (list byte) :=
  match text with
  | [] => Some []
  | c :: rest =>
      match rest with
      | d :: rest' =>
          if (c =? ch_backslash) && isDigit d then
            match capturedGroup bytes beginOffset region (d - ch_0),
                  expansion_as_stated bytes beginOffset region rest' with
            | Some captured, Some tail =>
                Some (concat (octalEscape <$> captured) ++ tail)
            | _, _ => None
            end
          else cons c <$> expansion_as_stated bytes beginOffset region rest
      | [] => Some [c]
      end
  end.

(** The groups of [region] that took part in the match lie within [bytes],
    from [beginOffset] on. *)
Definition regionWithin (bytes : list byte) (beginOffset : Z)
    (region : OnigRegion) : Prop :=
  0 <= beginOffset /\
  forall i b e, region !! i = Some (b, e) -> 0 <= b -> b <= e ->
    beginOffset + e <= Z.of_nat (length bytes).

(** The expansion of [text] over [bytes] stays far from the end of
    [size_t]. *)
Definition expansionFits (bytes text : list byte) : Prop :=
  (4 * Z.of_nat (length bytes) + 1) * (Z.of_nat (length text) + 1) <= 2 ^ 63.

(** [expandFrom] with the capacity [size] of [replaced] checked at every
    write: a write at or past [replaced + size] is undefined. *)
Fixpoint expandFromChecked (bytes : list byte) (beginOffset : Z)
    (region : OnigRegion) (plen : Z) (rest : list byte) (i size : Z)
    (replaced : list byte) : result (option (list byte)) :=
  match rest with
  | [] => Ok (Some replaced)
  | c :: rest1 =>
      let literal :=
        if Z.of_nat (length replaced) <? size then
          expandFromChecked bytes beginOffset region plen rest1 (i + 1) size
            (replaced ++ [c])
        else Undefined in
      match rest1 with
      | d :: rest2 =>
          if (c =? ch_backslash) && isDigit d then
            let i := i + 1 in
            let which := d - ch_0 in
            if which >=? num_regs region then Ok None
            else
              '(b, e) ← deref (region !! Z.to_nat which);
              if (b <? 0) || (e <? b) then Ok None
              else
                let start := size_t_ (beginOffset + b) in
                let end_ := size_t_ (beginOffset + e) in
                let reserved :=
                  size_t_ (Z.of_nat (length replaced) + 4 * (end_ - start) + plen - i) in
                sz ← growSize 64 size reserved;
                match sz with
                | None => Ok None
                | Some size' =>
                    captured ← capturedBytes bytes start end_;
                    if Z.of_nat (length replaced) + 4 * Z.of_nat (length captured)
                         <=? size'
                    then
                      expandFromChecked bytes beginOffset region plen rest2 (i + 1)
                        size' (replaced ++ concat (octalEscape <$> captured))
                    else Undefined
                end
          else literal
      | [] => literal
      end
  end.

Module Expansions.
Import Lit Backrefs.

(** The renderer and the frame at the second line of [twoLines] with the
    grammar [whileAndEnd]: the frame holds the begin match [ab]. *)
Definition reentered : renderer (OnigRegex engine) :=
  rd (Reentry.secondLine whileAndEnd).

Definition frame : activeState (OnigRegex engine) :=
  Reentry.pushed whileAndEnd.

End Expansions.

Module Pushes.
Import Lit Backrefs.

(** The rule [ab] of the start state of [whileOnly], and the state it leads
    to. *)
Definition rule : patternInState (OnigRegex engine) :=
  {| pis_type := BEGIN; pis_p := pat "ab" 0 0 1; pis_to := Some 1%nat |}.

Definition from : state (OnigRegex engine) :=
  addBegin createState 1%nat (pat "ab" 0 0 1).

Definition target : state (OnigRegex engine) :=
  setWhile createState (backref "\0" 7).

(** The first iteration of the dispatch loop on the first line of
    [twoLines] with the grammar [whileOnly], after the search of the regset:
    the rule [ab] is applied. *)
Definition searched : machine (OnigRegex engine) :=
  snd (searchRegset 0%nat from 3 ONIG_OPTION_NONE (Runs.entered whileOnly twoLines)
         (snd (Examples.firstIteration (start whileOnly twoLines)))).

Definition vars : loopVars :=
  snd (Examples.firstIteration (start whileOnly twoLines)).

End Pushes.

(** ** Named captures *)

(** The first [n] group numbers of [groups] are groups of a vector of
    [size] entries. *)
Definition groupsWithin (n : Z) (groups : list Z) (size : nat) : Prop :=
  forall j, (j < Z.to_nat n)%nat ->
    exists g, groups !! j = Some g /\ 0 <= g < Z.of_nat size.

(** [a'] is [a] with the entries of the first [n] groups of [groups] set to
    [v], and the others kept. *)
Definition groupsSet {A} (n : Z) (groups : list Z) (v : A) (a a' : list A)
    : Prop :=
  length a' = length a /\
  (forall j g, (j < Z.to_nat n)%nat -> groups !! j = Some g ->
     a' !! Z.to_nat g = Some v) /\
  (forall k,
     (forall j g, (j < Z.to_nat n)%nat -> groups !! j = Some g -> Z.to_nat g <> k) ->
     a' !! k = a !! k).


(** ** The outcome of an iteration of the dispatch loop *)

(** The local variables after the match of a rule that ends at [e]:
    [if (e > maxOffset) { matchesWithoutProgress = 0; maxOffset = e; }
     else matchesWithoutProgress++; offset = e;]. *)
Definition advance (v : loopVars) (e : Z) : loopVars :=
  if e >? maxOffset v then
    {| lv_offset := e; maxOffset := e; matchesWithoutProgress := 0;
       endWhileRegion := endWhileRegion v |}
  else
    {| lv_offset := e; maxOffset := maxOffset v;
       matchesWithoutProgress := matchesWithoutProgress v + 1;
       endWhileRegion := endWhileRegion v |}.

(** The frame a BEGIN rule [q] pushes for the state [tost] (handle [to]) it
    leads to, [region] being the region of its match and [m1] the machine
    after its captures. *)
Definition pushedFrame {regex : Type} (q : patternInState regex) (to : stateId)
    (tost : state regex) (m1 : machine regex) (region : OnigRegion)
    (b0 e0 : Z) : activeState regex :=
  {| as_s := Some to; as_p := Some (pis_p q);
     beginRegion :=
       match endPattern tost with
       | Some ep => if backreferencingPattern ep then Some region else None
       | None => None
       end;
     endRegex := None; whileRegex := None;
     beginOffset := line_begin (ln m1);
     outerBegin := abs m1 b0; outerSeq := seq (rd m1);
     innerBegin := abs m1 e0; innerSeq := size_t_ (seq (rd m1) + 1) |}.

(** What [renderCaptures] does with group [i] of a region on a full stack
    (a state of the group is not entered then): the range of the group is
    added if the group took part in the match and has a scope, and takes the
    next sequence number. *)
Definition emitCapture {regex : Type} (p : pattern regex) (m : machine regex)
    (i : nat) (be : Z * Z) : machine regex :=
  match captureScopes p !! i with
  | Some sc =>
      if (fst be <? 0) || (sc =? 0) then m
      else
        with_seq
          (with_line m
             (addScopeRange (ln m) sc (seq (rd m)) (abs m (fst be)) (abs m (snd be))))
          (size_t_ (seq (rd m) + 1))
  | None => m
  end.

Fixpoint emitCaptures {regex : Type} (p : pattern regex) (m : machine regex)
    (i : nat) (groups : list (Z * Z)) : machine regex :=
  match groups with
  | [] => m
  | be :: rest => emitCaptures p (emitCapture p m i be) (S i) rest
  end.

(** The events [addScopeRange] adds to a line from [lb] to [le]. *)
Definition rangeEvents (lb le : Z) (name seq begin end_ : Z) : list scope :=
  if (name =? 0) ||
     (sc_offset (beginEvent lb name seq begin end_) >=?
      sc_offset (endEvent le name seq begin end_))
  then []
  else [beginEvent lb name seq begin end_; endEvent le name seq begin end_].

(** The events of the ranges of the frames [frames], still open at [end_]:
    for each frame with a pattern its outer range, then its inner range. *)
Definition openRanges {regex : Type} (lb le end_ : Z)
    (frames : list (activeState regex)) : list scope :=
  concat
    ((fun a =>
        match as_p a with
        | None => []
        | Some p =>
            rangeEvents lb le (outerScope p) (outerSeq a) (outerBegin a) end_ ++
            rangeEvents lb le (innerScope p) (innerSeq a) (innerBegin a) end_
        end) <$> frames).

(** The state of a loop of body [body] after [k] iterations from [s], none
    of which leaves the loop. *)
Fixpoint runs {S R : Type} (body : S -> result (step S R)) (k : nat) (s : S)
    : option S :=
  match k with
  | O => Some s
  | Datatypes.S k' =>
      match body s with
      | Ok (Continue s') => runs body k' s'
      | _ => None
      end
  end.

Definition reaches {S R : Type} (body : S -> result (step S R)) (k : nat)
    (s s' : S) : Prop :=
  runs body k s = Some s'.

(** ** Matches without progress *)




(** ** A line rendered on a full stack *)

Module Overflow.
Import Lit Examples.

(** A rule [a] (scope 5, outer scope 9) that begins the state it is in. *)
Definition nested : list (state (OnigRegex engine)) :=
  [ addBegin createState 0%nat (pat "a" 5 0 9) ].

Definition root : state (OnigRegex engine) :=
  addBegin createState 0%nat (pat "a" 5 0 9).

Definition rule : patternInState (OnigRegex engine) :=
  {| pis_type := BEGIN; pis_p := pat "a" 5 0 9; pis_to := Some 0%nat |}.

(** The call of [renderLine] for the second line of [deep]: the first line
    has filled the stack. *)
Definition entered : machine (OnigRegex engine) :=
  nextLine (after nested 300 1 deepStart).

(** The first iteration of the dispatch loop of that call. *)
Definition first : machine (OnigRegex engine) * loopVars :=
  (entered,
   {| lv_offset := 256; maxOffset := 256; matchesWithoutProgress := 0;
      endWhileRegion := [] |}).

Definition top : activeState (OnigRegex engine) :=
  default (transientFrame None) (last (stack (rd entered))).

(** The machine after the regset search of that iteration. *)
Definition searched : machine (OnigRegex engine) :=
  snd (searchRegset 0%nat root 258 ONIG_OPTION_NOT_BEGIN_POSITION entered
         (snd first)).

(** The events of the line the call returns: the range of the match of the
    rule [a] at offset 256, then the outer ranges of the 255 frames that the
    first line pushed, each clamped to the line. *)
Definition expected : list scope :=
  [ {| ty := SCOPE_BEGIN; name := 5; sc_offset := 256; startOffset := 256;
       endOffset := 257; sc_seq := 765 |};
    {| ty := SCOPE_END; name := 5; sc_offset := 257; startOffset := 256;
       endOffset := 257; sc_seq := 765 |} ] ++
  concat
    ((fun k =>
        [ {| ty := SCOPE_BEGIN; name := 9; sc_offset := 256; startOffset := k - 1;
             endOffset := 258; sc_seq := 3 * k - 2 |};
          {| ty := SCOPE_END; name := 9; sc_offset := 258; startOffset := k - 1;
             endOffset := 258; sc_seq := 3 * k - 2 |} ]) <$> seqZ 1 255).

End Overflow.


(** ** Properties *)

(** *** Pattern construction *)

Lemma takeOutBackreferences_spec (rest pre : list byte) (flag : bool) :
  takeOutBackreferences (length rest - 1) (length pre) (pre ++ rest) flag =
  (pre ++ backslashesZeroed rest, flag || hasBackreference rest).
Proof.
  revert pre flag. induction rest as [|c rest IH]; intros pre flag.
  - simpl. now rewrite orb_false_r.
  - destruct rest as [|d rest'].
    + simpl. now rewrite orb_false_r.
    + replace (length (c :: d :: rest') - 1)%nat with (S (length (d :: rest') - 1))
        by (simpl; lia).
      cbn [takeOutBackreferences].
      rewrite (lookup_app_r pre) by lia.
      rewrite (lookup_app_r pre (c :: d :: rest') (S (length pre))) by lia.
      replace (length pre - length pre)%nat with 0%nat by lia.
      replace (S (length pre) - length pre)%nat with 1%nat by lia.
      cbn [lookup list_lookup].
      specialize (IH (pre ++ [if (c =? ch_backslash) && isDigit d then ch_0 else c])).
      rewrite length_app in IH. cbn [length] in IH.
      replace (length pre + 1)%nat with (S (length pre)) in IH by lia.
      rewrite <- (assoc_L (++)) in IH. cbn [app] in IH.
      cbn [backslashesZeroed hasBackreference].
      fold (backslashesZeroed (d :: rest')). fold (hasBackreference (d :: rest')).
      destruct ((c =? ch_backslash) && isDigit d) eqn:Hpair.
      * rewrite insert_app_r_alt by lia.
        replace (length pre - length pre)%nat with 0%nat by lia.
        cbn [insert list_insert].
        rewrite IH, <- (assoc_L (++)). cbn [app].
        now rewrite orb_true_r.
      * rewrite IH, <- (assoc_L (++)). cbn [app]. reflexivity.
Qed.

Lemma compiledText_spec (regex : list byte) :
  compiledText regex = (backslashesZeroed regex, hasBackreference regex).
Proof.
  unfold compiledText.
  exact (takeOutBackreferences_spec regex [] false).
Qed.

Lemma backslashesZeroed_id (regex : list byte) :
  hasBackreference regex = false -> backslashesZeroed regex = regex.
Proof.
  induction regex as [|c rest IH]; [reflexivity|].
  cbn [hasBackreference backslashesZeroed]. intros H.
  apply orb_false_iff in H as [H1 H2]. rewrite (IH H2).
  destruct rest; [reflexivity|]. now rewrite H1.
Qed.

(** C5, as amended: the copy that is compiled has the backslash (not the
    digit) of every backslash-digit pair replaced with ['0'], every other byte
    kept; when there is such a pair and the copy compiles, the pattern is
    marked backreferencing and keeps the original source; when there is none,
    the result is that of [createPattern], with no source kept. *)
Theorem C5_createBackreferencingPattern (E : Onig) (regex : list byte) :
  compiledText regex = (backslashesZeroed regex, hasBackreference regex) /\
  length (backslashesZeroed regex) = length regex /\
  createBackreferencingPattern E regex =
    (if hasBackreference regex
     then (fun p => with_text p true regex) <$> createPattern E (backslashesZeroed regex)
     else createPattern E regex) /\
  (hasBackreference regex = false ->
     forall p, createBackreferencingPattern E regex = Some p -> text p = None).
Proof.
  split; [apply compiledText_spec|]. split.
  { induction regex as [|c rest IH]; [reflexivity|]. cbn [backslashesZeroed length].
    now rewrite IH. }
  unfold createBackreferencingPattern. rewrite compiledText_spec.
  destruct (hasBackreference regex) eqn:Hb.
  - split; [|discriminate].
    destruct (createPattern E (backslashesZeroed regex)); reflexivity.
  - rewrite (backslashesZeroed_id _ Hb). split.
    + destruct (createPattern E regex); reflexivity.
    + intros _ p. unfold createPattern.
      destruct (onig_new E regex); [|discriminate].
      cbn. intros [= <-]. reflexivity.
Qed.

(** C5, as stated, fails: for the source [\3] the copy that is compiled is
    [03], not [\0]. *)
Lemma C5_counterexample : ~ C5_as_stated [ch_backslash; 51].
Proof.
  unfold C5_as_stated. intros H. specialize (H eq_refl). vm_compute in H.
  discriminate H.
Qed.

(** *** The first line *)

Lemma advanceToNextLine_from_line (body term rest : list byte) (offset : Z) :
  Forall (fun c => isNewline c = false) body ->
  terminator term rest ->
  advanceToNextLine_from (body ++ term ++ rest) offset =
  (offset + Z.of_nat (length body),
   offset + Z.of_nat (length body) + Z.of_nat (length term)).
Proof.
  intros Hbody Hterm. revert offset.
  induction Hbody as [|c body Hc Hbody IH]; intros offset.
  - cbn [app length]. rewrite Z.add_0_r.
    destruct Hterm as [-> | [-> | [[-> Hrest] | [-> ->]]]]; cbn.
    + reflexivity.
    + reflexivity.
    + destruct rest as [|d rest]; [reflexivity|].
      destruct (d =? ch_nl) eqn:Hd; [|reflexivity].
      apply Z.eqb_eq in Hd. subst d. now contradiction Hrest.
    + now rewrite Z.add_0_r.
  - cbn [app advanceToNextLine_from length].
    unfold isNewline in Hc. apply orb_false_iff in Hc as [-> ->].
    rewrite IH. f_equal; lia.
Qed.

(** C9, as amended: on an input that starts with a line [body] ended by
    [term] (a line feed, a carriage return, both, or the end of the input),
    [firstLineMatch] advances past [body] and [term] and is true exactly when
    the pattern matches at offset 0 of [body ++ term] (a match anchored at the
    start of the line, not a search of the line). *)
Theorem C9_firstLineMatch (E : Onig) (p : pattern (OnigRegex E)) (body term rest : list byte) :
  Forall (fun c => isNewline c = false) body ->
  terminator term rest ->
  advanceToNextLine (body ++ term ++ rest) 0 =
    (Z.of_nat (length body), Z.of_nat (length body + length term)) /\
  firstLineMatch (body ++ term ++ rest) p =
    (0 <=? onig_match E (re p) (body ++ term) 0).
Proof.
  intros Hbody Hterm.
  assert (Hadv : advanceToNextLine (body ++ term ++ rest) 0 =
                 (Z.of_nat (length body), Z.of_nat (length body + length term))).
  { unfold advanceToNextLine. change (Z.to_nat 0) with 0%nat. rewrite drop_0.
    rewrite (advanceToNextLine_from_line body term rest 0 Hbody Hterm).
    f_equal; lia. }
  split; [exact Hadv|].
  unfold firstLineMatch. rewrite Hadv. unfold window.
  rewrite Z.sub_0_r, Nat2Z.id. change (Z.to_nat 0) with 0%nat. rewrite drop_0.
  rewrite (assoc_L (++)), take_app_length'; [reflexivity|].
  now rewrite length_app.
Qed.

Lemma C9_firstLineMatch_witness :
  firstLineMatch (Lit.bytesOf "ab" ++ [ch_nl] ++ Lit.bytesOf "cd")
    (Lit.pat "a" 0 0 0) = true.
Proof.
  destruct (C9_firstLineMatch Lit.engine (Lit.pat "a" 0 0 0)
              (Lit.bytesOf "ab") [ch_nl] (Lit.bytesOf "cd")) as [_ H].
  - repeat constructor.
  - left. reflexivity.
  - rewrite H. reflexivity.
Defined.

(** C9, as stated, fails: the pattern [b] matches within the first line of
    [ab], at offset 1, and [firstLineMatch] is false. *)
Lemma C9_counterexample :
  ~ C9_as_stated Lit.engine (Lit.bytesOf "ab" ++ [ch_nl]) (Lit.pat "b" 0 0 0).
Proof.
  unfold C9_as_stated. intros [_ H].
  assert (Hex : exists at_ : Z,
             0 <= at_ <= Z.of_nat (length (firstLine (Lit.bytesOf "ab" ++ [ch_nl]))) /\
             0 <= onig_match Lit.engine (re (Lit.pat "b" 0 0 0))
                    (firstLine (Lit.bytesOf "ab" ++ [ch_nl])) at_).
  { exists 1. vm_compute. repeat split; discriminate. }
  specialize (H Hex). vm_compute in H. discriminate H.
Qed.

(** *** Capture names *)

(** C10 fails on the code: the name [4294967296] consists of digits and is
    the number of no group, yet [captureNameToInt] wraps it to 0 and the scope
    and the state of group 0 are set. *)
Theorem C10_wrapped_capture_name :
  captureNameToInt (Lit.bytesOf "4294967296") = 0 /\
  setCaptureScope (Lit.pat "a" 0 0 0) (Lit.bytesOf "4294967296") 7 =
    Ok (with_captureScopes (Lit.pat "a" 0 0 0) [7]) /\
  setCaptureState (Lit.pat "a" 0 0 0) (Lit.bytesOf "4294967296") (Some 3%nat) =
    Ok (with_captureStates (Lit.pat "a" 0 0 0) [Some 3%nat]).
Proof. repeat split. Qed.

(** *** The dispatch loop: which match is applied *)

Lemma dispatch_regular {E : Onig} (states : list (state (OnigRegex E))) rc end_ stackBase
    m v a sid st endres res matchpos ewr m' v' :
  searches states end_ m v a sid st endres res matchpos ewr m' v' ->
  0 <= res ->
  regularPreferred st endres matchpos ewr ->
  dispatch states rc end_ stackBase (m, v) = applyRule states rc sid st res m' v'.
Proof.
  intros (Hlt & Hlast & Hs & Hst & m1 & Hend & -> & Hset) Hres Hpref.
  unfold dispatch.
  destruct (matchesWithoutProgress v <? 32) eqn:H32; [|lia].
  rewrite Hlast. cbn [deref mbind result_bind]. rewrite Hs, Hst.
  cbn [deref mbind result_bind].
  rewrite Hend. cbn [mbind result_bind]. rewrite Hset.
  unfold regularRuleApplies.
  destruct (res <? 0) eqn:Hr; [lia|].
  destruct Hpref as [Hneg | (b0 & Hb0 & Hcase)].
  - destruct (endres <? 0) eqn:He; [|lia]. reflexivity.
  - destruct (endres <? 0) eqn:He; [reflexivity|].
    rewrite Hb0. cbn [deref mbind result_bind].
    destruct Hcase as [Hlt' | [Hlast' ->]].
    + destruct (matchpos <? b0) eqn:Hm; [|lia]. reflexivity.
    + rewrite Hlast', Z.eqb_refl, orb_true_r. reflexivity.
Qed.

Lemma dispatch_end {E : Onig} (states : list (state (OnigRegex E))) rc end_ stackBase
    m v a sid st endres res matchpos ewr m' v' b0 :
  searches states end_ m v a sid st endres res matchpos ewr m' v' ->
  0 <= res -> 0 <= endres ->
  reg_beg ewr 0 = Some b0 ->
  ~ regularPreferred st endres matchpos ewr ->
  dispatch states rc end_ stackBase (m, v) = applyEnd rc a st stackBase m' v'.
Proof.
  intros (Hlt & Hlast & Hs & Hst & m1 & Hend & -> & Hset) Hres Hendres Hb0 Hpref.
  unfold dispatch.
  destruct (matchesWithoutProgress v <? 32) eqn:H32; [|lia].
  rewrite Hlast. cbn [deref mbind result_bind]. rewrite Hs, Hst.
  cbn [deref mbind result_bind].
  rewrite Hend. cbn [mbind result_bind]. rewrite Hset.
  unfold regularRuleApplies.
  destruct (res <? 0) eqn:Hr; [lia|].
  destruct (endres <? 0) eqn:He; [lia|].
  rewrite Hb0. cbn [deref mbind result_bind].
  destruct (matchpos <? b0) eqn:Hm.
  { exfalso. apply Hpref. right. exists b0. split; [done|]. left. lia. }
  destruct (applyEndPatternLast st && (matchpos =? b0)) eqn:Hl.
  { exfalso. apply Hpref. right. exists b0. split; [done|]. right.
    apply andb_true_iff in Hl as [-> Heq]. split; [done|lia]. }
  cbn [orb]. destruct (0 <=? endres) eqn:He'; [reflexivity|lia].
Qed.

(** What [applyEnd] does once the captures of the end pattern are rendered:
    at or below [stackBase] the loop is left; above it the scopes of the top
    frame are added, the frame is popped and the loop continues. *)
Lemma applyEnd_after_captures {E : Onig}
    (rc : machine (OnigRegex E) -> pattern (OnigRegex E) -> regionRef -> result (machine (OnigRegex E)))
    a st stackBase m v ep m1 :
  endPattern st = Some ep ->
  rc m ep (LocalRegion (endWhileRegion v)) = Ok m1 ->
  ((stackDepth m1 <= stackBase)%nat ->
     applyEnd rc a st stackBase m v = Ok (Break m1)) /\
  ((stackBase < stackDepth m1)%nat ->
     forall ap b0 e0,
       as_p a = Some ap ->
       reg_beg (endWhileRegion v) 0 = Some b0 ->
       reg_end (endWhileRegion v) 0 = Some e0 ->
       applyEnd rc a st stackBase m v =
       Ok (Continue
             (popStack
                (with_line m1
                   (addScopeRange
                      (addScopeRange (ln m1) (innerScope ap) (innerSeq a)
                         (innerBegin a) (abs m1 b0))
                      (outerScope ap) (outerSeq a) (outerBegin a) (abs m1 e0)))
                (stackDepth m1 - 1),
              {| lv_offset := abs m1 e0; maxOffset := maxOffset v;
                 matchesWithoutProgress := matchesWithoutProgress v;
                 endWhileRegion := endWhileRegion v |}))).
Proof.
  intros Hep Hrc. unfold applyEnd. rewrite Hep. cbn [deref mbind result_bind].
  rewrite Hrc. cbn [mbind result_bind]. split.
  - intros Hle. destruct (stackDepth m1 <=? stackBase)%nat eqn:Hd; [reflexivity|].
    apply Nat.leb_gt in Hd. lia.
  - intros Hlt ap b0 e0 Hap Hb0 He0.
    destruct (stackDepth m1 <=? stackBase)%nat eqn:Hd.
    { apply Nat.leb_le in Hd. lia. }
    rewrite Hap, Hb0, He0. reflexivity.
Qed.

(** What [applyRule] does for a MATCH rule once its captures are rendered. *)
Lemma applyRule_match {E : Onig} (states : list (state (OnigRegex E)))
    (rc : machine (OnigRegex E) -> pattern (OnigRegex E) -> regionRef -> result (machine (OnigRegex E)))
    sid st res m v q m1 region e0 :
  patterns st !! Z.to_nat res = Some q ->
  pis_type q = MATCH ->
  rc m (pis_p q) (RegsetRegion sid (Z.to_nat res)) = Ok m1 ->
  readRegion m1 (RegsetRegion sid (Z.to_nat res)) = Ok region ->
  reg_end region 0 = Some e0 ->
  applyRule states rc sid st res m v =
  Ok (Continue
        (m1,
         if abs m1 e0 >? maxOffset v then
           {| lv_offset := abs m1 e0; maxOffset := abs m1 e0;
              matchesWithoutProgress := 0; endWhileRegion := endWhileRegion v |}
         else
           {| lv_offset := abs m1 e0; maxOffset := maxOffset v;
              matchesWithoutProgress := matchesWithoutProgress v + 1;
              endWhileRegion := endWhileRegion v |})).
Proof.
  intros Hq Hty Hrc Hreg He0. unfold applyRule.
  rewrite Hq. cbn [deref mbind result_bind]. rewrite Hrc. cbn [mbind result_bind].
  rewrite Hty. cbn [mbind result_bind]. rewrite Hreg. cbn [mbind result_bind].
  rewrite He0. reflexivity.
Qed.

(** *** The outcome of an iteration of the dispatch loop *)

Section Outcomes.

Context {E : Onig} (states : list (state (OnigRegex E))).
Context (rc : machine (OnigRegex E) -> pattern (OnigRegex E) -> regionRef ->
              result (machine (OnigRegex E))).
Implicit Types m : machine (OnigRegex E).

(** What [applyRule] does for a BEGIN rule once its captures are rendered:
    on a full stack the loop is left; otherwise the frame is pushed. *)
Lemma applyRule_begin_full sid st res m v q m1 :
  patterns st !! Z.to_nat res = Some q ->
  pis_type q = BEGIN ->
  rc m (pis_p q) (RegsetRegion sid (Z.to_nat res)) = Ok m1 ->
  stackDepth m1 = stackSize ->
  applyRule states rc sid st res m v = Ok (Break m1).
Proof.
  intros Hq Hty Hrc Hfull. unfold applyRule.
  rewrite Hq. cbn [deref mbind result_bind]. rewrite Hrc. cbn [mbind result_bind].
  rewrite Hty, Hfull, Nat.eqb_refl. reflexivity.
Qed.

Lemma applyRule_begin_push sid st res m v q m1 to tost region b0 e0 :
  patterns st !! Z.to_nat res = Some q ->
  pis_type q = BEGIN ->
  rc m (pis_p q) (RegsetRegion sid (Z.to_nat res)) = Ok m1 ->
  stackDepth m1 <> stackSize ->
  pis_to q = Some to ->
  states !! to = Some tost ->
  readRegion m1 (RegsetRegion sid (Z.to_nat res)) = Ok region ->
  reg_beg region 0 = Some b0 ->
  reg_end region 0 = Some e0 ->
  applyRule states rc sid st res m v =
    Ok (Continue
          (with_seq (pushStack m1 (pushedFrame q to tost m1 region b0 e0))
             (size_t_ (seq (rd m1) + 2)),
           advance v (abs m1 e0))).
Proof.
  intros Hq Hty Hrc Hroom Hto Htost Hregion Hb0 He0. unfold applyRule.
  rewrite Hq. cbn [deref mbind result_bind]. rewrite Hrc. cbn [mbind result_bind].
  rewrite Hty.
  assert (Hfull : (stackDepth m1 =? stackSize)%nat = false)
    by (by apply Nat.eqb_neq).
  rewrite Hfull, Hto. cbn [deref mbind result_bind].
  rewrite Htost. cbn [deref mbind result_bind].
  rewrite Hregion. cbn [mbind result_bind].
  rewrite Hb0, He0. cbn [deref mbind result_bind].
  change (readRegion (with_seq (pushStack m1 _) _) ?ref) with (readRegion m1 ref).
  rewrite Hregion. cbn [mbind result_bind]. rewrite He0.
  cbn [deref mbind result_bind]. reflexivity.
Qed.

End Outcomes.

(** C1, as amended: in an iteration of the dispatch loop whose regset search
    succeeds, the regular rule is applied exactly when the end search failed,
    or the regular match starts before the end match, or
    [applyEndPatternLast] is set and both start at the same offset.  Applied,
    a MATCH rule leaves the stack as it is and the loop continues after the
    match; a BEGIN rule pushes its frame, or leaves the loop if the stack is
    full.  Otherwise the end search succeeded and the captures of the end
    pattern are rendered; then, if the stack is deeper than [stackBase], the
    inner range of the top frame is added up to the start of the end match
    and its outer range up to the end of the end match, the frame is popped
    and the loop continues after the end match, the count of matches without
    progress as it was; and if it is not deeper, the loop is left with no
    frame popped. *)
Theorem C1_dispatch_choice {E : Onig} (states : list (state (OnigRegex E))) rc end_ stackBase
    m v a sid st endres res matchpos ewr m' v' :
  searches states end_ m v a sid st endres res matchpos ewr m' v' ->
  0 <= res ->
  (regularPreferred st endres matchpos ewr ->
     dispatch states rc end_ stackBase (m, v) = applyRule states rc sid st res m' v' /\
     forall q m1 region b0 e0,
       patterns st !! Z.to_nat res = Some q ->
       rc m' (pis_p q) (RegsetRegion sid (Z.to_nat res)) = Ok m1 ->
       readRegion m1 (RegsetRegion sid (Z.to_nat res)) = Ok region ->
       reg_beg region 0 = Some b0 ->
       reg_end region 0 = Some e0 ->
       (pis_type q = MATCH ->
          dispatch states rc end_ stackBase (m, v) =
          Ok (Continue (m1, advance v' (abs m1 e0)))) /\
       (pis_type q = BEGIN -> stackDepth m1 = stackSize ->
          dispatch states rc end_ stackBase (m, v) = Ok (Break m1)) /\
       (pis_type q = BEGIN -> stackDepth m1 <> stackSize ->
          forall to tost,
            pis_to q = Some to -> states !! to = Some tost ->
            dispatch states rc end_ stackBase (m, v) =
            Ok (Continue
                  (with_seq (pushStack m1 (pushedFrame q to tost m1 region b0 e0))
                     (size_t_ (seq (rd m1) + 2)),
                   advance v' (abs m1 e0))))) /\
  (~ regularPreferred st endres matchpos ewr ->
     0 <= endres /\
     forall b0, reg_beg ewr 0 = Some b0 ->
       dispatch states rc end_ stackBase (m, v) = applyEnd rc a st stackBase m' v' /\
       forall ep m1,
         endPattern st = Some ep ->
         rc m' ep (LocalRegion ewr) = Ok m1 ->
         ((stackDepth m1 <= stackBase)%nat ->
            dispatch states rc end_ stackBase (m, v) = Ok (Break m1)) /\
         ((stackBase < stackDepth m1)%nat ->
            forall ap e0, as_p a = Some ap -> reg_end ewr 0 = Some e0 ->
              dispatch states rc end_ stackBase (m, v) =
              Ok (Continue
                    (popStack
                       (with_line m1
                          (addScopeRange
                             (addScopeRange (ln m1) (innerScope ap) (innerSeq a)
                                (innerBegin a) (abs m1 b0))
                             (outerScope ap) (outerSeq a) (outerBegin a)
                             (abs m1 e0)))
                       (stackDepth m1 - 1),
                     {| lv_offset := abs m1 e0; maxOffset := maxOffset v;
                        matchesWithoutProgress := matchesWithoutProgress v;
                        endWhileRegion := ewr |})))).
Proof.
  intros Hs Hres. split.
  - intros Hpref.
    assert (Hd := dispatch_regular states rc end_ stackBase _ _ _ _ _ _ _ _ _ _ _
                    Hs Hres Hpref).
    split; [exact Hd|]. intros q m1 region b0 e0 Hq Hrc Hregion Hb0 He0.
    rewrite Hd. split; [|split].
    + intros Hty.
      exact (applyRule_match states rc sid st res m' v' q m1 region e0
               Hq Hty Hrc Hregion He0).
    + intros Hty Hfull.
      exact (applyRule_begin_full states rc sid st res m' v' q m1 Hq Hty Hrc Hfull).
    + intros Hty Hroom to tost Hto Htost.
      exact (applyRule_begin_push states rc sid st res m' v' q m1 to tost region
               b0 e0 Hq Hty Hrc Hroom Hto Htost Hregion Hb0 He0).
  - intros Hpref.
    assert (Hendres : 0 <= endres).
    { destruct (Z.lt_ge_cases endres 0); [|done]. exfalso. apply Hpref. now left. }
    split; [done|]. intros b0 Hb0.
    assert (Hd := dispatch_end states rc end_ stackBase _ _ _ _ _ _ _ _ _ _ _ b0
                    Hs Hres Hendres Hb0 Hpref).
    split; [done|]. intros ep m1 Hep Hrc.
    assert (Hv : v' = {| lv_offset := lv_offset v; maxOffset := maxOffset v;
                         matchesWithoutProgress := matchesWithoutProgress v;
                         endWhileRegion := ewr |}).
    { by destruct Hs as (_ & _ & _ & _ & ? & _ & -> & _). }
    assert (Hrc' : rc m' ep (LocalRegion (endWhileRegion v')) = Ok m1)
      by (by rewrite Hv).
    destruct (applyEnd_after_captures rc a st stackBase m' v' ep m1 Hep Hrc')
      as [Hbreak Hpop].
    rewrite Hd. split; [done|].
    intros Hlt ap e0 Hap He0.
    rewrite (Hpop Hlt ap b0 e0 Hap); [by rewrite Hv| by rewrite Hv..].
Qed.

Lemma C1_dispatch_choice_witness :
  exists m2,
    dispatch (Examples.tie false) (renderCaptures (Examples.tie false) 10) 2 1
      (fst (Situations.tieSecond false), snd (Situations.tieSecond false)) =
    Ok (Continue
          (m2, {| lv_offset := 2; maxOffset := 1; matchesWithoutProgress := 0;
                  endWhileRegion := [(1, 2)] |})) /\
    stackDepth m2 = 1%nat /\
    scopes (ln m2) =
      [ {| ty := SCOPE_BEGIN; name := 6; sc_offset := 1; startOffset := 1;
           endOffset := 2; sc_seq := 2 |};
        {| ty := SCOPE_END; name := 6; sc_offset := 2; startOffset := 1;
           endOffset := 2; sc_seq := 2 |};
        {| ty := SCOPE_BEGIN; name := 1; sc_offset := 0; startOffset := 0;
           endOffset := 2; sc_seq := 0 |};
        {| ty := SCOPE_END; name := 1; sc_offset := 2; startOffset := 0;
           endOffset := 2; sc_seq := 0 |} ].
Proof.
  edestruct (C1_dispatch_choice (Examples.tie false)
               (renderCaptures (Examples.tie false) 10) 2 1
               (fst (Situations.tieSecond false)) (snd (Situations.tieSecond false)))
    as [_ Hend].
  - unfold searches. repeat split; try reflexivity.
    eexists. repeat split; reflexivity.
  - done.
  - destruct Hend as [_ Hend].
    { intros [H | (b0 & Hb0 & [H | [H _]])]; [done | | done].
      vm_compute in Hb0. injection Hb0 as <-. done. }
    destruct (Hend 1 eq_refl) as [_ Hpop].
    edestruct Hpop as [_ Hc]; [reflexivity | reflexivity |].
    pose proof (Hc ltac:(vm_compute; lia) _ _ eq_refl eq_refl) as Heq.
    eexists. split.
    + etrans; [exact Heq|].
      refine (f_equal (fun v2 => Ok (Continue (_, v2))) _).
      vm_compute. reflexivity.
    + vm_compute. split; reflexivity.
Defined.

(** C1, as stated, fails: on the input [ab], in the start state with the rule
    [b] and the end pattern [a], the end pattern is applied in the first
    iteration (it matches first) and no frame is popped. *)
Lemma C1_counterexample :
  ~ C1_as_stated Examples.endAtBase (renderCaptures Examples.endAtBase 10) 2 1
      (fst (Examples.firstIteration (Lit.start Examples.endAtBase "ab")))
      (snd (Examples.firstIteration (Lit.start Examples.endAtBase "ab"))).
Proof.
  intros H. unfold C1_as_stated in H.
  edestruct H as [_ Hend].
  - unfold searches. repeat split; try reflexivity.
    eexists. repeat split; reflexivity.
  - done.
  - destruct Hend as [_ (m2 & v2 & Heq & _)].
    { intros [H' | (b0 & Hb0 & [H' | [H' _]])]; [done | | done].
      vm_compute in Hb0. injection Hb0 as <-. done. }
    apply (f_equal continuesAt) in Heq. vm_compute in Heq. discriminate Heq.
Qed.

(** C2, as amended: when the rule found by the regset search and the end
    pattern match at the same offset, the end pattern is applied if
    [applyEndPatternLast] is false (its captures are rendered and, above
    [stackBase], the frame is popped), and the rule is applied if
    [applyEndPatternLast] is true (for a MATCH rule the stack is left as it
    is and the loop continues). *)
Theorem C2_tie {E : Onig} (states : list (state (OnigRegex E))) rc end_ stackBase
    m v a sid st endres res matchpos ewr m' v' :
  searches states end_ m v a sid st endres res matchpos ewr m' v' ->
  0 <= res -> 0 <= endres ->
  reg_beg ewr 0 = Some matchpos ->
  (applyEndPatternLast st = false ->
     dispatch states rc end_ stackBase (m, v) = applyEnd rc a st stackBase m' v' /\
     forall ep m1 ap e0,
       endPattern st = Some ep ->
       rc m' ep (LocalRegion ewr) = Ok m1 ->
       (stackBase < stackDepth m1)%nat ->
       as_p a = Some ap -> reg_end ewr 0 = Some e0 ->
       exists l v2,
         dispatch states rc end_ stackBase (m, v) =
         Ok (Continue (popStack (with_line m1 l) (stackDepth m1 - 1), v2))) /\
  (applyEndPatternLast st = true ->
     dispatch states rc end_ stackBase (m, v) = applyRule states rc sid st res m' v' /\
     forall q m1 region e0,
       patterns st !! Z.to_nat res = Some q ->
       pis_type q = MATCH ->
       rc m' (pis_p q) (RegsetRegion sid (Z.to_nat res)) = Ok m1 ->
       readRegion m1 (RegsetRegion sid (Z.to_nat res)) = Ok region ->
       reg_end region 0 = Some e0 ->
       exists v2, dispatch states rc end_ stackBase (m, v) = Ok (Continue (m1, v2))).
Proof.
  intros Hs Hres Hendres Htie. split.
  - intros Hlast.
    assert (Hpref : ~ regularPreferred st endres matchpos ewr).
    { intros [H | (b0 & Hb0 & [H | [H _]])]; [lia | | congruence].
      rewrite Htie in Hb0. injection Hb0 as <-. lia. }
    assert (Hd := dispatch_end states rc end_ stackBase _ _ _ _ _ _ _ _ _ _ _ _
                    Hs Hres Hendres Htie Hpref).
    split; [done|]. intros ep m1 ap e0 Hep Hrc Hlt Hap He0.
    assert (Hv : endWhileRegion v' = ewr).
    { destruct Hs as (_ & _ & _ & _ & ? & _ & -> & _). reflexivity. }
    rewrite <- Hv in Hrc, Htie, He0.
    destruct (applyEnd_after_captures rc a st stackBase m' v' ep m1 Hep Hrc)
      as [_ Hpop].
    rewrite Hd, (Hpop Hlt ap matchpos e0 Hap Htie He0). eauto.
  - intros Hlast.
    assert (Hpref : regularPreferred st endres matchpos ewr).
    { right. exists matchpos. split; [done|]. right. done. }
    assert (Hd := dispatch_regular states rc end_ stackBase _ _ _ _ _ _ _ _ _ _ _
                    Hs Hres Hpref).
    split; [done|]. intros q m1 region e0 Hq Hty Hrc Hreg He0.
    rewrite Hd, (applyRule_match states rc sid st res m' v' q m1 region e0
                   Hq Hty Hrc Hreg He0). eauto.
Qed.

Lemma C2_tie_witness :
  exists l v2 m1,
    dispatch (Examples.tie false) (renderCaptures (Examples.tie false) 10) 2 1
      (fst (Situations.tieSecond false), snd (Situations.tieSecond false)) =
    Ok (Continue (popStack (with_line m1 l) (stackDepth m1 - 1), v2)).
Proof.
  edestruct (C2_tie (Examples.tie false)
               (renderCaptures (Examples.tie false) 10) 2 1
               (fst (Situations.tieSecond false)) (snd (Situations.tieSecond false)))
    as [Hend _].
  - unfold searches. repeat split; try reflexivity.
    eexists. repeat split; reflexivity.
  - done.
  - done.
  - reflexivity.
  - destruct (Hend eq_refl) as [_ Hpop].
    edestruct Hpop as (l & v2 & Heq);
      [reflexivity | reflexivity | vm_compute; lia | reflexivity | reflexivity |].
    exists l, v2. eexists. exact Heq.
Defined.

(** C2, as stated, fails: with [applyEndPatternLast] false, on the input [ax]
    the end pattern [x] is applied at offset 1 and the frame is popped, where
    the rule [x] would have left the frame on the stack. *)
Lemma C2_counterexample :
  ~ C2_as_stated (Examples.tie false) (renderCaptures (Examples.tie false) 10) 2 1
      (fst (Situations.tieSecond false)) (snd (Situations.tieSecond false)).
Proof.
  intros H. unfold C2_as_stated in H.
  edestruct H as [Hrule _].
  - unfold searches. repeat split; try reflexivity.
    eexists. repeat split; reflexivity.
  - done.
  - done.
  - reflexivity.
  - reflexivity.
  - reflexivity.
  - specialize (Hrule eq_refl). apply (f_equal continuesAt) in Hrule.
    vm_compute in Hrule. discriminate Hrule.
Qed.

(** *** Loops and results *)

Lemma loop_ok_ind {S R : Type} (body : S -> result (step S R))
    (I : S -> Prop) (Q : R -> Prop) :
  (forall s s', I s -> body s = Ok (Continue s') -> I s') ->
  (forall s r, I s -> body s = Ok (Break r) -> Q r) ->
  forall fuel s r, I s -> loop fuel body s = Ok r -> Q r.
Proof.
  intros Hc Hb. induction fuel as [|fuel IH]; intros s r Hs H; [discriminate|].
  cbn [loop] in H. destruct (body s) as [[s'|r']| |] eqn:Hbody;
    cbn [mbind result_bind] in H; try discriminate.
  - exact (IH s' r (Hc s s' Hs Hbody) H).
  - injection H as <-. exact (Hb s r' Hs Hbody).
Qed.

(** Case analysis along a computation that returned [Ok]: every bind and
    every test on its way is split, with an equation for what was bound. *)
Ltac ok_inv H :=
  unfold deref in H;
  lazymatch type of H with
  | mbind _ ?e = _ =>
      let E := fresh "E" in
      destruct e eqn:E; cbn [mbind result_bind] in H;
      [ ok_inv E; ok_inv H | discriminate H | discriminate H ]
  | (match ?x with _ => _ end) = _ =>
      let E := fresh "E" in
      destruct x eqn:E; try discriminate H; ok_inv H
  | _ => idtac
  end.

(** *** What a run does to the line *)

Lemma lineSteps_trans (l1 l2 l3 : line) :
  lineSteps l1 l2 -> lineSteps l2 l3 -> lineSteps l1 l3.
Proof. intros H12 H23. induction H23 as [|l' name seq b e _ IH]; [done|]. now constructor. Qed.

Section LineRel.

Context {regex : Type}.
Implicit Types m : machine regex.

Lemma lineRel_refl m : lineRel m m.
Proof. repeat split. constructor. Qed.

Lemma lineRel_trans m1 m2 m3 : lineRel m1 m2 -> lineRel m2 m3 -> lineRel m1 m3.
Proof.
  intros (H1 & H2 & H3) (H4 & H5 & H6). repeat split; [|congruence..].
  eapply lineSteps_trans; eauto.
Qed.

Lemma lineRel_same m m' :
  ln m' = ln m -> bytes (rd m') = bytes (rd m) -> offset (rd m') = offset (rd m) ->
  lineRel m m'.
Proof. intros H1 H2 H3. repeat split; [|done..]. rewrite H1. constructor. Qed.

Lemma lineRel_add m m' name seq begin end_ :
  lineRel m m' -> lineRel m (with_line m' (addScopeRange (ln m') name seq begin end_)).
Proof. intros (H1 & H2 & H3). repeat split; [|done..]. now constructor. Qed.

Lemma lineRel_with_line m m' l :
  lineRel m m' -> lineSteps (ln m') l -> lineRel m (with_line m' l).
Proof.
  intros (H1 & H2 & H3) H. repeat split; [|done..]. cbn [ln with_line].
  eapply lineSteps_trans; eauto.
Qed.

Lemma lineRel_with_stack m m' st : lineRel m m' -> lineRel m (with_stack m' st).
Proof. intros (H1 & H2 & H3). repeat split; done. Qed.

Lemma lineRel_with_seq m m' n : lineRel m m' -> lineRel m (with_seq m' n).
Proof. intros (H1 & H2 & H3). repeat split; done. Qed.

Lemma lineRel_with_regions m m' g : lineRel m m' -> lineRel m (with_regions m' g).
Proof. intros (H1 & H2 & H3). repeat split; done. Qed.

Lemma lineRel_addOpenScopes m m' stackBase end_ :
  lineRel m m' -> lineRel m (with_line m' (addOpenScopes m' stackBase end_)).
Proof.
  intros (H1 & H2 & H3). repeat split; [|done..]. cbn [ln with_line].
  unfold addOpenScopes. generalize (drop stackBase (stack (rd m'))) as fs.
  generalize dependent (ln m'). intros l H1 fs. revert l H1.
  induction fs as [|a fs IH]; intros l H1; [done|].
  cbn [foldl]. apply IH. destruct (as_p a); [|done]. now do 2 constructor.
Qed.

Lemma lineRel_setFrame m m' i a : lineRel m m' -> lineRel m (setFrame m' i a).
Proof. apply lineRel_with_stack. Qed.

Lemma lineRel_popStack m m' depth : lineRel m m' -> lineRel m (popStack m' depth).
Proof. apply lineRel_with_stack. Qed.

Lemma lineRel_pushStack m m' a : lineRel m m' -> lineRel m (pushStack m' a).
Proof. apply lineRel_with_stack. Qed.

End LineRel.

(** The goals [lineRel m0 m'] that arise along a run. *)
Ltac line_rel :=
  lazymatch goal with
  | H : lineRel ?m0 ?m |- lineRel ?m0 ?m => exact H
  | |- lineRel ?m ?m => apply lineRel_refl
  | |- lineRel _ (with_stack _ _) => apply lineRel_with_stack; line_rel
  | |- lineRel _ (setFrame _ _ _) => apply lineRel_setFrame; line_rel
  | |- lineRel _ (popStack _ _) => apply lineRel_popStack; line_rel
  | |- lineRel _ (pushStack _ _) => apply lineRel_pushStack; line_rel
  | |- lineRel _ (with_seq _ _) => apply lineRel_with_seq; line_rel
  | |- lineRel _ (with_regions _ _) => apply lineRel_with_regions; line_rel
  | |- lineRel _ (with_line _ (addOpenScopes _ _ _)) =>
      apply lineRel_addOpenScopes; line_rel
  | |- lineRel _ (with_line _ _) =>
      apply lineRel_with_line; [line_rel | repeat constructor]
  | H : lineRel ?a ?b |- lineRel _ ?b =>
      apply (lineRel_trans _ a); [line_rel | exact H]
  end.

Section LineRelRun.

Context {E : Onig} (states : list (state (OnigRegex E))).
Implicit Types m : machine (OnigRegex E).

Lemma renderCapture_lineRel rl p ref :
  (forall m begin end_ stackBase m',
     rl m begin end_ stackBase = Ok m' -> lineRel m m') ->
  forall m0 s x,
    lineRel m0 (fst s) ->
    renderCapture (E:=E) rl p ref s = Ok x ->
    match x with
    | Continue s' => lineRel m0 (fst s')
    | Break m' => lineRel m0 m'
    end.
Proof.
  intros Hrl m0 [m i] x Hm H. cbn [fst] in Hm. unfold renderCapture in H.
  ok_inv H; simplify_eq; cbn [fst];
    try match goal with Hr : rl _ _ _ _ = Ok _ |- _ => apply Hrl in Hr end;
    line_rel.
Qed.

Lemma captures_lineRel rl p ref :
  (forall m begin end_ stackBase m',
     rl m begin end_ stackBase = Ok m' -> lineRel m m') ->
  forall fuel m i m',
    loop fuel (renderCapture (E:=E) rl p ref) (m, i) = Ok m' -> lineRel m m'.
Proof.
  intros Hrl fuel m i m' H.
  apply (loop_ok_ind (renderCapture rl p ref)
           (fun s => lineRel m (fst s)) (fun r => lineRel m r)) in H;
    [done | | | apply lineRel_refl].
  - intros s s' Hs Hb. exact (renderCapture_lineRel rl p ref Hrl m s _ Hs Hb).
  - intros s r Hs Hb. exact (renderCapture_lineRel rl p ref Hrl m s _ Hs Hb).
Qed.

Section Bodies.

Context (rc : machine (OnigRegex E) -> pattern (OnigRegex E) -> regionRef ->
              result (machine (OnigRegex E))).
Context (Hrc : forall m p ref m', rc m p ref = Ok m' -> lineRel m m').

Lemma whileAnchor_lineRel end_ m0 s x :
  lineRel m0 (fst (fst (fst s))) ->
  whileAnchor states rc end_ s = Ok x ->
  match x with
  | Continue s' => lineRel m0 (fst (fst (fst s')))
  | Break r => lineRel m0 (fst (fst r))
  end.
Proof.
  destruct s as [[[m i] offset] ewr]. cbn [fst]. intros Hm H.
  unfold whileAnchor in H.
  ok_inv H; simplify_eq; cbn [fst];
    try match goal with Hr : rc _ _ _ = Ok _ |- _ => apply Hrc in Hr end;
    line_rel.
Qed.

Lemma applyRule_lineRel sid st res m v m0 x :
  lineRel m0 m ->
  applyRule states rc sid st res m v = Ok x ->
  match x with
  | Continue s' => lineRel m0 (fst s')
  | Break r => lineRel m0 r
  end.
Proof.
  intros Hm H. unfold applyRule in H.
  ok_inv H; simplify_eq; cbn [fst];
    match goal with Hr : rc _ _ _ = Ok _ |- _ => apply Hrc in Hr end;
    line_rel.
Qed.

Lemma applyEnd_lineRel a st stackBase m v m0 x :
  lineRel m0 m ->
  applyEnd rc a st stackBase m v = Ok x ->
  match x with
  | Continue s' => lineRel m0 (fst s')
  | Break r => lineRel m0 r
  end.
Proof.
  intros Hm H. unfold applyEnd in H.
  ok_inv H; simplify_eq; cbn [fst];
    match goal with Hr : rc _ _ _ = Ok _ |- _ => apply Hrc in Hr end;
    line_rel.
Qed.

Lemma searchEnd_lineRel a st end_ opt m v m0 endres m' ewr :
  lineRel m0 m ->
  searchEnd a st end_ opt m v = Ok (endres, m', ewr) ->
  lineRel m0 m'.
Proof.
  intros Hm H. unfold searchEnd in H.
  ok_inv H; simplify_eq; line_rel.
Qed.

Lemma searchRegset_lineRel sid st end_ opt m v m0 res matchpos m' :
  lineRel m0 m ->
  searchRegset sid st end_ opt m v = (res, matchpos, m') ->
  lineRel m0 m'.
Proof.
  intros Hm H. unfold searchRegset in H.
  destruct (onig_regset_search _ _ _ _ _ _ _) as [[? ?] ?].
  simplify_eq. line_rel.
Qed.

Lemma dispatch_lineRel end_ stackBase m0 s x :
  lineRel m0 (fst s) ->
  dispatch states rc end_ stackBase s = Ok x ->
  match x with
  | Continue s' => lineRel m0 (fst s')
  | Break r => lineRel m0 r
  end.
Proof.
  destruct s as [m v]. cbn [fst]. intros Hm H. unfold dispatch in H.
  destruct (matchesWithoutProgress v <? 32); [|by simplify_eq].
  destruct (deref (last (stack (rd m)))) as [a| |] eqn:Ha;
    cbn [mbind result_bind] in H; try discriminate.
  destruct (as_s a) as [sid|]; [|by simplify_eq].
  destruct (deref (states !! sid)) as [st| |] eqn:Hst;
    cbn [mbind result_bind] in H; try discriminate.
  destruct (searchEnd _ _ _ _ _ _) as [[[endres m1] ewr]| |] eqn:Hend;
    cbn [mbind result_bind] in H; try discriminate.
  destruct (searchRegset _ _ _ _ _ _) as [[res matchpos] m2] eqn:Hset.
  apply (searchEnd_lineRel _ _ _ _ _ _ m0) in Hend; [|done].
  apply (searchRegset_lineRel _ _ _ _ _ _ m0) in Hset; [|done].
  destruct (regularRuleApplies _ _ _ _ _) as [[|]| |];
    cbn [mbind result_bind] in H; try discriminate.
  - eapply applyRule_lineRel; eauto.
  - destruct (0 <=? endres).
    + eapply applyEnd_lineRel; eauto.
    + by simplify_eq.
Qed.

Lemma renderLine_body_lineRel fuel m begin end_ stackBase m' :
  renderLine_body states rc fuel m begin end_ stackBase = Ok m' ->
  lineRel m m'.
Proof.
  unfold renderLine_body. intros H.
  destruct (begin =? end_); [simplify_eq; apply lineRel_refl|].
  destruct (loop fuel (whileAnchor states rc end_) _) as [[[m1 offset] ewr]| |] eqn:Hw;
    cbn [mbind result_bind] in H; try discriminate.
  destruct (loop fuel (dispatch states rc end_ stackBase) _) as [m2| |] eqn:Hd;
    cbn [mbind result_bind] in H; try discriminate.
  simplify_eq.
  apply (loop_ok_ind _ (fun s => lineRel m (fst (fst (fst s))))
           (fun r => lineRel m (fst (fst r)))) in Hw;
    [ | intros s s' Hs Hb; exact (whileAnchor_lineRel end_ m s _ Hs Hb)
      | intros s r Hs Hb; exact (whileAnchor_lineRel end_ m s _ Hs Hb)
      | apply lineRel_refl ].
  cbn [fst] in Hw.
  apply (loop_ok_ind _ (fun s => lineRel m (fst s)) (fun r => lineRel m r)) in Hd;
    [ | intros s s' Hs Hb; exact (dispatch_lineRel end_ stackBase m s _ Hs Hb)
      | intros s r Hs Hb; exact (dispatch_lineRel end_ stackBase m s _ Hs Hb)
      | done ].
  line_rel.
Qed.

End Bodies.

Lemma renderLine_lineRel fuel m begin end_ stackBase m' :
  renderLine states fuel m begin end_ stackBase = Ok m' -> lineRel m m'.
Proof.
  revert m begin end_ stackBase m'.
  induction fuel as [|fuel IH]; intros m begin end_ stackBase m' H; [discriminate|].
  cbn [renderLine] in H.
  eapply renderLine_body_lineRel; [|exact H].
  intros m1 p ref m2 Hc. eapply captures_lineRel; [|exact Hc]. exact IH.
Qed.

Lemma renderCaptures_lineRel fuel m p ref m' :
  renderCaptures states fuel m p ref = Ok m' -> lineRel m m'.
Proof.
  intros H. eapply captures_lineRel; [|exact H].
  intros ? ? ? ? ?. apply renderLine_lineRel.
Qed.

End LineRelRun.

(** *** The events a run adds to the line *)

Lemma addScopeRange_fields (l : line) (name seq begin end_ : Z) :
  line_begin (addScopeRange l name seq begin end_) = line_begin l /\
  line_end (addScopeRange l name seq begin end_) = line_end l /\
  endIncludingNewline (addScopeRange l name seq begin end_) = endIncludingNewline l.
Proof. unfold addScopeRange. destruct (_ || _); done. Qed.

Lemma addScopeRange_scopes (l : line) (name seq begin end_ : Z) :
  scopes (addScopeRange l name seq begin end_) = scopes l \/
  (name <> 0 /\
   sc_offset (beginEvent (line_begin l) name seq begin end_) <
     sc_offset (endEvent (line_end l) name seq begin end_) /\
   scopes (addScopeRange l name seq begin end_) =
     scopes l ++ [beginEvent (line_begin l) name seq begin end_;
                  endEvent (line_end l) name seq begin end_]).
Proof.
  unfold addScopeRange.
  destruct ((name =? 0) || _) eqn:Hdrop; [by left|]. right.
  apply orb_false_iff in Hdrop as [Hname Hlt].
  split; [lia|]. split; [cbn; lia|].
  cbn [scopes addScope]. rewrite <- (assoc_L (++)). reflexivity.
Qed.

Lemma lineSteps_paired (l l' : line) :
  lineSteps l l' ->
  line_begin l' = line_begin l /\ line_end l' = line_end l /\
  endIncludingNewline l' = endIncludingNewline l /\
  exists ps, scopes l' = scopes l ++ ps /\ paired (line_begin l) (line_end l) ps.
Proof.
  induction 1 as [|l' name seq begin end_ _ (Hb & He & Hi & ps & Hps & Hp)].
  - repeat split. exists []. split; [by rewrite app_nil_r|constructor].
  - destruct (addScopeRange_fields l' name seq begin end_) as (Hb' & He' & Hi').
    repeat split; [congruence..|].
    destruct (addScopeRange_scopes l' name seq begin end_)
      as [Hs | (Hname & Hlt & Hs)].
    + exists ps. split; [congruence|done].
    + eexists. split.
      * rewrite Hs, Hps, <- (assoc_L (++)). reflexivity.
      * rewrite Hb, He in *. now constructor.
Qed.

Lemma paired_empty_line (lb : Z) (ps : list scope) : paired lb lb ps -> ps = [].
Proof.
  induction 1 as [|ps name seq begin end_ _ _ _ Hlt]; [done|].
  exfalso. cbn in Hlt.
  destruct (begin <? lb) eqn:?, (end_ >? lb) eqn:?; lia.
Qed.

(** On an empty line no call of [addScopeRange] adds an event. *)
Lemma lineSteps_empty_line (l l' : line) :
  lineSteps l l' -> line_begin l = line_end l -> scopes l' = scopes l.
Proof.
  intros H Hempty. destruct (lineSteps_paired l l' H) as (_ & _ & _ & ps & -> & Hp).
  rewrite <- Hempty in Hp. rewrite (paired_empty_line _ _ Hp). apply app_nil_r.
Qed.

(** *** Counting events *)








(** *** Sorting *)


Lemma insertScope_Permutation (x : scope) (l : list scope) :
  insertScope x l ≡ₚ x :: l.
Proof.
  induction l as [|y l IH]; [done|]. cbn [insertScope].
  destruct (compareScopes x y <=? 0); [done|].
  rewrite IH. apply Permutation_swap.
Qed.

Lemma qsort_Permutation (l : list scope) : qsort l ≡ₚ l.
Proof.
  induction l as [|x l IH]; [done|]. cbn [qsort foldr].
  rewrite insertScope_Permutation. now constructor.
Qed.






(** *** What a run does to the stack *)

(** One step on the stack of a machine that is in range. *)
Ltac stack_step :=
  unfold keeps, inRange, stackDepth, setFrame, popStack, pushStack, with_stack,
    with_seq, with_line, with_regions, stackSize in *;
  cbn [rd ln regions stack bytes offset seq] in *;
  rewrite ?length_insert, ?length_app, ?length_take in *;
  cbn [length] in *.

Section StackRun.

Context {E : Onig} (states : list (state (OnigRegex E))).
Implicit Types m : machine (OnigRegex E).

Lemma keeps_refl stackBase m : inRange stackBase m -> keeps stackBase m m.
Proof. by split. Qed.

Lemma keeps_trans stackBase m1 m2 m3 :
  keeps stackBase m1 m2 -> keeps stackBase m2 m3 -> keeps stackBase m1 m3.
Proof. intros [H1 H2] [H3 H4]. split; [congruence|done]. Qed.

Lemma keeps_setFrame stackBase m0 m i a :
  keeps stackBase m0 m -> (stackBase - 1 <= i)%nat ->
  keeps stackBase m0 (setFrame m i a).
Proof.
  intros [H1 H2] Hi. stack_step. split; [|lia].
  rewrite take_insert_ge by lia. done.
Qed.

Lemma keeps_popStack stackBase m0 m depth :
  keeps stackBase m0 m -> (stackBase <= depth)%nat ->
  keeps stackBase m0 (popStack m depth).
Proof.
  intros [H1 H2] Hd. stack_step. split; [|lia].
  rewrite take_take. replace (_ `min` _)%nat with (stackBase - 1)%nat by lia. done.
Qed.

Lemma keeps_pushStack stackBase m0 m a :
  keeps stackBase m0 m -> (stackDepth m < stackSize)%nat ->
  keeps stackBase m0 (pushStack m a).
Proof.
  intros [H1 H2] Hd. stack_step. split; [|lia].
  rewrite take_app_le by lia. done.
Qed.

Lemma keeps_with_seq stackBase m0 m n :
  keeps stackBase m0 m -> keeps stackBase m0 (with_seq m n).
Proof. intros [H1 H2]. by split. Qed.

Lemma keeps_same stackBase m0 m m' :
  keeps stackBase m0 m -> stack (rd m') = stack (rd m) -> keeps stackBase m0 m'.
Proof. intros [H1 H2] Hs. unfold keeps, inRange, stackDepth in *. by rewrite Hs. Qed.

Lemma renderCapture_stack rl p ref :
  (forall m begin end_ stackBase m',
     inRange stackBase m -> rl m begin end_ stackBase = Ok m' ->
     keeps stackBase m m') ->
  forall s x,
    (stackDepth (fst s) <= stackSize)%nat ->
    renderCapture (E:=E) rl p ref s = Ok x ->
    match x with
    | Continue s' => stack (rd (fst s')) = stack (rd (fst s))
    | Break m' => stack (rd m') = stack (rd (fst s))
    end.
Proof.
  intros Hrl [m i] x Hm H. cbn [fst] in *. unfold renderCapture in H.
  ok_inv H; simplify_eq; cbn [fst]; try done.
  match goal with
  | Hf : (stackDepth _ =? stackSize)%nat = false |- _ => apply Nat.eqb_neq in Hf
  end.
  match goal with Hr : rl _ _ _ _ = Ok _ |- _ => apply Hrl in Hr as [Hr1 Hr2] end.
  - stack_step.
    replace (length (stack (rd m)) + 1 - 1)%nat with (length (stack (rd m))) in Hr1 by lia.
    rewrite Hr1, take_app_length. done.
  - stack_step. lia.
Qed.

Lemma captures_stack rl p ref :
  (forall m begin end_ stackBase m',
     inRange stackBase m -> rl m begin end_ stackBase = Ok m' ->
     keeps stackBase m m') ->
  forall fuel m i m',
    (stackDepth m <= stackSize)%nat ->
    loop fuel (renderCapture (E:=E) rl p ref) (m, i) = Ok m' ->
    stack (rd m') = stack (rd m).
Proof.
  intros Hrl fuel m i m' Hm H.
  apply (loop_ok_ind (renderCapture rl p ref)
           (fun s => stack (rd (fst s)) = stack (rd m))
           (fun r => stack (rd r) = stack (rd m))) in H; [done | | | done].
  - intros s s' Hs Hb.
    apply (renderCapture_stack rl p ref Hrl) in Hb; [congruence|].
    unfold stackDepth. by rewrite Hs.
  - intros s r Hs Hb.
    apply (renderCapture_stack rl p ref Hrl) in Hb; [congruence|].
    unfold stackDepth. by rewrite Hs.
Qed.


Lemma size_t_range (z : Z) : 0 <= size_t_ z < 2 ^ 64.
Proof. unfold size_t_. apply Z.mod_pos_bound. done. Qed.

Section Bodies.

Context (rc : machine (OnigRegex E) -> pattern (OnigRegex E) -> regionRef ->
              result (machine (OnigRegex E))).
Context (Hrc : forall m p ref m',
           (stackDepth m <= stackSize)%nat -> rc m p ref = Ok m' ->
           stack (rd m') = stack (rd m)).

Lemma whileAnchor_stack end_ stackBase m0 s x :
  keeps stackBase m0 (fst (fst (fst s))) ->
  (stackBase <= snd (fst (fst s)))%nat ->
  whileAnchor states rc end_ s = Ok x ->
  match x with
  | Continue s' =>
      keeps stackBase m0 (fst (fst (fst s'))) /\
      snd (fst (fst s')) = S (snd (fst (fst s))) /\
      (snd (fst (fst s)) < stackDepth (fst (fst (fst s))))%nat /\
      stackDepth (fst (fst (fst s'))) = stackDepth (fst (fst (fst s)))
  | Break r => keeps stackBase m0 (fst (fst r))
  end.
Proof.
  destruct s as [[[m i] offset] ewr]. cbn [fst snd]. intros Hm Hi H.
  unfold whileAnchor in H.
  destruct (i <? stackDepth m)%nat eqn:Hlt; [|by simplify_eq].
  apply Nat.ltb_lt in Hlt.
  ok_inv H; simplify_eq; cbn [fst snd].
  - apply keeps_popStack; [|lia]. apply keeps_setFrame; [done|lia].
  - assert (Hd : forall a', (stackDepth (setFrame m i a') <= stackSize)%nat).
    { intros a'. destruct Hm as [_ Hm]. stack_step. lia. }
    match goal with
    | Hr : rc _ _ _ = Ok _ |- _ => pose proof (Hrc _ _ _ _ (Hd _) Hr) as Hstack
    end.
    split; [|split; [done|split; [done|]]].
    + apply keeps_setFrame; [|lia]. eapply keeps_same; [|exact Hstack].
      apply keeps_setFrame; [done|lia].
    + unfold stackDepth, setFrame, with_stack in *. cbn [rd stack] in *.
      rewrite length_insert, Hstack, length_insert. done.
  - split; [done|]. split; [done|]. split; done.
Qed.

Lemma searchEnd_stack a st end_ opt m v endres m' ewr :
  searchEnd a st end_ opt m v = Ok (endres, m', ewr) ->
  stackDepth m' = stackDepth m /\
  forall stackBase m0, keeps stackBase m0 m -> keeps stackBase m0 m'.
Proof.
  intros H. unfold searchEnd in H. ok_inv H; simplify_eq; [|done].
  split.
  - stack_step. done.
  - intros stackBase m0 Hm. apply keeps_setFrame; [done|].
    destruct Hm as [_ Hm]. stack_step. lia.
Qed.

Lemma searchRegset_stack sid st end_ opt m v res matchpos m' :
  searchRegset sid st end_ opt m v = (res, matchpos, m') ->
  stack (rd m') = stack (rd m).
Proof.
  intros H. unfold searchRegset in H.
  destruct (onig_regset_search _ _ _ _ _ _ _) as [[? ?] ?]. by simplify_eq.
Qed.

Lemma applyRule_stack sid st res m v stackBase m0 x :
  keeps stackBase m0 m ->
  matchesWithoutProgress v < 32 ->
  applyRule states rc sid st res m v = Ok x ->
  match x with
  | Continue s' =>
      keeps stackBase m0 (fst s') /\ dispatchMeasure s' < dispatchMeasure (m, v)
  | Break r => keeps stackBase m0 r
  end.
Proof.
  intros Hm Hmwp H. unfold applyRule in H.
  assert (Hd : (stackDepth m <= stackSize)%nat) by (destruct Hm as [_ Hm]; apply Hm).
  ok_inv H; simplify_eq; cbn [fst snd];
    match goal with
    | Hr : rc _ _ _ = Ok ?m1 |- _ =>
        pose proof (Hrc _ _ _ _ Hd Hr) as Hstack;
        assert (Hlen : stackDepth m1 = stackDepth m)
          by (unfold stackDepth; by rewrite Hstack);
        assert (Hk : keeps stackBase m0 m1) by (eapply keeps_same; [exact Hm|done])
    end;
    try match goal with
        | Hf : (stackDepth _ =? stackSize)%nat = false |- _ => apply Nat.eqb_neq in Hf
        end;
    try done.
  all: split;
    [ first [ done | apply keeps_with_seq, keeps_pushStack; [done|lia] ]
    | match goal with |- context [abs ?mm ?ee >? ?mo] =>
        pose proof (size_t_range (line_begin (ln mm) + ee)) as Hrange;
        fold (abs mm ee) in Hrange;
        destruct (abs mm ee >? mo) eqn:Hgt
      end;
      unfold dispatchMeasure; cbn [fst snd maxOffset matchesWithoutProgress];
      change (2 ^ 64) with 18446744073709551616 in *;
      destruct Hm as [_ Hm]; destruct Hk as [_ Hk];
      unfold inRange, stackSize in *;
      try (unfold stackDepth at 1; cbn [pushStack with_seq with_stack rd stack];
           rewrite length_app; cbn [length];
           fold (stackDepth a0));
      lia ].
Qed.

Lemma applyEnd_stack a st stackBase m v m0 x :
  keeps stackBase m0 m ->
  applyEnd rc a st stackBase m v = Ok x ->
  match x with
  | Continue s' =>
      keeps stackBase m0 (fst s') /\ dispatchMeasure s' < dispatchMeasure (m, v)
  | Break r => keeps stackBase m0 r
  end.
Proof.
  intros Hm H. unfold applyEnd in H.
  assert (Hd : (stackDepth m <= stackSize)%nat) by (destruct Hm as [_ Hm]; apply Hm).
  ok_inv H; simplify_eq; cbn [fst snd];
    match goal with
    | Hr : rc _ _ _ = Ok ?m1 |- _ =>
        pose proof (Hrc _ _ _ _ Hd Hr) as Hstack;
        assert (Hlen : stackDepth m1 = stackDepth m)
          by (unfold stackDepth; by rewrite Hstack);
        assert (Hk : keeps stackBase m0 m1) by (eapply keeps_same; [exact Hm|done])
    end;
    try done.
  match goal with
  | Hf : (stackDepth _ <=? stackBase)%nat = false |- _ => apply Nat.leb_gt in Hf
  end.
  split.
  - apply keeps_popStack; [|cbn; lia]. eapply keeps_same; [exact Hk|done].
  - unfold dispatchMeasure. cbn [fst snd maxOffset matchesWithoutProgress].
    unfold stackDepth at 1. cbn [popStack with_line with_stack rd stack].
    rewrite length_take. fold (stackDepth a1). lia.
Qed.

Lemma dispatch_stack end_ stackBase m0 s x :
  keeps stackBase m0 (fst s) ->
  dispatch states rc end_ stackBase s = Ok x ->
  match x with
  | Continue s' =>
      keeps stackBase m0 (fst s') /\ dispatchMeasure s' < dispatchMeasure s
  | Break r => keeps stackBase m0 r
  end.
Proof.
  destruct s as [m v]. cbn [fst]. intros Hm H. unfold dispatch in H.
  destruct (matchesWithoutProgress v <? 32) eqn:Hmwp; [|by simplify_eq].
  destruct (deref (last (stack (rd m)))) as [a| |] eqn:Ha;
    cbn [mbind result_bind] in H; try discriminate.
  destruct (as_s a) as [sid|]; [|by simplify_eq].
  destruct (deref (states !! sid)) as [st| |] eqn:Hst;
    cbn [mbind result_bind] in H; try discriminate.
  destruct (searchEnd _ _ _ _ _ _) as [[[endres m1] ewr]| |] eqn:Hend;
    cbn [mbind result_bind] in H; try discriminate.
  destruct (searchRegset _ _ _ _ _ _) as [[res matchpos] m2] eqn:Hset.
  apply searchEnd_stack in Hend as [Hlen1 Hk1].
  apply searchRegset_stack in Hset.
  assert (Hk2 : keeps stackBase m0 m2) by (eapply keeps_same; [exact (Hk1 _ _ Hm)|done]).
  assert (Hlen2 : stackDepth m2 = stackDepth m)
    by (unfold stackDepth in *; by rewrite Hset).
  assert (Hmeasure : forall s' : machine (OnigRegex E) * loopVars,
            dispatchMeasure s' <
              dispatchMeasure
                (m2, {| lv_offset := lv_offset v; maxOffset := maxOffset v;
                        matchesWithoutProgress := matchesWithoutProgress v;
                        endWhileRegion := ewr |}) ->
            dispatchMeasure s' < dispatchMeasure (m, v)).
  { intros s'. unfold dispatchMeasure. cbn [fst snd maxOffset matchesWithoutProgress].
    rewrite Hlen2. done. }
  destruct (regularRuleApplies _ _ _ _ _) as [[|]| |];
    cbn [mbind result_bind] in H; try discriminate.
  - eapply applyRule_stack in H; [|exact Hk2|cbn; lia].
    destruct x as [s'|r]; [|done]. destruct H as [H1 H2]. split; [done|auto].
  - destruct (0 <=? endres).
    + eapply applyEnd_stack in H; [|exact Hk2].
      destruct x as [s'|r]; [|done]. destruct H as [H1 H2]. split; [done|auto].
    + by simplify_eq.
Qed.

Lemma keeps_addOpenScopes stackBase m0 m (l : line) :
  keeps stackBase m0 m -> keeps stackBase m0 (with_line m l).
Proof. intros [H1 H2]. by split. Qed.

Lemma renderLine_body_stack fuel m begin end_ stackBase m' :
  inRange stackBase m ->
  renderLine_body states rc fuel m begin end_ stackBase = Ok m' ->
  keeps stackBase m m'.
Proof.
  unfold renderLine_body. intros Hm H.
  destruct (begin =? end_); [simplify_eq; by apply keeps_refl|].
  destruct (loop fuel (whileAnchor states rc end_) _) as [[[m1 offset] ewr]| |] eqn:Hw;
    cbn [mbind result_bind] in H; try discriminate.
  destruct (loop fuel (dispatch states rc end_ stackBase) _) as [m2| |] eqn:Hd;
    cbn [mbind result_bind] in H; try discriminate.
  simplify_eq.
  apply (loop_ok_ind _
           (fun s => keeps stackBase m (fst (fst (fst s))) /\
                     (stackBase <= snd (fst (fst s)))%nat)
           (fun r => keeps stackBase m (fst (fst r)))) in Hw.
  - cbn [fst] in Hw.
    apply (loop_ok_ind _ (fun s => keeps stackBase m (fst s))
             (fun r => keeps stackBase m r)) in Hd.
    + by apply keeps_addOpenScopes.
    + intros s s' Hs Hb. by apply (dispatch_stack end_ stackBase m s _ Hs) in Hb as [? _].
    + intros s r Hs Hb. exact (dispatch_stack end_ stackBase m s _ Hs Hb).
    + done.
  - intros s s' [Hs Hi] Hb.
    apply (whileAnchor_stack end_ stackBase m s _ Hs Hi) in Hb as (? & Hi' & _ & _).
    split; [done|lia].
  - intros s r [Hs Hi] Hb. exact (whileAnchor_stack end_ stackBase m s _ Hs Hi Hb).
  - cbn [fst snd]. split; [by apply keeps_refl|done].
Qed.

End Bodies.

(** [renderLine] leaves the frames under the frame below [stackBase] as they
    are and ends with at least [stackBase] frames; [renderCaptures] leaves
    the stack as it is. *)
Lemma renderLine_stack fuel m begin end_ stackBase m' :
  inRange stackBase m ->
  renderLine states fuel m begin end_ stackBase = Ok m' ->
  keeps stackBase m m'.
Proof.
  revert m begin end_ stackBase m'.
  induction fuel as [|fuel IH]; intros m begin end_ stackBase m' Hm H; [discriminate|].
  cbn [renderLine] in H.
  eapply renderLine_body_stack; [|exact Hm|exact H].
  intros m1 p ref m2 Hd Hc. eapply captures_stack; [|exact Hd|exact Hc]. exact IH.
Qed.

Lemma renderCaptures_stack fuel m p ref m' :
  (stackDepth m <= stackSize)%nat ->
  renderCaptures states fuel m p ref = Ok m' ->
  stack (rd m') = stack (rd m).
Proof.
  intros Hm H. eapply captures_stack; [|exact Hm|exact H].
  intros ? ? ? ? ?. apply renderLine_stack.
Qed.

End StackRun.

(** *** Fuel

    More fuel never changes a result that was reached. *)

Lemma refines_refl {A} (r : result A) : refines r r.
Proof. by intros _. Qed.

Lemma refines_bind {A B} (r r' : result A) (k k' : A -> result B) :
  refines r r' -> (forall a, refines (k a) (k' a)) ->
  refines (r ≫= k) (r' ≫= k').
Proof.
  intros Hr Hk H. destruct r as [a| |]; cbn in H; [|done|].
  - rewrite Hr by done. cbn. by apply Hk.
  - by rewrite Hr.
Qed.

Lemma loop_refines {S R} (body body' : S -> result (step S R)) n n' s :
  (forall s, refines (body s) (body' s)) -> (n <= n')%nat ->
  refines (loop n body s) (loop n' body' s).
Proof.
  intros Hb. revert n' s. induction n as [|n IH]; intros n' s Hn; [by intros H|].
  destruct n' as [|n']; [lia|]. cbn [loop].
  apply refines_bind; [apply Hb|].
  intros [s'|r]; [apply IH; lia|apply refines_refl].
Qed.

Lemma terminated_bind {A B} (r : result A) (k : A -> result B) :
  terminated r -> (forall a, r = Ok a -> terminated (k a)) -> terminated (r ≫= k).
Proof. intros Hr Hk. destruct r; cbn; [by apply Hk|done|done]. Qed.

Lemma terminated_deref {A} (o : option A) : terminated (deref o).
Proof. by destruct o. Qed.

Lemma terminated_refines {A} (r r' : result A) :
  refines r r' -> terminated r -> terminated r'.
Proof. intros H Hr. by rewrite H. Qed.

(** A loop whose steps each end with enough fuel, and decrease a measure,
    ends with enough fuel. *)
Lemma loop_fuel {S R} (body : nat -> S -> result (step S R)) (I : S -> Prop)
    (mu : S -> nat) :
  (forall n n' s, (n <= n')%nat -> refines (body n s) (body n' s)) ->
  (forall s, I s -> exists n, terminated (body n s)) ->
  (forall n s s', I s -> body n s = Ok (Continue s') -> I s' /\ (mu s' < mu s)%nat) ->
  forall s, I s -> exists n, terminated (loop n (body n) s).
Proof.
  intros Hmono Hfuel Hdec s. remember (mu s) as k eqn:Hk. revert s Hk.
  induction k as [k IH] using lt_wf_ind. intros s -> Hs.
  destruct (Hfuel s Hs) as [n0 Hn0].
  destruct (body n0 s) as [[s'|r]| |] eqn:Hb; [| | done |].
  - destruct (Hdec n0 s s' Hs Hb) as [Hs' Hlt].
    destruct (IH _ Hlt s' eq_refl Hs') as [n1 Hn1].
    exists (Datatypes.S (n0 `max` n1)). cbn [loop].
    rewrite (Hmono n0 (Datatypes.S (n0 `max` n1)) s) by (rewrite ?Hb; (lia || done)).
    rewrite Hb. cbn.
    eapply terminated_refines; [|exact Hn1].
    apply loop_refines; [|lia]. intros s0. apply Hmono. lia.
  - exists (Datatypes.S n0). cbn [loop].
    rewrite (Hmono n0 (Datatypes.S n0) s) by (rewrite ?Hb; (lia || done)).
    by rewrite Hb.
  - exists (Datatypes.S n0). cbn [loop].
    rewrite (Hmono n0 (Datatypes.S n0) s) by (rewrite ?Hb; (lia || done)).
    by rewrite Hb.
Qed.

(** Steps through the code of a body both sides of which differ in the
    functions called only. *)
Ltac refines_step :=
  repeat first
    [ apply refines_refl
    | match goal with H : context [refines] |- _ => apply H end
    | lazymatch goal with
      | |- refines (mbind _ _) _ => apply refines_bind; [|intros ?]
      | |- refines (match ?x with _ => _ end) _ => destruct x
      end ].

Section FuelRun.

Context {E : Onig} (states : list (state (OnigRegex E))).
Implicit Types m : machine (OnigRegex E).
Implicit Types p : pattern (OnigRegex E).

Lemma renderCapture_refines rl rl' p ref s :
  (forall m b e sb, refines (rl m b e sb) (rl' m b e sb)) ->
  refines (renderCapture (E:=E) rl p ref s) (renderCapture rl' p ref s).
Proof. intros H. unfold renderCapture. refines_step. Qed.

Section Bodies.

Context (rc rc' : machine (OnigRegex E) -> pattern (OnigRegex E) -> regionRef ->
                  result (machine (OnigRegex E))).
Context (Hrc : forall m p ref, refines (rc m p ref) (rc' m p ref)).

Lemma whileAnchor_refines end_ s :
  refines (whileAnchor states rc end_ s) (whileAnchor states rc' end_ s).
Proof. unfold whileAnchor. refines_step. Qed.

Lemma applyRule_refines sid st res m v :
  refines (applyRule states rc sid st res m v) (applyRule states rc' sid st res m v).
Proof. unfold applyRule. refines_step. Qed.

Lemma applyEnd_refines a st stackBase m v :
  refines (applyEnd rc a st stackBase m v) (applyEnd rc' a st stackBase m v).
Proof. unfold applyEnd. refines_step. Qed.

Lemma dispatch_refines end_ stackBase s :
  refines (dispatch states rc end_ stackBase s) (dispatch states rc' end_ stackBase s).
Proof.
  unfold dispatch. pose proof applyRule_refines. pose proof applyEnd_refines.
  clear Hrc. refines_step.
Qed.

Lemma renderLine_body_refines n n' m begin end_ stackBase :
  (n <= n')%nat ->
  refines (renderLine_body states rc n m begin end_ stackBase)
    (renderLine_body states rc' n' m begin end_ stackBase).
Proof.
  intros Hn. unfold renderLine_body.
  destruct (begin =? end_); [apply refines_refl|].
  apply refines_bind; [apply loop_refines; [apply whileAnchor_refines|done]|].
  intros [[m1 offset] ewr].
  apply refines_bind; [apply loop_refines; [apply dispatch_refines|done]|].
  intros m2. apply refines_refl.
Qed.

End Bodies.

Lemma renderLine_refines n n' m begin end_ stackBase :
  (n <= n')%nat ->
  refines (renderLine states n m begin end_ stackBase)
    (renderLine states n' m begin end_ stackBase).
Proof.
  revert n' m begin end_ stackBase.
  induction n as [|n IH]; intros n' m begin end_ stackBase Hn; [by intros H|].
  destruct n' as [|n']; [lia|]. cbn [renderLine].
  apply renderLine_body_refines; [|lia].
  intros m1 p ref. apply loop_refines; [|lia].
  intros s. apply renderCapture_refines. intros. apply IH. lia.
Qed.

Lemma renderCaptures_refines n n' m p ref :
  (n <= n')%nat ->
  refines (renderCaptures states n m p ref) (renderCaptures states n' m p ref).
Proof.
  intros Hn. unfold renderCaptures. apply loop_refines; [|done].
  intros s. apply renderCapture_refines. intros. by apply renderLine_refines.
Qed.

End FuelRun.

(** The parts of a body that call nothing end without fuel. *)
Lemma growSize_terminated n size reserved :
  1 <= size -> reserved < 2 ^ 64 -> 2 ^ 64 <= size * 2 ^ Z.of_nat n ->
  terminated (growSize n size reserved).
Proof.
  revert size. induction n as [|n IH]; intros size Hs Hr Hn; cbn [growSize].
  - destruct (reserved >? size) eqn:Hgt; [|done]. cbn in Hn. lia.
  - destruct (reserved >? size); [|done]. destruct (size >? SIZE_MAX / 2); [done|].
    apply IH; [lia|done|].
    rewrite Nat2Z.inj_succ, Z.pow_succ_r in Hn by lia. lia.
Qed.

Lemma growSize_ge n size reserved size' :
  0 <= size -> growSize n size reserved = Ok (Some size') -> size <= size'.
Proof.
  revert size. induction n as [|n IH]; intros size Hs H; cbn [growSize] in H.
  - destruct (reserved >? size); [|simplify_eq; lia].
    by destruct (size >? SIZE_MAX / 2).
  - destruct (reserved >? size); [|simplify_eq; lia].
    destruct (size >? SIZE_MAX / 2); [done|].
    apply IH in H; lia.
Qed.

Lemma expandFrom_terminated bytes beginOffset region plen rest i size replaced :
  1 <= size ->
  terminated (expandFrom bytes beginOffset region plen rest i size replaced).
Proof.
  remember (length rest) as k eqn:Hk. revert rest i size replaced Hk.
  induction k as [k IH] using lt_wf_ind. intros rest i size replaced -> Hsize.
  destruct rest as [|c [|d rest2]]; [done|done|]. cbn [expandFrom].
  destruct ((c =? ch_backslash) && isDigit d).
  - destruct (d - ch_0 >=? num_regs region); [done|].
    apply terminated_bind; [apply terminated_deref|]. intros [b e] _.
    destruct ((b <? 0) || (e <? b)); [done|].
    apply terminated_bind.
    { apply growSize_terminated; [done|apply Z.mod_pos_bound; lia|].
      change (2 ^ Z.of_nat 64) with (2 ^ 64). lia. }
    intros [size'|] Hgrow; [|done].
    apply growSize_ge in Hgrow; [|lia].
    apply terminated_bind.
    { unfold capturedBytes. by destruct (_ && _). }
    intros captured _. eapply IH; [|done|lia]. cbn [length]. lia.
  - refine (IH (length (d :: rest2)) _ (d :: rest2) (i + 1) size (replaced ++ [c])
              eq_refl Hsize).
    cbn [length]. lia.
Qed.

Lemma backreferencingSearch_terminated {E : Onig} r a cache p subject start range
    region opt :
  terminated (backreferencingSearch (E:=E) r a cache p subject start range region opt).
Proof.
  unfold backreferencingSearch.
  destruct (negb _); [by destruct (onig_search _ _ _ _ _ _ _)|].
  destruct cache; [by destruct (onig_search _ _ _ _ _ _ _)|].
  destruct (beginRegion a); [|done].
  destruct (len p >? SIZE_MAX / 2); [done|].
  apply terminated_bind.
  - unfold len. destruct (text p) as [[|c t]|]; [done| |done].
    apply expandFrom_terminated. cbn [length]. lia.
  - intros [replaced|] _; [|done].
    destruct (onig_new E replaced); [|done].
    by destruct (onig_search _ _ _ _ _ _ _).
Qed.

(** Steps through the code of a body that calls nothing. *)
Ltac settle :=
  repeat first
    [ done
    | apply terminated_deref
    | apply backreferencingSearch_terminated
    | lazymatch goal with
      | |- terminated (mbind _ _) => apply terminated_bind; [|intros ? ?]
      | |- terminated (match ?x with _ => _ end) => destruct x eqn:?
      end ].

(** Steps through the code of a body (called with [n] units of fuel) up to
    the call it makes. *)
Ltac fuel_split :=
  repeat first
    [ progress cbn [mbind result_bind]
    | match goal with
     | |- exists n : nat, terminated (Ok _) => by exists 0%nat
     | |- exists n : nat, terminated Undefined => by exists 0%nat
     | |- exists n : nat, terminated (match ?x with _ => _ end) => destruct x eqn:?
     | |- exists n : nat, terminated (mbind _ (match ?x with _ => _ end)) =>
         destruct x eqn:?
     | |- exists n : nat, terminated (mbind _ ?r) =>
         let Hr := fresh "Hr" in
         assert (Hr : terminated r) by settle;
         destruct r eqn:?; [ | done | by exists 0%nat ]
     | |- exists n : nat, terminated (mbind _ (mbind _ ?r)) =>
         let Hr := fresh "Hr" in
         assert (Hr : terminated r) by settle;
         destruct r eqn:?; [ | done | by exists 0%nat ]
     end ].

(** The call [f n a b c] left in the goal, with the fuel it needs. *)
Ltac fuel_call f H :=
  lazymatch goal with
  | |- exists n : nat, @?P n =>
      let t := eval cbv beta in (P 0%nat) in
      lazymatch t with
      | context [f 0%nat ?a ?b ?c ?d] =>
          let n := fresh "n" in
          let Hn := fresh "Hn" in
          destruct (H a b c) as [n Hn];
          [ .. | exists n; destruct (f n a b c d); [ | done | ]; cbn [mbind result_bind]; settle ]
      | context [f 0%nat ?a ?b ?c] =>
          let n := fresh "n" in
          let Hn := fresh "Hn" in
          destruct (H a b c) as [n Hn];
          [ .. | exists n; destruct (f n a b c); [ | done | ]; cbn [mbind result_bind]; settle ]
      end
  end.

Section FuelCalls.

Context {E : Onig} (states : list (state (OnigRegex E))).
Implicit Types m : machine (OnigRegex E).
Implicit Types p : pattern (OnigRegex E).

Lemma searchEnd_terminated a st end_ opt m v :
  terminated (searchEnd (E:=E) a st end_ opt m v).
Proof. unfold searchEnd. settle. Qed.

Lemma regularRuleApplies_terminated (st : state (OnigRegex E)) res endres matchpos ewr :
  terminated (regularRuleApplies st res endres matchpos ewr).
Proof. unfold regularRuleApplies. settle. Qed.

Lemma readRegion_terminated m ref : terminated (readRegion m ref).
Proof. unfold readRegion. settle. Qed.

Lemma renderCapture_fuel
    (rl : nat -> machine (OnigRegex E) -> Z -> Z -> nat -> result (machine (OnigRegex E)))
    p ref s :
  (forall m1 b e,
     stackDepth m1 = S (stackDepth (fst s)) -> stackDepth (fst s) <> stackSize ->
     exists n, terminated (rl n m1 b e (stackDepth m1))) ->
  exists n, terminated (renderCapture (E:=E) (rl n) p ref s).
Proof.
  destruct s as [m i]. cbn [fst]. intros H. unfold renderCapture.
  pose proof readRegion_terminated.
  fuel_split.
  fuel_call rl H.
  - stack_step. lia.
  - by apply Nat.eqb_neq.
Qed.

Section Bodies.

Context (rc : nat -> machine (OnigRegex E) -> pattern (OnigRegex E) -> regionRef ->
              result (machine (OnigRegex E))).

Lemma whileAnchor_fuel end_ s :
  (forall m' p ref,
     stackDepth m' = stackDepth (fst (fst (fst s))) ->
     exists n, terminated (rc n m' p ref)) ->
  exists n, terminated (whileAnchor states (rc n) end_ s).
Proof.
  destruct s as [[[m i] offset] ewr]. cbn [fst]. intros H. unfold whileAnchor.
  fuel_split.
  fuel_call rc H.
  stack_step. done.
Qed.

Lemma applyRule_fuel sid st res m v :
  (forall m' p ref, stackDepth m' = stackDepth m ->
     exists n, terminated (rc n m' p ref)) ->
  exists n, terminated (applyRule states (rc n) sid st res m v).
Proof.
  intros H. unfold applyRule. pose proof readRegion_terminated.
  fuel_split.
  fuel_call rc H; done.
Qed.

Lemma applyEnd_fuel a st stackBase m v :
  (forall m' p ref, stackDepth m' = stackDepth m ->
     exists n, terminated (rc n m' p ref)) ->
  exists n, terminated (applyEnd (rc n) a st stackBase m v).
Proof.
  intros H. unfold applyEnd.
  fuel_split.
  fuel_call rc H; done.
Qed.

Lemma dispatch_fuel end_ stackBase s :
  (forall m' p ref, stackDepth m' = stackDepth (fst s) ->
     exists n, terminated (rc n m' p ref)) ->
  exists n, terminated (dispatch states (rc n) end_ stackBase s).
Proof.
  destruct s as [m v]. cbn [fst]. intros H. unfold dispatch.
  destruct (matchesWithoutProgress v <? 32); [|by exists 0%nat].
  destruct (last (stack (rd m))) as [a|] eqn:Ha;
    cbn [deref mbind result_bind]; [|by exists 0%nat].
  destruct (as_s a) as [sid|]; [|by exists 0%nat].
  destruct (states !! sid) as [st|] eqn:Hst;
    cbn [deref mbind result_bind]; [|by exists 0%nat].
  pose proof (searchEnd_terminated a st end_
                (if lv_offset v >? innerBegin a
                 then ONIG_OPTION_NOT_BEGIN_POSITION else ONIG_OPTION_NONE) m v) as Hend.
  destruct (searchEnd _ _ _ _ _ _) as [[[endres m1] ewr]| |] eqn:Hse;
    cbn [mbind result_bind]; [|done|by exists 0%nat].
  destruct (searchRegset _ _ _ _ _ _) as [[res matchpos] m2] eqn:Hset.
  apply searchEnd_stack in Hse as [Hlen1 _].
  apply searchRegset_stack in Hset.
  assert (Hlen2 : stackDepth m2 = stackDepth m)
    by (unfold stackDepth in *; by rewrite Hset).
  pose proof (regularRuleApplies_terminated st res endres matchpos ewr) as Hreg.
  destruct (regularRuleApplies _ _ _ _ _) as [[|]| |];
    cbn [mbind result_bind]; [| |done|by exists 0%nat].
  - apply applyRule_fuel. intros m' p ref Hm'. apply H. congruence.
  - destruct (0 <=? endres); [|by exists 0%nat].
    apply applyEnd_fuel. intros m' p ref Hm'. apply H. congruence.
Qed.

End Bodies.

End FuelCalls.

(** *** Termination *)

Section Termination.

Context {E : Onig} (states : list (state (OnigRegex E))).
Implicit Types m : machine (OnigRegex E).
Implicit Types p : pattern (OnigRegex E).

Lemma renderCapture_index rl p ref m i m' i' :
  renderCapture (E:=E) rl p ref (m, i) = Ok (Continue (m', i')) ->
  i' = i + 1 /\ i < INT_MAX.
Proof.
  intros H. unfold renderCapture in H.
  destruct (readRegion m ref) as [region| |]; cbn [mbind result_bind] in H;
    try discriminate.
  destruct (i <? num_regs region); [|discriminate].
  destruct (deref (region !! Z.to_nat i)) as [[b e]| |]; cbn [mbind result_bind] in H;
    try discriminate.
  match type of H with mbind _ ?r = _ => destruct r end;
    cbn [mbind result_bind] in H; try discriminate.
  destruct (i <? INT_MAX) eqn:Hi; [|discriminate]. simplify_eq. lia.
Qed.

(** [renderCaptures] ends if the calls of [renderLine] it makes, one frame
    further up, do. *)
Lemma renderCaptures_fuel_of (k : nat) :
  (forall m b e sb, inRange sb m -> (stackSize - sb < k)%nat ->
     exists n, terminated (renderLine states n m b e sb)) ->
  forall m p ref,
    (stackDepth m <= stackSize)%nat -> (stackSize - stackDepth m <= k)%nat ->
    exists n, terminated (renderCaptures states n m p ref).
Proof.
  intros Hline m p ref Hm Hk. unfold renderCaptures.
  apply (loop_fuel (fun n => renderCapture (renderLine states n) p ref)
           (fun s => stack (rd (fst s)) = stack (rd m) /\ 0 <= snd s <= INT_MAX)
           (fun s => Z.to_nat (INT_MAX - snd s))).
  - intros n n' s Hn. apply renderCapture_refines. intros.
    by apply renderLine_refines.
  - intros [m1 i] [Hs Hi]. cbn [fst snd] in *.
    apply renderCapture_fuel. cbn [fst]. intros m2 b e Hm2 Hfull.
    assert (Hd : stackDepth m1 = stackDepth m) by (unfold stackDepth; by rewrite Hs).
    apply Hline; unfold inRange; lia.
  - intros n [m1 i] [m2 i'] [Hs Hi] Hb. cbn [fst snd] in *.
    pose proof (renderCapture_index _ _ _ _ _ _ _ Hb) as [-> Hlt].
    eapply renderCapture_stack in Hb.
    + cbn [fst] in Hb. split; [split; [congruence|lia]|lia].
    + intros ? ? ? ? ?. apply renderLine_stack.
    + cbn [fst]. unfold stackDepth. by rewrite Hs.
  - cbn [fst snd]. split; [done|]. unfold INT_MAX. lia.
Qed.

(** [renderLine] ends if the calls of [renderCaptures] it makes do. *)
Lemma renderLine_fuel_of (k : nat) :
  (forall m p ref,
     (stackDepth m <= stackSize)%nat -> (stackSize - stackDepth m <= k)%nat ->
     exists n, terminated (renderCaptures states n m p ref)) ->
  forall m begin end_ stackBase,
    inRange stackBase m -> (stackSize - stackBase <= k)%nat ->
    exists n, terminated (renderLine states n m begin end_ stackBase).
Proof.
  intros Hcaps m begin end_ stackBase Hm Hk.
  assert (Hcall : forall m1 m' p ref,
            keeps stackBase m m1 -> stackDepth m' = stackDepth m1 ->
            exists n, terminated (renderCaptures states n m' p ref)).
  { intros m1 m' p ref [_ H1] Heq. unfold inRange in H1. apply Hcaps; lia. }
  assert (Hstack : forall n m1 p ref m',
            (stackDepth m1 <= stackSize)%nat ->
            renderCaptures states n m1 p ref = Ok m' ->
            stack (rd m') = stack (rd m1)).
  { intros n. apply renderCaptures_stack. }
  destruct (begin =? end_) eqn:Hbe.
  { exists 1%nat. cbn [renderLine]. unfold renderLine_body. by rewrite Hbe. }
  destruct (loop_fuel
              (fun n => whileAnchor states (renderCaptures states n) end_)
              (fun s => keeps stackBase m (fst (fst (fst s))) /\
                        (stackBase <= snd (fst (fst s)))%nat)
              (fun s => (stackDepth (fst (fst (fst s))) - snd (fst (fst s)))%nat))
    with (s := (m, stackBase, begin, @nil (Z * Z))) as [n1 Hn1].
  { intros n n' s Hn. apply whileAnchor_refines. intros.
    by apply renderCaptures_refines. }
  { intros s [Hs Hi]. apply whileAnchor_fuel. intros m' p ref Hm'.
    by eapply Hcall. }
  { intros n s s' [Hs Hi] Hb.
    apply (whileAnchor_stack states _ (Hstack n) end_ stackBase m s _ Hs Hi) in Hb
      as (? & Hi' & ? & ?).
    split; [split; [done|lia]|lia]. }
  { cbn [fst snd]. split; [by apply keeps_refl|done]. }
  destruct (loop n1 (whileAnchor states (renderCaptures states n1) end_)
              (m, stackBase, begin, [])) as [[[m1 offset] ewr]| |] eqn:Hw; [|done|].
  2:{ exists (S n1). cbn [renderLine]. unfold renderLine_body. rewrite Hbe.
      fold (renderCaptures states n1). by rewrite Hw. }
  assert (Hm1 : keeps stackBase m m1).
  { apply (loop_ok_ind _
             (fun s => keeps stackBase m (fst (fst (fst s))) /\
                       (stackBase <= snd (fst (fst s)))%nat)
             (fun r => keeps stackBase m (fst (fst r)))) in Hw; [done| | |].
    - intros s s' [Hs Hi] Hb.
      apply (whileAnchor_stack states _ (Hstack n1) end_ stackBase m s _ Hs Hi) in Hb
        as (? & Hi' & _ & _).
      split; [done|lia].
    - intros s r [Hs Hi] Hb.
      exact (whileAnchor_stack states _ (Hstack n1) end_ stackBase m s _ Hs Hi Hb).
    - cbn [fst snd]. split; [by apply keeps_refl|done]. }
  destruct (loop_fuel
              (fun n => dispatch states (renderCaptures states n) end_ stackBase)
              (fun s => keeps stackBase m (fst s))
              (fun s => Z.to_nat (dispatchMeasure s)))
    with (s := (m1, {| lv_offset := offset; maxOffset := begin;
                       matchesWithoutProgress := 0; endWhileRegion := ewr |}))
    as [n2 Hn2].
  { intros n n' s Hn. apply dispatch_refines. intros.
    by apply renderCaptures_refines. }
  { intros s Hs. apply dispatch_fuel. intros m' p ref Hm'. by eapply Hcall. }
  { intros n s s' Hs Hb.
    apply (dispatch_stack states _ (Hstack n) end_ stackBase m s _ Hs) in Hb
      as [? Hlt].
    split; [done|]. unfold dispatchMeasure in *. lia. }
  { done. }
  exists (S (n1 `max` n2)). cbn [renderLine]. unfold renderLine_body. rewrite Hbe.
  fold (renderCaptures states (n1 `max` n2)).
  rewrite (loop_refines (whileAnchor states (renderCaptures states n1) end_)
             (whileAnchor states (renderCaptures states (n1 `max` n2)) end_)
             n1 (n1 `max` n2)); [| |lia|by rewrite Hw].
  2:{ intros s. apply whileAnchor_refines. intros. apply renderCaptures_refines. lia. }
  rewrite Hw. cbn [mbind result_bind].
  rewrite (loop_refines (dispatch states (renderCaptures states n2) end_ stackBase)
             (dispatch states (renderCaptures states (n1 `max` n2)) end_ stackBase)
             n2 (n1 `max` n2)); [| |lia|done].
  2:{ intros s. apply dispatch_refines. intros. apply renderCaptures_refines. lia. }
  destruct (loop n2 _ _); done.
Qed.

Lemma fuel_enough (k : nat) :
  (forall m p ref,
     (stackDepth m <= stackSize)%nat -> (stackSize - stackDepth m <= k)%nat ->
     exists n, terminated (renderCaptures states n m p ref)) /\
  (forall m begin end_ stackBase,
     inRange stackBase m -> (stackSize - stackBase <= k)%nat ->
     exists n, terminated (renderLine states n m begin end_ stackBase)).
Proof.
  induction k as [k IH] using lt_wf_ind.
  assert (Hcaps : forall m p ref,
            (stackDepth m <= stackSize)%nat -> (stackSize - stackDepth m <= k)%nat ->
            exists n, terminated (renderCaptures states n m p ref)).
  { apply renderCaptures_fuel_of. intros m b e sb Hm Hlt.
    by apply (IH _ Hlt). }
  split; [done|]. by apply renderLine_fuel_of.
Qed.

(** Rendering ends: from a stack in range, enough fuel gives a result. *)
Lemma renderLine_terminates m begin end_ stackBase :
  inRange stackBase m ->
  exists n, terminated (renderLine states n m begin end_ stackBase).
Proof. intros Hm. by apply (fuel_enough (stackSize - stackBase)). Qed.

Lemma renderCaptures_terminates m p ref :
  (stackDepth m <= stackSize)%nat ->
  exists n, terminated (renderCaptures states n m p ref).
Proof. intros Hm. by apply (fuel_enough (stackSize - stackDepth m)). Qed.

Lemma nextLine_stack m : stack (rd (nextLine m)) = stack (rd m).
Proof. unfold nextLine. by destruct (advanceToNextLine _ _). Qed.

Lemma renderNextLine_terminates m :
  inRange 1 m -> exists n, terminated (renderNextLine states n m).
Proof.
  intros Hm. unfold renderNextLine.
  destruct (offset (rd m) >=? _); [by exists 0%nat|].
  destruct (renderLine_terminates (nextLine m) (line_begin (ln (nextLine m)))
              (endIncludingNewline (ln (nextLine m))) 1) as [n Hn].
  { unfold inRange, stackDepth in *. by rewrite nextLine_stack. }
  exists n. by destruct (renderLine states n _ _ _ _).
Qed.

End Termination.

(** *** The captures on a full stack *)

Section FullStack.

Context {E : Onig}.
Context (rl : machine (OnigRegex E) -> Z -> Z -> nat -> result (machine (OnigRegex E))).
Implicit Types m : machine (OnigRegex E).
Implicit Types p : pattern (OnigRegex E).

Lemma emitCapture_same p m i be :
  stack (rd (emitCapture p m i be)) = stack (rd m) /\
  regions (emitCapture p m i be) = regions m /\
  bytes (rd (emitCapture p m i be)) = bytes (rd m) /\
  line_begin (ln (emitCapture p m i be)) = line_begin (ln m).
Proof.
  unfold emitCapture. destruct (captureScopes p !! i) as [sc|]; [|done].
  destruct (_ || _); [done|]. cbn.
  by destruct (addScopeRange_fields (ln m) sc (seq (rd m)) (abs m be.1) (abs m be.2))
    as (-> & _).
Qed.

Lemma emitCaptures_stack p m i groups :
  stack (rd (emitCaptures p m i groups)) = stack (rd m).
Proof.
  revert m i. induction groups as [|be groups IH]; intros m i; [done|].
  cbn [emitCaptures]. rewrite IH. apply emitCapture_same.
Qed.

(** On a full stack the loop of [renderCaptures] from group [i] on adds the
    ranges of the groups that are left, and calls nothing. *)
Lemma captures_full p ref region fuel m (i : nat) rest :
  stackDepth m = stackSize ->
  readRegion m ref = Ok region ->
  drop i region = rest ->
  (length region <= length (captureScopes p))%nat ->
  (length region <= length (captureStates p))%nat ->
  Z.of_nat (length region) <= INT_MAX ->
  (length rest < fuel)%nat ->
  loop fuel (renderCapture (E:=E) rl p ref) (m, Z.of_nat i) =
    Ok (emitCaptures p m i rest).
Proof.
  intros Hfull Hregion Hrest Hscopes Hstates Hmax.
  revert fuel m i Hfull Hregion Hrest.
  induction rest as [|be rest IH]; intros fuel m i Hfull Hregion Hrest Hfuel.
  - destruct fuel as [|fuel]; [cbn in Hfuel; lia|].
    cbn [loop renderCapture emitCaptures]. rewrite Hregion.
    cbn [mbind result_bind].
    assert (Hi : (length region <= i)%nat).
    { destruct (Nat.le_gt_cases (length region) i) as [|Hlt]; [done|].
      apply (f_equal length) in Hrest. rewrite length_drop in Hrest.
      cbn in Hrest. lia. }
    unfold num_regs. destruct (Z.ltb_spec (Z.of_nat i) (Z.of_nat (length region)));
      [lia|done].
  - destruct fuel as [|fuel]; [cbn in Hfuel; lia|].
    assert (Hlook : region !! i = Some be).
    { pose proof (lookup_drop region i 0) as Hd.
      rewrite Hrest, Nat.add_0_r in Hd. exact (eq_sym Hd). }
    assert (Hi : (i < length region)%nat) by (by eapply lookup_lt_Some).
    destruct (lookup_lt_is_Some_2 (captureScopes p) i ltac:(lia)) as [sc Hsc0].
    assert (Hsc : @lookup nat Z (list scopeName) _ i (captureScopes p) = Some sc)
      by exact Hsc0.
    destruct (lookup_lt_is_Some_2 (captureStates p) i ltac:(lia)) as [cs Hcs].
    cbn [loop renderCapture]. rewrite Hregion. cbn [mbind result_bind].
    unfold num_regs.
    destruct (Z.ltb_spec (Z.of_nat i) (Z.of_nat (length region))); [|lia].
    rewrite Nat2Z.id, Hlook. cbn [deref mbind result_bind].
    destruct be as [b e].
    assert (Hnext : (Z.of_nat i <? INT_MAX) = true) by (apply Z.ltb_lt; lia).
    assert (Hgo : forall m', stack (rd m') = stack (rd m) ->
                             regions m' = regions m ->
              loop fuel (renderCapture (E:=E) rl p ref) (m', Z.of_nat i + 1) =
                Ok (emitCaptures p m' (S i) rest)).
    { intros m' Hs Hr.
      replace (Z.of_nat i + 1) with (Z.of_nat (S i)) by lia.
      apply IH.
      + unfold stackDepth in *. by rewrite Hs.
      + destruct ref; [|done]. cbn [readRegion] in *. by rewrite Hr.
      + replace (S i) with (i + 1)%nat by lia.
        by rewrite <- drop_drop, Hrest.
      + cbn [length] in Hfuel. lia. }
    cbn [emitCaptures]. unfold emitCapture. cbn [fst snd].
    first [rewrite !Hsc | rewrite !Hsc0]. rewrite Hcs.
    cbn [deref mbind result_bind].
    destruct (b <? 0); cbn [orb mbind result_bind].
    { rewrite Hnext. by apply Hgo. }
    destruct (sc =? 0); cbn [negb mbind result_bind].
    + destruct cs as [sid|]; cbn [mbind result_bind].
      * rewrite Hfull, Nat.eqb_refl. cbn [mbind result_bind].
        rewrite Hnext. by apply Hgo.
      * rewrite Hnext. by apply Hgo.
    + rewrite Hnext. by apply Hgo.
Qed.

End FullStack.

(** *** The ranges of the frames still open *)

Lemma addScopeRange_events (l : line) (name seq begin end_ : Z) :
  scopes (addScopeRange l name seq begin end_) =
    scopes l ++ rangeEvents (line_begin l) (line_end l) name seq begin end_.
Proof.
  unfold addScopeRange, rangeEvents, beginEvent, endEvent. cbn [sc_offset].
  destruct ((name =? 0) || _); [by rewrite app_nil_r|].
  unfold addScope. cbn [scopes]. by rewrite <- app_assoc.
Qed.

Lemma openRanges_fold {regex : Type} (end_ : Z) (frames : list (activeState regex))
    (l : line) :
  let l' :=
    foldl
      (fun l a =>
         match as_p a with
         | None => l
         | Some p =>
             addScopeRange
               (addScopeRange l (outerScope p) (outerSeq a) (outerBegin a) end_)
               (innerScope p) (innerSeq a) (innerBegin a) end_
         end) l frames in
  scopes l' = scopes l ++ openRanges (line_begin l) (line_end l) end_ frames /\
  line_begin l' = line_begin l /\ line_end l' = line_end l.
Proof.
  revert l. induction frames as [|a frames IH]; intros l; cbn [foldl].
  { unfold openRanges. cbn. by rewrite app_nil_r. }
  destruct (IH (match as_p a with
                | None => l
                | Some p =>
                    addScopeRange
                      (addScopeRange l (outerScope p) (outerSeq a) (outerBegin a) end_)
                      (innerScope p) (innerSeq a) (innerBegin a) end_
                end)) as (Hs & Hb & He).
  cbn zeta. rewrite Hs, Hb, He. clear IH Hs Hb He.
  unfold openRanges. cbn [fmap list_fmap concat].
  destruct (as_p a) as [p|]; [|done].
  destruct (addScopeRange_fields l (outerScope p) (outerSeq a) (outerBegin a) end_)
    as (Hb1 & He1 & _).
  destruct (addScopeRange_fields
              (addScopeRange l (outerScope p) (outerSeq a) (outerBegin a) end_)
              (innerScope p) (innerSeq a) (innerBegin a) end_) as (Hb2 & He2 & _).
  rewrite Hb2, He2, Hb1, He1, !addScopeRange_events, Hb1, He1.
  by rewrite <- !app_assoc.
Qed.

(** The last loop of [renderLine] adds, for each frame from [stackBase] up
    that has a pattern, its outer and then its inner range, each up to
    [end_]. *)
Lemma addOpenScopes_scopes {regex : Type} (m : machine regex) (stackBase : nat)
    (end_ : Z) :
  scopes (addOpenScopes m stackBase end_) =
    scopes (ln m) ++
    openRanges (line_begin (ln m)) (line_end (ln m)) end_
      (drop stackBase (stack (rd m))).
Proof. unfold addOpenScopes. apply openRanges_fold. Qed.

(** *** Runs of a loop *)

Lemma loop_reaches {S R : Type} (body : S -> result (step S R)) (k : nat)
    (s s' : S) :
  reaches body k s s' -> forall n, loop (k + n) body s = loop n body s'.
Proof.
  unfold reaches. revert s. induction k as [|k IH]; intros s H n.
  { cbn [runs] in H. by injection H as ->. }
  cbn [runs] in H. cbn [Nat.add loop].
  destruct (body s) as [[s1|r]| |]; try discriminate.
  cbn [mbind result_bind]. by apply IH.
Qed.

Lemma searches_depth {E : Onig} (states : list (state (OnigRegex E))) end_
    m v a sid st endres res matchpos ewr m' v' :
  searches states end_ m v a sid st endres res matchpos ewr m' v' ->
  stackDepth m' = stackDepth m.
Proof.
  intros (_ & _ & _ & _ & m1 & Hend & _ & Hset).
  apply searchEnd_stack in Hend as [Hend _].
  apply searchRegset_stack in Hset.
  unfold stackDepth in *. by rewrite Hset.
Qed.

(** *** A BEGIN rule on a full stack *)

(** C6, as amended: when a BEGIN rule is the rule applied while the stack is
    full, the ranges of the groups of the begin match are added as on any
    other match (a group that has a state renders nothing, the stack being
    full), no frame is pushed, and the dispatch loop of the line is left at
    once: the rest of the line is not matched, and [renderLine] adds the
    ranges of the frames open before the match, and nothing else.  The
    vectors of the pattern have an entry for every group of the region, as
    [createPattern] allocates them, the groups are counted in an [int], and
    [n] is fuel enough for them. *)
Theorem C6_begin_on_full_stack {E : Onig} (states : list (state (OnigRegex E)))
    (n : nat) end_ stackBase m v a sid st endres res matchpos ewr m' v' q region :
  searches states end_ m v a sid st endres res matchpos ewr m' v' ->
  0 <= res ->
  regularPreferred st endres matchpos ewr ->
  patterns st !! Z.to_nat res = Some q ->
  pis_type q = BEGIN ->
  stackDepth m = stackSize ->
  readRegion m' (RegsetRegion sid (Z.to_nat res)) = Ok region ->
  (length region <= length (captureScopes (pis_p q)))%nat ->
  (length region <= length (captureStates (pis_p q)))%nat ->
  Z.of_nat (length region) <= INT_MAX ->
  (length region < n)%nat ->
  let rc := renderCaptures states n in
  let m1 := emitCaptures (pis_p q) m' 0 region in
  rc m' (pis_p q) (RegsetRegion sid (Z.to_nat res)) = Ok m1 /\
  stack (rd m1) = stack (rd m') /\
  dispatch states rc end_ stackBase (m, v) = Ok (Break m1) /\
  (forall fuel, loop (S fuel) (dispatch states rc end_ stackBase) (m, v) = Ok m1) /\
  (forall m0 begin k w,
     begin <> end_ ->
     loop n (whileAnchor states rc end_) (m0, stackBase, begin, []) = Ok w ->
     reaches (dispatch states rc end_ stackBase) k
       (fst (fst w),
        {| lv_offset := snd (fst w); maxOffset := begin;
           matchesWithoutProgress := 0; endWhileRegion := snd w |})
       (m, v) ->
     (k < n)%nat ->
     renderLine states (S n) m0 begin end_ stackBase =
       Ok (with_line m1 (addOpenScopes m1 stackBase end_))) /\
  scopes (addOpenScopes m1 stackBase end_) =
    scopes (ln m1) ++
    openRanges (line_begin (ln m')) (line_end (ln m')) end_
      (drop stackBase (stack (rd m'))).
Proof.
  intros Hs Hres Hpref Hq Hty Hfull Hregion Hscopes Hstates Hmax Hn rc m1.
  assert (Hfull' : stackDepth m' = stackSize)
    by (by rewrite (searches_depth _ _ _ _ _ _ _ _ _ _ _ _ _ Hs)).
  assert (Hrc : rc m' (pis_p q) (RegsetRegion sid (Z.to_nat res)) = Ok m1).
  { unfold rc, renderCaptures, m1.
    exact (captures_full (renderLine states n) (pis_p q) _ region n m' 0 region
             Hfull' Hregion eq_refl Hscopes Hstates Hmax Hn). }
  assert (Hstack : stack (rd m1) = stack (rd m'))
    by apply emitCaptures_stack.
  assert (Hd : dispatch states rc end_ stackBase (m, v) = Ok (Break m1)).
  { rewrite (dispatch_regular states rc end_ stackBase _ _ _ _ _ _ _ _ _ _ _
               Hs Hres Hpref).
    apply (applyRule_begin_full states rc sid st res m' v' q m1 Hq Hty Hrc).
    unfold stackDepth in *. by rewrite Hstack. }
  assert (Hloop : forall fuel,
            loop (S fuel) (dispatch states rc end_ stackBase) (m, v) = Ok m1).
  { intros fuel. cbn [loop]. by rewrite Hd. }
  split; [exact Hrc|]. split; [exact Hstack|]. split; [exact Hd|].
  split; [exact Hloop|]. split.
  - intros m0 begin k [[mw offset] ewr0] Hbegin Hw Hreach Hk.
    cbn [fst snd] in Hreach.
    change (renderLine states (S n) m0 begin end_ stackBase)
      with (renderLine_body states rc n m0 begin end_ stackBase).
    unfold renderLine_body.
    destruct (Z.eqb_spec begin end_) as [|_]; [done|].
    rewrite Hw. cbn [mbind result_bind].
    replace n with (k + S (n - S k))%nat at 1 by lia.
    rewrite (loop_reaches _ _ _ _ Hreach), Hloop. reflexivity.
  - rewrite addOpenScopes_scopes, Hstack.
    assert (Hline : forall groups i m2,
              line_begin (ln (emitCaptures (pis_p q) m2 i groups)) = line_begin (ln m2) /\
              line_end (ln (emitCaptures (pis_p q) m2 i groups)) = line_end (ln m2)).
    { induction groups as [|be groups IH]; intros i m2; [done|].
      cbn [emitCaptures]. destruct (IH (S i) (emitCapture (pis_p q) m2 i be)) as [-> ->].
      unfold emitCapture. destruct (captureScopes _ !! i) as [sc|]; [|done].
      destruct (_ || _); [done|]. cbn.
      by destruct (addScopeRange_fields (ln m2) sc (seq (rd m2)) (abs m2 be.1)
                     (abs m2 be.2)) as (-> & -> & _). }
    unfold m1. by destruct (Hline region 0%nat m') as [-> ->].
Qed.

Lemma C6_begin_on_full_stack_witness :
  exists m2,
    renderLine Overflow.nested 301 Overflow.entered 256 258 1 = Ok m2 /\
    stackDepth m2 = 256%nat /\
    scopes (ln m2) = Overflow.expected.
Proof.
  destruct (C6_begin_on_full_stack Overflow.nested 300 258 1
              (fst Overflow.first) (snd Overflow.first) Overflow.top 0%nat
              Overflow.root (-1) 0 0 [] Overflow.searched (snd Overflow.first)
              Overflow.rule [(0, 1)])
    as (_ & _ & _ & _ & Hline & _).
  - unfold searches. split; [vm_compute; reflexivity|].
    split; [vm_compute; reflexivity|]. split; [vm_compute; reflexivity|].
    split; [vm_compute; reflexivity|].
    exists (fst Overflow.first).
    split; [vm_compute; reflexivity|]. split; [vm_compute; reflexivity|].
    vm_compute; reflexivity.
  - done.
  - by left.
  - vm_compute; reflexivity.
  - reflexivity.
  - vm_compute; reflexivity.
  - vm_compute; reflexivity.
  - vm_compute; lia.
  - vm_compute; lia.
  - vm_compute; discriminate.
  - vm_compute; lia.
  - eexists. split; [|split].
    + apply (Hline Overflow.entered 256 0%nat (Overflow.entered, 256, [])).
      * done.
      * vm_compute; reflexivity.
      * vm_compute; reflexivity.
      * lia.
    + vm_compute; reflexivity.
    + vm_compute; reflexivity.
Defined.

(** On the second line of [deep] the rule [a] is applied to a full stack. *)
Lemma nest_beginOnFullStack :
  beginOnFullStack Examples.nest (renderCaptures Examples.nest 10) 258
    (fst Situations.fullStack) (snd Situations.fullStack) Situations.fullCaptured.
Proof.
  exists Situations.fullTop, 0%nat, Situations.fullRoot, (-1), 0, 0, [],
    Situations.fullSearched, (snd Situations.fullStack),
    {| pis_type := BEGIN; pis_p := Lit.pat "a" 5 0 0; pis_to := Some 0%nat |}.
  split.
  { unfold searches. split; [vm_compute; reflexivity|].
    split; [vm_compute; reflexivity|]. split; [vm_compute; reflexivity|].
    split; [vm_compute; reflexivity|].
    exists (fst Situations.fullStack).
    split; [vm_compute; reflexivity|]. split; [vm_compute; reflexivity|].
    vm_compute; reflexivity. }
  split; [done|]. split; [left; done|].
  split; [vm_compute; reflexivity|]. split; [reflexivity|].
  split; vm_compute; reflexivity.
Qed.

(** C6, as stated, fails: on the second line of [deep] (two bytes [a], the
    stack full) the rule [a] is applied at the first byte and the loop is
    left; it does not continue to the second byte. *)
Lemma C6_counterexample :
  ~ C6_as_stated Examples.nest (renderCaptures Examples.nest 10) 258 1
      (fst Situations.fullStack) (snd Situations.fullStack).
Proof.
  intros H. destruct (H _ nest_beginOnFullStack) as [v2 Heq].
  apply (f_equal continuesAt) in Heq. vm_compute in Heq. discriminate Heq.
Qed.

(** *** The iterations that continue *)

Section Stall.

Context {E : Onig} (states : list (state (OnigRegex E))).
Context (rc : machine (OnigRegex E) -> pattern (OnigRegex E) -> regionRef ->
              result (machine (OnigRegex E))).
Context (Hrc : forall m p ref m',
           (stackDepth m <= stackSize)%nat -> rc m p ref = Ok m' ->
           stack (rd m') = stack (rd m)).
Implicit Types m : machine (OnigRegex E).






End Stall.

(** *** The matches without progress *)




(** *** The events of a rendered line *)




(** *** An empty line *)

(** C7, as amended: from a stack in range [renderNextLine] ends, and a line
    of length 0 has no events at all: every range, those of the frames still
    open included, is empty once clamped to the line.  [renderLine] returns at
    once when there is nothing to scan ([begin == end]); the terminator of an
    empty line is scanned. *)
Theorem C7_empty_line {E : Onig} (states : list (state (OnigRegex E)))
    (m : machine (OnigRegex E)) :
  inRange 1 m -> emptyLineNext m ->
  (exists fuel, terminated (renderNextLine states fuel m)) /\
  (forall fuel m',
     renderNextLine states fuel m = Ok (true, m') -> scopes (ln m') = []) /\
  (forall fuel begin stackBase,
     renderLine states (S fuel) m begin begin stackBase = Ok m).
Proof.
  intros Hm Hempty. split; [by apply renderNextLine_terminates|]. split.
  - intros fuel m' H. unfold renderNextLine in H.
    destruct (offset (rd m) >=? _); [discriminate|].
    destruct (renderLine states fuel (nextLine m) _ _ 1) as [m1| |] eqn:Hline;
      cbn [mbind result_bind] in H; try discriminate.
    injection H as <-.
    apply renderLine_lineRel in Hline as [Hsteps _].
    apply lineSteps_empty_line in Hsteps; [|exact Hempty].
    assert (Hnil : scopes (ln (nextLine m)) = []).
    { unfold nextLine. by destruct (advanceToNextLine _ _). }
    cbn [sortLine with_line ln scopes]. rewrite Hsteps, Hnil. reflexivity.
  - intros fuel begin stackBase. cbn [renderLine]. unfold renderLine_body.
    by rewrite Z.eqb_refl.
Qed.

Lemma C7_empty_line_witness :
  inRange 1 (Lit.start Scenarios.atLineFeed Scenarios.lineFeed) /\
  emptyLineNext (Lit.start Scenarios.atLineFeed Scenarios.lineFeed) /\
  (exists fuel,
     terminated
       (renderNextLine Scenarios.atLineFeed fuel
          (Lit.start Scenarios.atLineFeed Scenarios.lineFeed))) /\
  (forall fuel m',
     renderNextLine Scenarios.atLineFeed fuel
       (Lit.start Scenarios.atLineFeed Scenarios.lineFeed) = Ok (true, m') ->
     scopes (ln m') = []) /\
  (forall fuel begin stackBase,
     renderLine Scenarios.atLineFeed (S fuel)
       (Lit.start Scenarios.atLineFeed Scenarios.lineFeed) begin begin stackBase =
     Ok (Lit.start Scenarios.atLineFeed Scenarios.lineFeed)).
Proof.
  assert (H : inRange 1 (Lit.start Scenarios.atLineFeed Scenarios.lineFeed))
    by (vm_compute; lia).
  assert (H' : emptyLineNext (Lit.start Scenarios.atLineFeed Scenarios.lineFeed))
    by (vm_compute; reflexivity).
  split; [exact H|]. split; [exact H'|].
  exact (C7_empty_line Scenarios.atLineFeed
           (Lit.start Scenarios.atLineFeed Scenarios.lineFeed) H H').
Defined.

(** C7, as stated, fails: on the input of one line feed the rule that
    matches a line feed is applied on the empty line, and pushes a frame. *)
Lemma C7_counterexample :
  ~ C7_as_stated Scenarios.atLineFeed 10
      (Lit.start Scenarios.atLineFeed Scenarios.lineFeed).
Proof.
  intros H. unfold C7_as_stated in H.
  destruct (H ltac:(vm_compute; reflexivity)
              (Examples.after Scenarios.atLineFeed 10 1
                 (Lit.start Scenarios.atLineFeed Scenarios.lineFeed)))
    as [_ Hstack].
  - vm_compute. reflexivity.
  - apply (f_equal length) in Hstack. vm_compute in Hstack. discriminate Hstack.
Qed.
(** *** Backreferencing while patterns *)

(** C4: a backreferencing while pattern of a frame that holds no begin
    region (and no regex made on an earlier line) is not expanded and not
    searched: [backreferencingSearch] returns -1 without a call of the
    engine, and the first loop of [renderLine] pops the frame.  A frame holds
    a begin region only if the end pattern of its state is backreferencing
    (see [applyRule]), so that a backreferencing while pattern alone never
    matches. *)
Theorem C4_while_pattern_without_begin_region {E : Onig}
    (states : list (state (OnigRegex E))) rc end_ m i offset ewr a sid st p :
  stack (rd m) !! i = Some a ->
  as_s a = Some sid ->
  states !! sid = Some st ->
  whilePattern st = Some p ->
  backreferencingPattern p = true ->
  whileRegex a = None ->
  beginRegion a = None ->
  (forall subject start range opt,
     backreferencingSearch (rd m) a None p subject start range ewr opt =
       Ok (-1, None, ewr)) /\
  whileAnchor states rc end_ (m, i, offset, ewr) =
    Ok (Break (popStack (setFrame m i (with_whileRegex a None)) i, offset, ewr)).
Proof.
  intros Ha Hs Hst Hp Hback Hcache Hregion.
  assert (Hsearch : forall subject start range opt,
            backreferencingSearch (rd m) a None p subject start range ewr opt =
              Ok (-1, None, ewr)).
  { intros. unfold backreferencingSearch. by rewrite Hback, Hregion. }
  split; [exact Hsearch|].
  unfold whileAnchor.
  assert (Hi : (i <? stackDepth m)%nat = true).
  { apply Nat.ltb_lt. unfold stackDepth. by eapply lookup_lt_Some. }
  rewrite Hi, Ha. cbn [deref mbind result_bind]. rewrite Hs.
  cbn [deref mbind result_bind]. rewrite Hst. cbn [deref mbind result_bind].
  rewrite Hp, Hcache, Hsearch. reflexivity.
Qed.

Lemma C4_while_pattern_without_begin_region_witness :
  stack (rd (Reentry.secondLine Backrefs.whileOnly)) !! 1%nat =
    Some (Reentry.pushed Backrefs.whileOnly) /\
  whileRegex (Reentry.pushed Backrefs.whileOnly) = None /\
  beginRegion (Reentry.pushed Backrefs.whileOnly) = None /\
  (forall subject start range opt,
     backreferencingSearch (rd (Reentry.secondLine Backrefs.whileOnly))
       (Reentry.pushed Backrefs.whileOnly) None (Backrefs.backref "\0" 7)
       subject start range [] opt = Ok (-1, None, [])) /\
  whileAnchor Backrefs.whileOnly (renderCaptures Backrefs.whileOnly 10) 6
    (Reentry.secondLine Backrefs.whileOnly, 1%nat, 3, []) =
    Ok (Break
          (popStack
             (setFrame (Reentry.secondLine Backrefs.whileOnly) 1
                (with_whileRegex (Reentry.pushed Backrefs.whileOnly) None)) 1,
           3, [])).
Proof.
  assert (Ha : stack (rd (Reentry.secondLine Backrefs.whileOnly)) !! 1%nat =
               Some (Reentry.pushed Backrefs.whileOnly))
    by (vm_compute; reflexivity).
  assert (Hcache : whileRegex (Reentry.pushed Backrefs.whileOnly) = None)
    by (vm_compute; reflexivity).
  assert (Hregion : beginRegion (Reentry.pushed Backrefs.whileOnly) = None)
    by (vm_compute; reflexivity).
  split; [exact Ha|]. split; [exact Hcache|]. split; [exact Hregion|].
  apply (C4_while_pattern_without_begin_region Backrefs.whileOnly
           (renderCaptures Backrefs.whileOnly 10) 6
           (Reentry.secondLine Backrefs.whileOnly) 1%nat 3 []
           (Reentry.pushed Backrefs.whileOnly) 1%nat
           (setWhile createState (Backrefs.backref "\0" 7))
           (Backrefs.backref "\0" 7) Ha);
    [vm_compute; reflexivity | reflexivity | reflexivity
    | vm_compute; reflexivity | exact Hcache | exact Hregion].
Defined.

(** *** The order [compareScopes] gives *)

Ltac compare_cases :=
  unfold compareScopes;
  repeat match goal with
  | |- context [?a <? ?b] => destruct (Z.ltb_spec a b)
  | |- context [?a >? ?b] => destruct (Z.gtb_spec a b)
  end.

Lemma compareScopes_antisym (a b : scope) :
  compareScopes b a = - compareScopes a b.
Proof.
  destruct a as [[] na oa sa ea qa], b as [[] nb ob sb eb qb]; cbn;
    compare_cases; cbn in *; lia.
Qed.

Lemma compareScopes_zero (a b : scope) :
  compareScopes a b = 0 <-> sortKey a = sortKey b.
Proof.
  unfold sortKey. split.
  - destruct a as [[] na oa sa ea qa], b as [[] nb ob sb eb qb]; cbn;
      compare_cases; cbn in *; intros Hzero; try lia; repeat f_equal; lia.
  - intros [= Hty Ho Hs He Hq]. unfold compareScopes.
    rewrite Hty, Ho, Hs, He, Hq, !Z.gtb_ltb, !Z.ltb_irrefl.
    by destruct (ty b).
Qed.

Lemma compareScopes_lexLe (a b : scope) :
  compareScopes a b <= 0 <-> lexLe (lexKey a) (lexKey b).
Proof.
  destruct a as [[] na oa sa ea qa], b as [[] nb ob sb eb qb];
    unfold lexLe, lexKey; cbn;
    compare_cases; cbn in *; lia.
Qed.

Lemma lexLe_trans (x y z : Z * Z * Z * Z * Z) :
  lexLe x y -> lexLe y z -> lexLe x z.
Proof.
  destruct x as [[[[x1 x2] x3] x4] x5], y as [[[[y1 y2] y3] y4] y5],
    z as [[[[z1 z2] z3] z4] z5].
  unfold lexLe. lia.
Qed.

Lemma compareScopes_trans (a b c : scope) :
  compareScopes a b <= 0 -> compareScopes b c <= 0 -> compareScopes a c <= 0.
Proof. rewrite !compareScopes_lexLe. apply lexLe_trans. Qed.

Lemma insertScope_ordered (x : scope) (l : list scope) :
  orderedByCompare l -> orderedByCompare (insertScope x l).
Proof.
  induction l as [|y l IH]; intros Hl; [by cbn|].
  cbn [insertScope]. destruct Hl as [Hy Hl].
  destruct (compareScopes x y <=? 0) eqn:Hxy.
  - apply Z.leb_le in Hxy. cbn [orderedByCompare]. split; [|by split].
    constructor; [done|].
    eapply Forall_impl; [exact Hy|]. intros t Ht. cbn in Ht.
    by eapply compareScopes_trans.
  - apply Z.leb_gt in Hxy. cbn [orderedByCompare]. split; [|by apply IH].
    rewrite (insertScope_Permutation x l). constructor; [|done].
    rewrite compareScopes_antisym. lia.
Qed.

Lemma qsort_ordered (l : list scope) : orderedByCompare (qsort l).
Proof.
  unfold qsort. induction l as [|x l IH]; [done|].
  cbn [foldr]. by apply insertScope_ordered.
Qed.

Lemma orderedByCompare_unique (l1 l2 : list scope) :
  orderedByCompare l1 -> orderedByCompare l2 -> l1 ≡ₚ l2 ->
  (forall a b, a ∈ l1 -> b ∈ l1 -> sortKey a = sortKey b -> a = b) ->
  l1 = l2.
Proof.
  revert l2. induction l1 as [|x l1 IH]; intros l2 H1 H2 Hp Hkey.
  - by apply Permutation_nil_l in Hp.
  - destruct l2 as [|y l2]; [by apply Permutation_nil_r in Hp|].
    destruct H1 as [Hx H1], H2 as [Hy H2].
    assert (Hxy : x = y).
    { assert (Hyin : y ∈ x :: l1) by (rewrite Hp; left).
      assert (Hxin : x ∈ y :: l2) by (rewrite <- Hp; left).
      apply elem_of_cons in Hyin as [->|Hyin]; [done|].
      apply elem_of_cons in Hxin as [->|Hxin]; [done|].
      apply Hkey; [left|by right|].
      apply compareScopes_zero.
      pose proof (proj1 (Forall_forall _ _) Hx y Hyin) as Hle1.
      pose proof (proj1 (Forall_forall _ _) Hy x Hxin) as Hle2.
      cbn in Hle1, Hle2. rewrite compareScopes_antisym in Hle2. lia. }
    subst y. f_equal. apply Permutation_cons_inv in Hp.
    apply IH; [done|done|done|].
    intros a b Ha Hb. apply Hkey; by right.
Qed.
(** X1: [compareScopes] is a total order on the events, up to their names:
    swapping its arguments negates it, it is transitive, it is 0 exactly for
    two events that agree on every field but the name, and it orders the
    events by offset, END events before BEGIN events at one offset, then
    BEGIN events by start, the later end first, and by sequence number, and
    END events the other way round. *)
Theorem compareScopes_order (a b c : scope) :
  compareScopes b a = - compareScopes a b /\
  (compareScopes a b <= 0 -> compareScopes b c <= 0 -> compareScopes a c <= 0) /\
  (compareScopes a b = 0 <-> sortKey a = sortKey b) /\
  (compareScopes a b <= 0 <-> lexLe (lexKey a) (lexKey b)).
Proof.
  split; [apply compareScopes_antisym|].
  split; [apply compareScopes_trans|].
  split; [apply compareScopes_zero|apply compareScopes_lexLe].
Qed.

(** *** Lines of the input *)

Lemma advanceToNextLine_from_bounds (rest : list byte) (offset : Z) :
  let '(e, next) := advanceToNextLine_from rest offset in
  offset <= e <= next /\ next <= offset + Z.of_nat (length rest) /\
  next - e <= 2 /\
  (rest <> [] -> offset < next) /\
  Forall (fun c => isNewline c = false) (take (Z.to_nat (e - offset)) rest) /\
  (e < next ->
   exists c, rest !! Z.to_nat (e - offset) = Some c /\ isNewline c = true) /\
  (e = next -> next = offset + Z.of_nat (length rest)).
Proof.
  revert offset. induction rest as [|c rest IH]; intros offset.
  - cbn. rewrite Z.sub_diag. repeat split; try lia; try done.
  - cbn [advanceToNextLine_from].
    destruct (c =? ch_nl) eqn:Hnl.
    { rewrite Z.sub_diag. cbn [length]. repeat split; try lia; try done.
      intros _. exists c. split; [done|]. unfold isNewline. by rewrite Hnl. }
    destruct (c =? ch_cr) eqn:Hcr.
    { assert (Hc : exists c', (c :: rest) !! Z.to_nat (offset - offset) = Some c' /\
                              isNewline c' = true).
      { rewrite Z.sub_diag. exists c. split; [done|].
        unfold isNewline. by rewrite Hcr, orb_true_r. }
      destruct rest as [|d rest]; [|destruct (d =? ch_nl)];
        rewrite ?Z.sub_diag in *; cbn [length Z.to_nat take];
        repeat split; try lia; try done. }
    specialize (IH (offset + 1)).
    destruct (advanceToNextLine_from rest (offset + 1)) as [e next].
    destruct IH as (H1 & H2 & H3 & H4 & H5 & H6 & H7).
    cbn [length].
    replace (Z.to_nat (e - offset)) with (S (Z.to_nat (e - (offset + 1)))) by lia.
    repeat split; try lia.
    + cbn [take]. constructor; [|done]. unfold isNewline. by rewrite Hnl, Hcr.
    + cbn [lookup]. exact H6.
Qed.

(** X2: [advanceToNextLine] from an offset within the input returns the end
    of the line that starts there and leaves the offset after its terminator:
    the bytes of the line hold no line feed and no carriage return, the
    terminator has at most two bytes and starts with one of the two, only the
    last line may have none, and the offset moves unless it is at the end. *)
Theorem advanceToNextLine_bounds (bytes : list byte) (offset : Z) :
  0 <= offset <= Z.of_nat (length bytes) ->
  let '(e, next) := advanceToNextLine bytes offset in
  offset <= e <= next /\ next <= Z.of_nat (length bytes) /\ next - e <= 2 /\
  (offset < Z.of_nat (length bytes) -> offset < next) /\
  Forall (fun c => isNewline c = false) (window bytes offset e) /\
  (e < next -> exists c, bytes !! Z.to_nat e = Some c /\ isNewline c = true) /\
  (e = next -> next = Z.of_nat (length bytes)).
Proof.
  intros Hoffset. unfold advanceToNextLine, window.
  pose proof (advanceToNextLine_from_bounds (drop (Z.to_nat offset) bytes) offset)
    as H.
  destruct (advanceToNextLine_from _ _) as [e next].
  destruct H as (H1 & H2 & H3 & H4 & H5 & H6 & H7).
  rewrite length_drop in H2, H7.
  repeat split; try lia; try done.
  intros Hlt. destruct (H6 Hlt) as (c & Hc & Hnew). exists c. split; [|done].
  rewrite lookup_drop in Hc. rewrite <- Hc. f_equal. lia.
Qed.

Lemma advanceToNextLine_bounds_witness :
  0 <= 3 <= Z.of_nat (length (Lit.bytesOf Scenarios.reanchoredInput)) /\
  let '(e, next) := advanceToNextLine (Lit.bytesOf Scenarios.reanchoredInput) 3 in
  3 <= e <= next /\
  next <= Z.of_nat (length (Lit.bytesOf Scenarios.reanchoredInput)) /\
  next - e <= 2 /\
  (3 < Z.of_nat (length (Lit.bytesOf Scenarios.reanchoredInput)) -> 3 < next) /\
  Forall (fun c => isNewline c = false)
    (window (Lit.bytesOf Scenarios.reanchoredInput) 3 e) /\
  (e < next ->
   exists c, Lit.bytesOf Scenarios.reanchoredInput !! Z.to_nat e = Some c /\
             isNewline c = true) /\
  (e = next -> next = Z.of_nat (length (Lit.bytesOf Scenarios.reanchoredInput))).
Proof.
  assert (H : 0 <= 3 <= Z.of_nat (length (Lit.bytesOf Scenarios.reanchoredInput)))
    by (vm_compute; split; discriminate).
  split; [exact H|].
  exact (advanceToNextLine_bounds (Lit.bytesOf Scenarios.reanchoredInput) 3 H).
Defined.

(** *** Capture names *)

Lemma decimalFrom_ge (name : list byte) (acc : Z) :
  Forall (fun c => isDigit c = true) name -> 0 <= acc -> acc <= decimalFrom acc name.
Proof.
  intros Hname. revert acc. induction Hname as [|c name Hc Hname IH]; intros acc Hacc.
  - cbn. lia.
  - cbn [decimalFrom foldl]. unfold isDigit, ch_0, ch_9 in Hc.
    apply andb_true_iff in Hc as [Hc1 Hc2].
    etrans; [|apply IH]; unfold ch_0; lia.
Qed.

Lemma captureNameToInt_from_digits (name : list byte) (acc : Z) :
  Forall (fun c => isDigit c = true) name -> 0 <= acc ->
  decimalFrom acc name < 2 ^ 32 ->
  captureNameToInt_from name acc =
    if decimalFrom acc name >? INT_MAX then -1 else decimalFrom acc name.
Proof.
  intros Hname. revert acc. induction Hname as [|c name Hc Hname IH]; intros acc Hacc Hv.
  - reflexivity.
  - cbn [captureNameToInt_from decimalFrom foldl] in *.
    pose proof (decimalFrom_ge name (acc * 10 + (c - ch_0)) Hname) as Hge.
    unfold decimalFrom in Hge.
    unfold isDigit, ch_0, ch_9 in Hc. apply andb_true_iff in Hc as [Hc1 Hc2].
    assert (Hlo : (c <? ch_0) || (c >? ch_9) = false).
    { unfold ch_0, ch_9. apply orb_false_iff. lia. }
    rewrite Hlo. unfold ch_0 in *.
    assert (Hsmall : 0 <= acc * 10 + (c - 48) < 2 ^ 32) by lia.
    unfold uint32_t_.
    rewrite (Z.mod_small (acc * 10)) by lia.
    rewrite (Z.mod_small (acc * 10 + (c - 48))) by lia.
    apply IH; [lia|done].
Qed.

Lemma captureNameToInt_from_other (name : list byte) (acc : Z) :
  Exists (fun c => isDigit c = false) name -> captureNameToInt_from name acc = -1.
Proof.
  intros Hname. revert acc.
  induction name as [|c name IH]; intros acc; [by apply Exists_nil in Hname|].
  cbn [captureNameToInt_from].
  destruct ((c <? ch_0) || (c >? ch_9)) eqn:Hc; [done|].
  apply IH. apply Exists_cons in Hname as [Hd|]; [|done].
  unfold isDigit in Hd. apply orb_false_iff in Hc. apply andb_false_iff in Hd. lia.
Qed.

(** X3: [captureNameToInt] of a string of decimal digits is the number the
    string denotes when that number fits an [int], and -1 when it is larger
    but still fits the 32-bit accumulator; it is -1 for every string with a
    byte that is no digit, and 0 for the empty string. *)
Theorem captureNameToInt_decimal (name : list byte) :
  (Forall (fun c => isDigit c = true) name -> decimal name <= INT_MAX ->
   captureNameToInt name = decimal name) /\
  (Forall (fun c => isDigit c = true) name ->
   INT_MAX < decimal name < 2 ^ 32 -> captureNameToInt name = -1) /\
  (Exists (fun c => isDigit c = false) name -> captureNameToInt name = -1) /\
  captureNameToInt [] = 0.
Proof.
  unfold captureNameToInt, decimal. repeat split.
  - intros Hname Hv. rewrite captureNameToInt_from_digits; [|done|done|].
    + destruct (Z.gtb_spec (decimalFrom 0 name) INT_MAX); [lia|done].
    + unfold INT_MAX in Hv. lia.
  - intros Hname Hv. rewrite captureNameToInt_from_digits; [|done|done|lia].
    destruct (Z.gtb_spec (decimalFrom 0 name) INT_MAX); [done|lia].
  - apply captureNameToInt_from_other.
Qed.

Lemma captureNameToInt_of_decimal (name : list byte) :
  Forall (fun c => isDigit c = true) name -> decimal name <= INT_MAX ->
  captureNameToInt name = decimal name /\ 0 <= decimal name.
Proof.
  intros Hname Hv. unfold captureNameToInt, decimal in *.
  pose proof (decimalFrom_ge name 0 Hname ltac:(lia)) as Hge.
  split; [|done]. rewrite captureNameToInt_from_digits; [|done|done|].
  - destruct (Z.gtb_spec (decimalFrom 0 name) INT_MAX); [lia|done].
  - unfold INT_MAX in Hv. lia.
Qed.

(** *** Patterns *)

(** X4: a pattern that [createPattern] returns has one entry per group
    (group 0 included) in each of its two vectors, all zero, and on it
    [setCaptureScope] and [setCaptureState] with the decimal name of one of
    its groups set the entry of that group and nothing else, without asking
    the engine for a group of that name. *)
Theorem setCapture_numbered (E : Onig) (regex : list byte)
    (p : pattern (OnigRegex E)) (name : list byte) (scope : scopeName)
    (s : option stateId) :
  createPattern E regex = Some p ->
  0 <= onig_number_of_captures E (re p) < INT_MAX ->
  Forall (fun c => isDigit c = true) name ->
  decimal name < captures p ->
  captures p = onig_number_of_captures E (re p) + 1 /\
  captureScopes p = replicate (Z.to_nat (captures p)) 0 /\
  captureStates p = replicate (Z.to_nat (captures p)) None /\
  setCaptureScope p name scope =
    Ok (with_captureScopes p
          (<[Z.to_nat (decimal name) := scope]> (captureScopes p))) /\
  setCaptureState p name s =
    Ok (with_captureStates p
          (<[Z.to_nat (decimal name) := s]> (captureStates p))).
Proof.
  intros Hp Hn Hname Hv. unfold createPattern in Hp.
  destruct (onig_new E regex) as [r|]; [|discriminate].
  injection Hp as <-. cbn [re captures captureScopes captureStates] in *.
  destruct (captureNameToInt_of_decimal name Hname) as [Hint Hpos].
  { unfold INT_MAX in *. lia. }
  split; [done|]. split; [done|]. split; [done|].
  unfold setCaptureScope, setCaptureState.
  cbn [re captures captureScopes captureStates]. rewrite Hint.
  assert (Hin : ((0 <=? decimal name) &&
                 (decimal name <? onig_number_of_captures E r + 1)) = true).
  { apply andb_true_iff. lia. }
  rewrite Hin, !length_replicate.
  assert (Hlen : (decimal name <?
                  Z.of_nat (Z.to_nat (onig_number_of_captures E r + 1))) = true).
  { apply Z.ltb_lt. lia. }
  rewrite Hlen. done.
Qed.

Lemma setCapture_numbered_witness :
  createPattern Lit.engine (Lit.bytesOf "ab") = Some (Lit.pat "ab" 0 0 0) /\
  0 <= onig_number_of_captures Lit.engine (re (Lit.pat "ab" 0 0 0)) < INT_MAX /\
  Forall (fun c => isDigit c = true) (Lit.bytesOf "00") /\
  decimal (Lit.bytesOf "00") < captures (Lit.pat "ab" 0 0 0) /\
  captures (Lit.pat "ab" 0 0 0) =
    onig_number_of_captures Lit.engine (re (Lit.pat "ab" 0 0 0)) + 1 /\
  captureScopes (Lit.pat "ab" 0 0 0) =
    replicate (Z.to_nat (captures (Lit.pat "ab" 0 0 0))) 0 /\
  captureStates (Lit.pat "ab" 0 0 0) =
    replicate (Z.to_nat (captures (Lit.pat "ab" 0 0 0))) None /\
  setCaptureScope (Lit.pat "ab" 0 0 0) (Lit.bytesOf "00") 7 =
    Ok (with_captureScopes (Lit.pat "ab" 0 0 0)
          (<[Z.to_nat (decimal (Lit.bytesOf "00")) := 7]>
             (captureScopes (Lit.pat "ab" 0 0 0)))) /\
  setCaptureState (Lit.pat "ab" 0 0 0) (Lit.bytesOf "00") (Some 1%nat) =
    Ok (with_captureStates (Lit.pat "ab" 0 0 0)
          (<[Z.to_nat (decimal (Lit.bytesOf "00")) := Some 1%nat]>
             (captureStates (Lit.pat "ab" 0 0 0)))).
Proof.
  assert (H1 : createPattern Lit.engine (Lit.bytesOf "ab") =
               Some (Lit.pat "ab" 0 0 0)) by reflexivity.
  assert (H2 : 0 <= onig_number_of_captures Lit.engine (re (Lit.pat "ab" 0 0 0)) <
               INT_MAX) by (vm_compute; split; [discriminate|reflexivity]).
  assert (H3 : Forall (fun c => isDigit c = true) (Lit.bytesOf "00"))
    by (repeat constructor).
  assert (H4 : decimal (Lit.bytesOf "00") < captures (Lit.pat "ab" 0 0 0))
    by reflexivity.
  split; [exact H1|]. split; [exact H2|]. split; [exact H3|]. split; [exact H4|].
  exact (setCapture_numbered Lit.engine (Lit.bytesOf "ab") (Lit.pat "ab" 0 0 0)
           (Lit.bytesOf "00") 7 (Some 1%nat) H1 H2 H3 H4).
Defined.

(** *** Octal escapes *)

Lemma octalEscape_digits (b : byte) :
  0 <= b < 256 ->
  Z.shiftr (Z.land b 448) 6 = b / 64 /\
  Z.shiftr (Z.land b 56) 3 = (b / 8) mod 8 /\
  Z.shiftr (Z.land b 7) 0 = b mod 8.
Proof.
  intros Hb.
  assert (Hall : forallb
            (fun b => (Z.shiftr (Z.land b 448) 6 =? b / 64) &&
                      (Z.shiftr (Z.land b 56) 3 =? (b / 8) mod 8) &&
                      (Z.shiftr (Z.land b 7) 0 =? b mod 8))
            (seqZ 0 256) = true) by (vm_compute; reflexivity).
  rewrite forallb_forall in Hall.
  specialize (Hall b). rewrite <- list_elem_of_In, elem_of_seqZ in Hall.
  specialize (Hall ltac:(lia)).
  apply andb_true_iff in Hall as [Hall H3].
  apply andb_true_iff in Hall as [H1 H2]. lia.
Qed.

(** X5: the four bytes written for a captured byte are a backslash and the
    three octal digits of the byte, the most significant first. *)
Theorem octalEscape_octal (b : byte) :
  0 <= b < 256 ->
  exists d1 d2 d3,
    octalEscape b = [ch_backslash; ch_0 + d1; ch_0 + d2; ch_0 + d3] /\
    0 <= d1 < 4 /\ 0 <= d2 < 8 /\ 0 <= d3 < 8 /\
    b = 64 * d1 + 8 * d2 + d3.
Proof.
  intros Hb. destruct (octalEscape_digits b Hb) as (H1 & H2 & H3).
  exists (b / 64), ((b / 8) mod 8), (b mod 8).
  unfold octalEscape. rewrite H1, H2, H3.
  split; [done|].
  pose proof (Z.mod_pos_bound (b / 8) 8 ltac:(lia)).
  pose proof (Z.mod_pos_bound b 8 ltac:(lia)).
  pose proof (Z.div_mod b 8 ltac:(lia)).
  pose proof (Z.div_mod (b / 8) 8 ltac:(lia)).
  assert (b / 8 / 8 = b / 64) by (rewrite Z.div_div by lia; done).
  assert (0 <= b / 64 < 4).
  { split; [apply Z.div_pos; lia|apply Z.div_lt_upper_bound; lia]. }
  lia.
Qed.

Lemma octalEscape_octal_witness :
  0 <= 97 < 256 /\
  exists d1 d2 d3,
    octalEscape 97 = [ch_backslash; ch_0 + d1; ch_0 + d2; ch_0 + d3] /\
    0 <= d1 < 4 /\ 0 <= d2 < 8 /\ 0 <= d3 < 8 /\
    97 = 64 * d1 + 8 * d2 + d3.
Proof.
  assert (H : 0 <= 97 < 256) by (split; [discriminate|reflexivity]).
  split; [exact H|]. exact (octalEscape_octal 97 H).
Defined.
(** *** The events of a line, once sorted *)

Lemma paired_withinLine (lb le : Z) (ps : list scope) :
  paired lb le ps -> Forall (withinLine lb le) ps.
Proof.
  induction 1 as [|ps nm sq begin end_ Hps IH Hname Hlt]; [constructor|].
  apply Forall_app. split; [done|].
  unfold beginEvent, endEvent in *. cbn [sc_offset] in Hlt.
  revert Hlt.
  destruct (Z.ltb_spec begin lb); destruct (Z.gtb_spec end_ le); intros Hlt;
    (constructor; [|constructor; [|constructor]]);
    unfold withinLine; cbn [sc_offset name startOffset endOffset ty];
    repeat split; try done; lia.
Qed.

Lemma orderedByCompare_lookup (l : list scope) (i j : nat) (x y : scope) :
  orderedByCompare l -> (i < j)%nat -> l !! i = Some x -> l !! j = Some y ->
  compareScopes x y <= 0.
Proof.
  revert i j. induction l as [|s l IH]; intros i j Hl Hij Hi Hj; [done|].
  destruct Hl as [Hs Hl]. destruct j as [|j]; [lia|]. cbn in Hj.
  destruct i as [|i].
  - cbn in Hi. injection Hi as ->.
    exact (proj1 (Forall_forall _ _) Hs y (list_elem_of_lookup_2 _ _ _ Hj)).
  - cbn in Hi. eapply IH; [done| |done|done]. lia.
Qed.

Lemma compareScopes_le_order (x y : scope) :
  compareScopes x y <= 0 ->
  sc_offset x <= sc_offset y /\
  (sc_offset x = sc_offset y -> ty x = SCOPE_BEGIN -> ty y = SCOPE_BEGIN).
Proof.
  destruct x as [[] nx ox sx ex qx], y as [[] ny oy sy ey qy]; cbn;
    compare_cases; cbn in *; intros Hle; split; try lia; try done.
Qed.

Lemma renderNextLine_steps {E : Onig} (states : list (state (OnigRegex E)))
    fuel (m m' : machine (OnigRegex E)) :
  renderNextLine states fuel m = Ok (true, m') ->
  exists m1,
    renderLine states fuel (nextLine m) (line_begin (ln (nextLine m)))
      (endIncludingNewline (ln (nextLine m))) 1 = Ok m1 /\
    m' = sortLine m1 /\
    offset (rd m) < Z.of_nat (length (bytes (rd m))) /\
    exists ps,
      scopes (ln m1) = ps /\
      paired (line_begin (ln (nextLine m))) (line_end (ln (nextLine m))) ps /\
      line_begin (ln m1) = line_begin (ln (nextLine m)) /\
      line_end (ln m1) = line_end (ln (nextLine m)) /\
      endIncludingNewline (ln m1) = endIncludingNewline (ln (nextLine m)).
Proof.
  intros H. unfold renderNextLine in H.
  destruct (Z.geb_spec (offset (rd m)) (Z.of_nat (length (bytes (rd m)))));
    [discriminate|].
  destruct (renderLine states fuel (nextLine m) _ _ 1) as [m1| |] eqn:Hline;
    cbn [mbind result_bind] in H; try discriminate.
  injection H as <-. exists m1. split; [done|]. split; [done|]. split; [lia|].
  apply renderLine_lineRel in Hline as [Hsteps _].
  apply lineSteps_paired in Hsteps as (H1 & H2 & H3 & ps & Hps & Hpaired).
  assert (Hnil : scopes (ln (nextLine m)) = []).
  { unfold nextLine. by destruct (advanceToNextLine _ _). }
  rewrite Hnil in Hps. exists ps. done.
Qed.

(** X6: every event of a line that [renderNextLine] renders lies within the
    line, at the begin or the end of its range clamped to the line; the range
    has a name other than 0 and is not empty. *)
Theorem renderNextLine_events_within {E : Onig} (states : list (state (OnigRegex E)))
    fuel (m m' : machine (OnigRegex E)) :
  renderNextLine states fuel m = Ok (true, m') ->
  Forall (withinLine (line_begin (ln m')) (line_end (ln m'))) (scopes (ln m')).
Proof.
  intros H.
  apply renderNextLine_steps in H
    as (m1 & _ & -> & _ & ps & Hps & Hpaired & H1 & H2 & _).
  cbn [sortLine with_line ln scopes line_begin line_end].
  rewrite Hps, qsort_Permutation, H1, H2. by apply paired_withinLine.
Qed.

Lemma renderNextLine_events_within_witness :
  renderNextLine Scenarios.reanchored 20
    (Examples.after Scenarios.reanchored 20 1
       (Lit.start Scenarios.reanchored Scenarios.reanchoredInput)) =
    Ok (true,
        Examples.after Scenarios.reanchored 20 2
          (Lit.start Scenarios.reanchored Scenarios.reanchoredInput)) /\
  Forall
    (withinLine
       (line_begin (ln (Examples.after Scenarios.reanchored 20 2
          (Lit.start Scenarios.reanchored Scenarios.reanchoredInput))))
       (line_end (ln (Examples.after Scenarios.reanchored 20 2
          (Lit.start Scenarios.reanchored Scenarios.reanchoredInput)))))
    (scopes (ln (Examples.after Scenarios.reanchored 20 2
       (Lit.start Scenarios.reanchored Scenarios.reanchoredInput)))).
Proof.
  assert (H : renderNextLine Scenarios.reanchored 20
                (Examples.after Scenarios.reanchored 20 1
                   (Lit.start Scenarios.reanchored Scenarios.reanchoredInput)) =
              Ok (true,
                  Examples.after Scenarios.reanchored 20 2
                    (Lit.start Scenarios.reanchored Scenarios.reanchoredInput)))
    by (vm_compute; reflexivity).
  split; [exact H|].
  exact (renderNextLine_events_within Scenarios.reanchored 20 _ _ H).
Defined.

(** X7: the events of a line that [renderNextLine] renders are left in the
    order of [compareScopes]: their offsets do not decrease, and at one offset
    the END events come before the BEGIN events. *)
Theorem renderNextLine_events_ordered {E : Onig} (states : list (state (OnigRegex E)))
    fuel (m m' : machine (OnigRegex E)) :
  renderNextLine states fuel m = Ok (true, m') ->
  orderedByCompare (scopes (ln m')) /\
  forall i j x y,
    (i < j)%nat -> scopes (ln m') !! i = Some x -> scopes (ln m') !! j = Some y ->
    sc_offset x <= sc_offset y /\
    (sc_offset x = sc_offset y -> ty x = SCOPE_BEGIN -> ty y = SCOPE_BEGIN).
Proof.
  intros H.
  apply renderNextLine_steps in H as (m1 & _ & -> & _).
  cbn [sortLine with_line ln scopes].
  pose proof (qsort_ordered (scopes (ln m1))) as Hord.
  split; [done|]. intros i j x y Hij Hi Hj.
  apply compareScopes_le_order. by eapply orderedByCompare_lookup.
Qed.

Lemma renderNextLine_events_ordered_witness :
  renderNextLine Scenarios.reanchored 20
    (Lit.start Scenarios.reanchored Scenarios.reanchoredInput) =
    Ok (true,
        Examples.after Scenarios.reanchored 20 1
          (Lit.start Scenarios.reanchored Scenarios.reanchoredInput)) /\
  orderedByCompare
    (scopes (ln (Examples.after Scenarios.reanchored 20 1
       (Lit.start Scenarios.reanchored Scenarios.reanchoredInput)))) /\
  forall i j x y,
    (i < j)%nat ->
    scopes (ln (Examples.after Scenarios.reanchored 20 1
       (Lit.start Scenarios.reanchored Scenarios.reanchoredInput))) !! i = Some x ->
    scopes (ln (Examples.after Scenarios.reanchored 20 1
       (Lit.start Scenarios.reanchored Scenarios.reanchoredInput))) !! j = Some y ->
    sc_offset x <= sc_offset y /\
    (sc_offset x = sc_offset y -> ty x = SCOPE_BEGIN -> ty y = SCOPE_BEGIN).
Proof.
  assert (H : renderNextLine Scenarios.reanchored 20
                (Lit.start Scenarios.reanchored Scenarios.reanchoredInput) =
              Ok (true,
                  Examples.after Scenarios.reanchored 20 1
                    (Lit.start Scenarios.reanchored Scenarios.reanchoredInput)))
    by (vm_compute; reflexivity).
  split; [exact H|].
  exact (renderNextLine_events_ordered Scenarios.reanchored 20 _ _ H).
Defined.

(** X8: whatever sorts the events of a line by [compareScopes] leaves them
    in the order the insertion sort of the model does, when no two events of
    the line agree on every field [compareScopes] reads. *)
Theorem sorted_events_determined (l l' : list scope) :
  l' ≡ₚ l -> orderedByCompare l' ->
  (forall a b, a ∈ l -> b ∈ l -> sortKey a = sortKey b -> a = b) ->
  l' = qsort l.
Proof.
  intros Hp Hord Hkey.
  apply orderedByCompare_unique; [done|apply qsort_ordered| |].
  - by rewrite qsort_Permutation.
  - intros a b Ha Hb. rewrite Hp in Ha, Hb. by apply Hkey.
Qed.

Lemma sorted_events_determined_witness :
  [beginEvent 0 1 0 0 2; endEvent 5 1 0 0 2] ≡ₚ
    [endEvent 5 1 0 0 2; beginEvent 0 1 0 0 2] /\
  orderedByCompare [beginEvent 0 1 0 0 2; endEvent 5 1 0 0 2] /\
  (forall a b,
     a ∈ [endEvent 5 1 0 0 2; beginEvent 0 1 0 0 2] ->
     b ∈ [endEvent 5 1 0 0 2; beginEvent 0 1 0 0 2] ->
     sortKey a = sortKey b -> a = b) /\
  [beginEvent 0 1 0 0 2; endEvent 5 1 0 0 2] =
    qsort [endEvent 5 1 0 0 2; beginEvent 0 1 0 0 2].
Proof.
  assert (H1 : [beginEvent 0 1 0 0 2; endEvent 5 1 0 0 2] ≡ₚ
               [endEvent 5 1 0 0 2; beginEvent 0 1 0 0 2]) by apply perm_swap.
  assert (H2 : orderedByCompare [beginEvent 0 1 0 0 2; endEvent 5 1 0 0 2]).
  { cbn. repeat split; repeat constructor; vm_compute; discriminate. }
  assert (H3 : forall a b,
             a ∈ [endEvent 5 1 0 0 2; beginEvent 0 1 0 0 2] ->
             b ∈ [endEvent 5 1 0 0 2; beginEvent 0 1 0 0 2] ->
             sortKey a = sortKey b -> a = b).
  { intros a b Ha Hb.
    apply elem_of_cons in Ha as [->|Ha]; [|apply list_elem_of_singleton in Ha as ->];
      (apply elem_of_cons in Hb as [->|Hb];
       [|apply list_elem_of_singleton in Hb as ->]);
      intros Hk; try done; vm_compute in Hk; discriminate Hk. }
  split; [exact H1|]. split; [exact H2|]. split; [exact H3|].
  exact (sorted_events_determined _ _ H1 H2 H3).
Defined.
(** *** The renderer from line to line *)

(** X9: the renderer [createRenderer] returns is in order (a stack of one
    frame, the offset at the start of the input), and [renderNextLine] keeps
    it so: it returns [false], changing nothing, exactly at the end of the
    input, and otherwise renders the line that starts at the offset and moves
    the offset past it, by one byte at least; the stack keeps between 1 and
    256 frames, and the input is not changed. *)
Theorem renderNextLine_invariant {E : Onig} (states : list (state (OnigRegex E))) :
  (forall bytes startState l g,
     rendererOk (regex := OnigRegex E)
       {| rd := createRenderer bytes startState; ln := l; regions := g |}) /\
  (forall fuel (m m' : machine (OnigRegex E)) more,
     rendererOk m -> renderNextLine states fuel m = Ok (more, m') ->
     rendererOk m' /\ bytes (rd m') = bytes (rd m) /\
     (more = false ->
      m' = m /\ offset (rd m) = Z.of_nat (length (bytes (rd m)))) /\
     (more = true ->
      offset (rd m) < offset (rd m') /\
      line_begin (ln m') = offset (rd m) /\
      endIncludingNewline (ln m') = offset (rd m') /\
      line_begin (ln m') <= line_end (ln m') <= endIncludingNewline (ln m') /\
      endIncludingNewline (ln m') - line_end (ln m') <= 2)).
Proof.
  split.
  { intros bytes startState l g. unfold rendererOk, inRange, stackDepth, stackSize.
    cbn. lia. }
  intros fuel m m' more [Hstack Hoffset] H. destruct more.
  - apply renderNextLine_steps in H
      as (m1 & Hline & -> & Hlt & ps & _ & _ & H1 & H2 & H3).
    pose proof (renderLine_stack _ _ _ _ _ _ _
                  ltac:(unfold inRange, stackDepth in *; by rewrite nextLine_stack)
                  Hline) as [_ Hrange].
    apply renderLine_lineRel in Hline as (_ & Hbytes & Hoff).
    pose proof (advanceToNextLine_from_bounds
                  (drop (Z.to_nat (offset (rd m))) (bytes (rd m))) (offset (rd m)))
      as Hadv.
    unfold rendererOk.
    cbn [sortLine with_line rd ln line_begin line_end endIncludingNewline].
    rewrite H1, H2, H3, Hbytes, Hoff.
    unfold nextLine, advanceToNextLine in *.
    destruct (advanceToNextLine_from _ _) as [e next].
    cbn [rd ln bytes offset line_begin line_end endIncludingNewline] in *.
    destruct Hadv as (A1 & A2 & A3 & A4 & _ & _ & A7).
    rewrite length_drop in A2, A7.
    split; [split; [done|lia]|]. split; [done|]. split; [done|].
    intros _. repeat split; lia.
  - unfold renderNextLine in H.
    destruct (Z.geb_spec (offset (rd m)) (Z.of_nat (length (bytes (rd m)))));
      [|by destruct (renderLine _ _ _ _ _ _)].
    injection H as <-. split; [done|]. split; [done|]. split; [|done].
    intros _. split; [done|lia].
Qed.

Lemma renderNextLine_invariant_witness :
  rendererOk (Lit.start Scenarios.reanchored Scenarios.reanchoredInput) /\
  renderNextLine Scenarios.reanchored 20
    (Lit.start Scenarios.reanchored Scenarios.reanchoredInput) =
    Ok (true,
        Examples.after Scenarios.reanchored 20 1
          (Lit.start Scenarios.reanchored Scenarios.reanchoredInput)) /\
  rendererOk
    (Examples.after Scenarios.reanchored 20 1
       (Lit.start Scenarios.reanchored Scenarios.reanchoredInput)) /\
  offset (rd (Lit.start Scenarios.reanchored Scenarios.reanchoredInput)) <
    offset (rd (Examples.after Scenarios.reanchored 20 1
                  (Lit.start Scenarios.reanchored Scenarios.reanchoredInput))).
Proof.
  assert (H1 : rendererOk (Lit.start Scenarios.reanchored Scenarios.reanchoredInput)).
  { apply (proj1 (renderNextLine_invariant Scenarios.reanchored)). }
  assert (H2 : renderNextLine Scenarios.reanchored 20
                 (Lit.start Scenarios.reanchored Scenarios.reanchoredInput) =
               Ok (true,
                   Examples.after Scenarios.reanchored 20 1
                     (Lit.start Scenarios.reanchored Scenarios.reanchoredInput)))
    by (vm_compute; reflexivity).
  split; [exact H1|]. split; [exact H2|].
  pose proof (proj2 (renderNextLine_invariant Scenarios.reanchored) 20%nat _ _ _ H1 H2)
    as (H3 & _ & _ & H4).
  split; [exact H3|]. exact (proj1 (H4 eq_refl)).
Defined.

(** *** What a call leaves unchanged *)

(** X10: [renderLine] called with a stack in range leaves the frames under
    the frame below [stackBase] as they are, never pops that frame, and never
    overflows the stack; it changes neither the input nor the offset nor the
    bounds of the line, and the events the line held stay in place, before
    the ones it adds. *)
Theorem renderLine_frame {E : Onig} (states : list (state (OnigRegex E)))
    fuel (m m' : machine (OnigRegex E)) begin end_ stackBase :
  inRange stackBase m ->
  renderLine states fuel m begin end_ stackBase = Ok m' ->
  take (stackBase - 1) (stack (rd m')) = take (stackBase - 1) (stack (rd m)) /\
  (stackBase <= stackDepth m' <= stackSize)%nat /\
  bytes (rd m') = bytes (rd m) /\ offset (rd m') = offset (rd m) /\
  line_begin (ln m') = line_begin (ln m) /\ line_end (ln m') = line_end (ln m) /\
  endIncludingNewline (ln m') = endIncludingNewline (ln m) /\
  exists ps, scopes (ln m') = scopes (ln m) ++ ps.
Proof.
  intros Hm H.
  pose proof (renderLine_stack _ _ _ _ _ _ _ Hm H) as [Htake Hrange].
  apply renderLine_lineRel in H as (Hsteps & Hbytes & Hoff).
  apply lineSteps_paired in Hsteps as (H1 & H2 & H3 & ps & Hps & _).
  repeat split; try done; try apply Hrange. by exists ps.
Qed.

Lemma renderLine_frame_witness :
  inRange 1 (Runs.entered Scenarios.reanchored Scenarios.reanchoredInput) /\
  renderLine Scenarios.reanchored 20
    (Runs.entered Scenarios.reanchored Scenarios.reanchoredInput) 0 3 1 =
    Ok (Runs.returned Scenarios.reanchored Scenarios.reanchoredInput) /\
  take (1 - 1)
    (stack (rd (Runs.returned Scenarios.reanchored Scenarios.reanchoredInput))) =
  take (1 - 1)
    (stack (rd (Runs.entered Scenarios.reanchored Scenarios.reanchoredInput))) /\
  (1 <= stackDepth (Runs.returned Scenarios.reanchored Scenarios.reanchoredInput)
     <= stackSize)%nat /\
  bytes (rd (Runs.returned Scenarios.reanchored Scenarios.reanchoredInput)) =
    bytes (rd (Runs.entered Scenarios.reanchored Scenarios.reanchoredInput)) /\
  offset (rd (Runs.returned Scenarios.reanchored Scenarios.reanchoredInput)) =
    offset (rd (Runs.entered Scenarios.reanchored Scenarios.reanchoredInput)) /\
  line_begin (ln (Runs.returned Scenarios.reanchored Scenarios.reanchoredInput)) =
    line_begin (ln (Runs.entered Scenarios.reanchored Scenarios.reanchoredInput)) /\
  line_end (ln (Runs.returned Scenarios.reanchored Scenarios.reanchoredInput)) =
    line_end (ln (Runs.entered Scenarios.reanchored Scenarios.reanchoredInput)) /\
  endIncludingNewline
    (ln (Runs.returned Scenarios.reanchored Scenarios.reanchoredInput)) =
    endIncludingNewline
      (ln (Runs.entered Scenarios.reanchored Scenarios.reanchoredInput)) /\
  exists ps,
    scopes (ln (Runs.returned Scenarios.reanchored Scenarios.reanchoredInput)) =
    scopes (ln (Runs.entered Scenarios.reanchored Scenarios.reanchoredInput)) ++ ps.
Proof.
  assert (H1 : inRange 1 (Runs.entered Scenarios.reanchored Scenarios.reanchoredInput))
    by (vm_compute; lia).
  assert (H2 : renderLine Scenarios.reanchored 20
                 (Runs.entered Scenarios.reanchored Scenarios.reanchoredInput) 0 3 1 =
               Ok (Runs.returned Scenarios.reanchored Scenarios.reanchoredInput))
    by (vm_compute; reflexivity).
  split; [exact H1|]. split; [exact H2|].
  exact (renderLine_frame Scenarios.reanchored 20 _ _ 0 3 1 H1 H2).
Defined.

(** X11: [renderCaptures] called with a stack that fits the array ends, and
    leaves the stack as it found it: every frame it pushes for the state of a
    capture is popped again.  It changes neither the input nor the offset nor
    the bounds of the line, and adds its events after those the line held. *)
Theorem renderCaptures_frame {E : Onig} (states : list (state (OnigRegex E)))
    (m : machine (OnigRegex E)) p ref :
  (stackDepth m <= stackSize)%nat ->
  (exists fuel, terminated (renderCaptures states fuel m p ref)) /\
  forall fuel m',
    renderCaptures states fuel m p ref = Ok m' ->
    stack (rd m') = stack (rd m) /\
    bytes (rd m') = bytes (rd m) /\ offset (rd m') = offset (rd m) /\
    line_begin (ln m') = line_begin (ln m) /\ line_end (ln m') = line_end (ln m) /\
    endIncludingNewline (ln m') = endIncludingNewline (ln m) /\
    exists ps, scopes (ln m') = scopes (ln m) ++ ps.
Proof.
  intros Hm. split; [by apply renderCaptures_terminates|].
  intros fuel m' H.
  pose proof (renderCaptures_stack _ _ _ _ _ _ Hm H) as Hstack.
  apply renderCaptures_lineRel in H as (Hsteps & Hbytes & Hoff).
  apply lineSteps_paired in Hsteps as (H1 & H2 & H3 & ps & Hps & _).
  repeat split; try done. by exists ps.
Qed.

Lemma renderCaptures_frame_witness :
  (stackDepth Situations.fullSearched <= stackSize)%nat /\
  (exists fuel,
     terminated
       (renderCaptures Examples.nest fuel Situations.fullSearched
          (Lit.pat "a" 5 0 0) (RegsetRegion 0%nat 0%nat))) /\
  forall fuel m',
    renderCaptures Examples.nest fuel Situations.fullSearched
      (Lit.pat "a" 5 0 0) (RegsetRegion 0%nat 0%nat) = Ok m' ->
    stack (rd m') = stack (rd Situations.fullSearched) /\
    bytes (rd m') = bytes (rd Situations.fullSearched) /\
    offset (rd m') = offset (rd Situations.fullSearched) /\
    line_begin (ln m') = line_begin (ln Situations.fullSearched) /\
    line_end (ln m') = line_end (ln Situations.fullSearched) /\
    endIncludingNewline (ln m') = endIncludingNewline (ln Situations.fullSearched) /\
    exists ps, scopes (ln m') = scopes (ln Situations.fullSearched) ++ ps.
Proof.
  assert (H : (stackDepth Situations.fullSearched <= stackSize)%nat).
  { apply Nat.leb_le. vm_compute. reflexivity. }
  split; [exact H|].
  exact (renderCaptures_frame Examples.nest Situations.fullSearched
           (Lit.pat "a" 5 0 0) (RegsetRegion 0%nat 0%nat) H).
Defined.
(** *** The expansion of a backreferencing pattern *)

Lemma growSize_ok (n : nat) (size reserved : Z) :
  1 <= size -> 0 <= reserved <= 2 ^ 63 -> 2 ^ 64 <= size * 2 ^ Z.of_nat n ->
  exists size', growSize n size reserved = Ok (Some size') /\
                size <= size' /\ reserved <= size'.
Proof.
  revert size. induction n as [|n IH]; intros size Hs Hr Hn; cbn [growSize].
  - destruct (Z.gtb_spec reserved size) as [Hgt|Hle]; [cbn in Hn; lia|].
    exists size. split; [done|lia].
  - destruct (Z.gtb_spec reserved size) as [Hgt|Hle].
    + destruct (Z.gtb_spec size (SIZE_MAX / 2)) as [Hbig|Hsmall].
      { change (SIZE_MAX / 2) with (2 ^ 63 - 1) in Hbig. lia. }
      destruct (IH (size * 2)) as (size' & Hg & H1 & H2); [lia|done| |].
      { rewrite Nat2Z.inj_succ, Z.pow_succ_r in Hn by lia. lia. }
      exists size'. split; [done|lia].
    + exists size. split; [done|lia].
Qed.

Lemma window_length (bytes : list byte) (a b : Z) :
  0 <= a -> a <= b -> b <= Z.of_nat (length bytes) ->
  Z.of_nat (length (window bytes a b)) = b - a.
Proof.
  intros Ha Hab Hb. unfold window. rewrite length_take, length_drop. lia.
Qed.

Lemma length_octalEscapes (captured : list byte) :
  Z.of_nat (length (concat (octalEscape <$> captured))) =
    4 * Z.of_nat (length captured).
Proof.
  induction captured as [|c captured IH]; [done|].
  cbn [fmap list_fmap concat]. rewrite length_app. cbn [octalEscape length].
  cbn [fmap] in IH. lia.
Qed.

(** The equations of the two recursions at a text of two bytes or more. *)
Lemma expandFrom_cons2 (bytes : list byte) (beginOffset : Z) (region : OnigRegion)
    (plen : Z) (c d : byte) (rest2 : list byte) (i size : Z) (replaced : list byte) :
  expandFrom bytes beginOffset region plen (c :: d :: rest2) i size replaced =
    if (c =? ch_backslash) && isDigit d then
      if d - ch_0 >=? num_regs region then Ok None
      else
        '(b, e) ← deref (region !! Z.to_nat (d - ch_0));
        if (b <? 0) || (e <? b) then Ok None
        else
          sz ← growSize 64 size
                 (size_t_ (Z.of_nat (length replaced) +
                           4 * (size_t_ (beginOffset + e) - size_t_ (beginOffset + b)) +
                           plen - (i + 1)));
          match sz with
          | None => Ok None
          | Some size' =>
              captured ← capturedBytes bytes (size_t_ (beginOffset + b))
                           (size_t_ (beginOffset + e));
              expandFrom bytes beginOffset region plen rest2 (i + 1 + 1) size'
                (replaced ++ concat (octalEscape <$> captured))
          end
    else expandFrom bytes beginOffset region plen (d :: rest2) (i + 1) size
           (replaced ++ [c]).
Proof. reflexivity. Qed.

Lemma expansion_as_stated_cons2 (bytes : list byte) (beginOffset : Z)
    (region : OnigRegion) (c d : byte) (rest2 : list byte) :
  expansion_as_stated bytes beginOffset region (c :: d :: rest2) =
    if (c =? ch_backslash) && isDigit d then
      match capturedGroup bytes beginOffset region (d - ch_0),
            expansion_as_stated bytes beginOffset region rest2 with
      | Some captured, Some tail => Some (concat (octalEscape <$> captured) ++ tail)
      | _, _ => None
      end
    else cons c <$> expansion_as_stated bytes beginOffset region (d :: rest2).
Proof. reflexivity. Qed.

Lemma expandFrom_expansion (bytes : list byte) (beginOffset : Z)
    (region : OnigRegion) (plen : Z) (rest : list byte) (i size : Z)
    (replaced : list byte) :
  regionWithin bytes beginOffset region ->
  (4 * Z.of_nat (length bytes) + 1) * (plen + 1) <= 2 ^ 63 ->
  0 <= i -> i + Z.of_nat (length rest) = plen -> 1 <= size ->
  Z.of_nat (length replaced) <= (4 * Z.of_nat (length bytes) + 1) * i ->
  expandFrom bytes beginOffset region plen rest i size replaced =
    Ok (app replaced <$> expansion_as_stated bytes beginOffset region rest).
Proof.
  intros [Hbo Hregion] Hfits.
  remember (length rest) as k eqn:Hk. revert rest i size replaced Hk.
  induction k as [k IH] using lt_wf_ind.
  intros rest i size replaced -> Hi Hplen Hsize Hlen.
  destruct rest as [|c [|d rest2]].
  - cbn. by rewrite app_nil_r.
  - cbn. done.
  - rewrite expandFrom_cons2, expansion_as_stated_cons2. cbn [length] in Hplen.
    destruct ((c =? ch_backslash) && isDigit d) eqn:Hpair.
    + apply andb_true_iff in Hpair as [_ Hd].
      unfold isDigit, ch_0, ch_9 in Hd. apply andb_true_iff in Hd as [Hd1 Hd2].
      unfold capturedGroup, num_regs.
      destruct (region !! Z.to_nat (d - ch_0)) as [[b e]|] eqn:Hlook;
        destruct (Z.geb_spec (d - ch_0) (Z.of_nat (length region))) as [Hout|Hin];
        [apply lookup_lt_Some in Hlook; unfold ch_0 in *; lia| |done|
         apply lookup_ge_None_1 in Hlook; unfold ch_0 in *; lia].
      cbn [deref mbind result_bind].
      destruct ((b <? 0) || (e <? b)) eqn:Hbad; [done|].
      apply orb_false_iff in Hbad as [Hb He].
      pose proof (Hregion _ _ _ Hlook ltac:(lia) ltac:(lia)) as Hend.
      assert (Hbytes : Z.of_nat (length bytes) < 2 ^ 63) by nia.
      unfold size_t_.
      rewrite (Z.mod_small (beginOffset + b)) by lia.
      rewrite (Z.mod_small (beginOffset + e)) by lia.
      set (reserved := Z.of_nat (length replaced) +
                       4 * (beginOffset + e - (beginOffset + b)) + plen - (i + 1)).
      assert (Hres : 0 <= reserved <= 2 ^ 63) by (unfold reserved; nia).
      rewrite (Z.mod_small reserved) by lia.
      destruct (growSize_ok 64 size reserved) as (size' & -> & Hs1 & Hs2);
        [done|done|change (2 ^ Z.of_nat 64) with (2 ^ 64); lia|].
      cbn [mbind result_bind]. unfold capturedBytes.
      assert (Hread : (beginOffset + b <? beginOffset + e) &&
                      (Z.of_nat (length bytes) <? beginOffset + e) = false).
      { apply andb_false_iff. right. lia. }
      rewrite Hread. cbn [mbind result_bind].
      rewrite (IH (length rest2)) with (i := i + 1 + 1); cycle 1.
      { cbn [length]. lia. }
      { done. }
      { lia. }
      { lia. }
      { lia. }
      { rewrite length_app, Nat2Z.inj_add, length_octalEscapes, window_length by lia.
        nia. }
      destruct (expansion_as_stated bytes beginOffset region rest2); [|done].
      cbn. by rewrite app_assoc.
    + rewrite (IH (length (d :: rest2))) with (i := i + 1)
                                              (rest := d :: rest2); cycle 1.
      { cbn [length]. lia. }
      { done. }
      { lia. }
      { cbn [length]. lia. }
      { done. }
      { rewrite length_app. cbn [length]. nia. }
      destruct (expansion_as_stated bytes beginOffset region (d :: rest2)); [|done].
      cbn. by rewrite <- app_assoc.
Qed.

Lemma expandFromChecked_cons2 (bytes : list byte) (beginOffset : Z)
    (region : OnigRegion) (plen : Z) (c d : byte) (rest2 : list byte) (i size : Z)
    (replaced : list byte) :
  expandFromChecked bytes beginOffset region plen (c :: d :: rest2) i size replaced =
    if (c =? ch_backslash) && isDigit d then
      if d - ch_0 >=? num_regs region then Ok None
      else
        '(b, e) ← deref (region !! Z.to_nat (d - ch_0));
        if (b <? 0) || (e <? b) then Ok None
        else
          sz ← growSize 64 size
                 (size_t_ (Z.of_nat (length replaced) +
                           4 * (size_t_ (beginOffset + e) - size_t_ (beginOffset + b)) +
                           plen - (i + 1)));
          match sz with
          | None => Ok None
          | Some size' =>
              captured ← capturedBytes bytes (size_t_ (beginOffset + b))
                           (size_t_ (beginOffset + e));
              if Z.of_nat (length replaced) + 4 * Z.of_nat (length captured) <=? size'
              then
                expandFromChecked bytes beginOffset region plen rest2 (i + 1 + 1)
                  size' (replaced ++ concat (octalEscape <$> captured))
              else Undefined
          end
    else
      if Z.of_nat (length replaced) <? size then
        expandFromChecked bytes beginOffset region plen (d :: rest2) (i + 1) size
          (replaced ++ [c])
      else Undefined.
Proof. reflexivity. Qed.

Lemma expandFromChecked_expansion (bytes : list byte) (beginOffset : Z)
    (region : OnigRegion) (plen : Z) (rest : list byte) (i size : Z)
    (replaced : list byte) :
  regionWithin bytes beginOffset region ->
  (4 * Z.of_nat (length bytes) + 1) * (plen + 1) <= 2 ^ 63 ->
  0 <= i -> i + Z.of_nat (length rest) = plen -> 1 <= size ->
  Z.of_nat (length replaced) <= (4 * Z.of_nat (length bytes) + 1) * i ->
  Z.of_nat (length replaced) + Z.of_nat (length rest) <= size ->
  expandFromChecked bytes beginOffset region plen rest i size replaced =
    Ok (app replaced <$> expansion_as_stated bytes beginOffset region rest).
Proof.
  intros [Hbo Hregion] Hfits.
  remember (length rest) as k eqn:Hk. revert rest i size replaced Hk.
  induction k as [k IH] using lt_wf_ind.
  intros rest i size replaced -> Hi Hplen Hsize Hlen Hroom.
  destruct rest as [|c [|d rest2]].
  - cbn. by rewrite app_nil_r.
  - cbn [expandFromChecked length] in *.
    destruct (Z.ltb_spec (Z.of_nat (length replaced)) size); [done|lia].
  - rewrite expandFromChecked_cons2, expansion_as_stated_cons2.
    cbn [length] in Hplen, Hroom.
    destruct ((c =? ch_backslash) && isDigit d) eqn:Hpair.
    + apply andb_true_iff in Hpair as [_ Hd].
      unfold isDigit, ch_0, ch_9 in Hd. apply andb_true_iff in Hd as [Hd1 Hd2].
      unfold capturedGroup, num_regs.
      destruct (region !! Z.to_nat (d - ch_0)) as [[b e]|] eqn:Hlook;
        destruct (Z.geb_spec (d - ch_0) (Z.of_nat (length region))) as [Hout|Hin];
        [apply lookup_lt_Some in Hlook; unfold ch_0 in *; lia| |done|
         apply lookup_ge_None_1 in Hlook; unfold ch_0 in *; lia].
      cbn [deref mbind result_bind].
      destruct ((b <? 0) || (e <? b)) eqn:Hbad; [done|].
      apply orb_false_iff in Hbad as [Hb He].
      pose proof (Hregion _ _ _ Hlook ltac:(lia) ltac:(lia)) as Hend.
      assert (Hbytes : Z.of_nat (length bytes) < 2 ^ 63) by nia.
      unfold size_t_.
      rewrite (Z.mod_small (beginOffset + b)) by lia.
      rewrite (Z.mod_small (beginOffset + e)) by lia.
      set (reserved := Z.of_nat (length replaced) +
                       4 * (beginOffset + e - (beginOffset + b)) + plen - (i + 1)).
      assert (Hres : 0 <= reserved <= 2 ^ 63) by (unfold reserved; nia).
      rewrite (Z.mod_small reserved) by lia.
      destruct (growSize_ok 64 size reserved) as (size' & -> & Hs1 & Hs2);
        [done|done|change (2 ^ Z.of_nat 64) with (2 ^ 64); lia|].
      cbn [mbind result_bind]. unfold capturedBytes.
      assert (Hread : (beginOffset + b <? beginOffset + e) &&
                      (Z.of_nat (length bytes) <? beginOffset + e) = false).
      { apply andb_false_iff. right. lia. }
      rewrite Hread. cbn [mbind result_bind].
      pose proof (window_length bytes (beginOffset + b) (beginOffset + e)
                    ltac:(lia) ltac:(lia) ltac:(lia)) as Hwin.
      destruct (Z.leb_spec
                  (Z.of_nat (length replaced) +
                   4 * Z.of_nat (length (window bytes (beginOffset + b)
                                           (beginOffset + e)))) size')
        as [Hfit|Hover]; [|unfold reserved in Hs2; lia].
      rewrite (IH (length rest2)) with (i := i + 1 + 1); cycle 1.
      { cbn [length]. lia. }
      { done. }
      { lia. }
      { lia. }
      { lia. }
      { rewrite length_app, Nat2Z.inj_add, length_octalEscapes, Hwin. nia. }
      { rewrite length_app, Nat2Z.inj_add, length_octalEscapes, Hwin.
        unfold reserved in Hs2. lia. }
      destruct (expansion_as_stated bytes beginOffset region rest2); [|done].
      cbn. by rewrite app_assoc.
    + destruct (Z.ltb_spec (Z.of_nat (length replaced)) size); [|lia].
      rewrite (IH (length (d :: rest2))) with (i := i + 1)
                                              (rest := d :: rest2); cycle 1.
      { cbn [length]. lia. }
      { done. }
      { lia. }
      { cbn [length]. lia. }
      { done. }
      { rewrite length_app. cbn [length]. nia. }
      { rewrite length_app. cbn [length]. lia. }
      destruct (expansion_as_stated bytes beginOffset region (d :: rest2)); [|done].
      cbn. by rewrite <- app_assoc.
Qed.

(** X12: the search of a backreferencing pattern for a frame that holds a
    begin region and no regex yet compiles the expansion of the pattern's
    source (every backslash-digit pair replaced with the octal escapes of the
    bytes of that group of the begin match, the other bytes kept), keeps the
    regex in the frame and searches it; it returns -1 when a group a pair
    names did not take part in the begin match or the expansion does not
    compile.  A regex the frame holds is searched as it is, and kept. *)
Theorem backreferencingSearch_expands {E : Onig} (r : renderer (OnigRegex E))
    (a : activeState (OnigRegex E)) (p : pattern (OnigRegex E)) (t : list byte)
    (br : OnigRegion) subject start range region opt :
  backreferencingPattern p = true ->
  text p = Some t ->
  beginRegion a = Some br ->
  regionWithin (bytes r) (beginOffset a) br ->
  expansionFits (bytes r) t ->
  backreferencingSearch r a None p subject start range region opt =
    match expansion_as_stated (bytes r) (beginOffset a) br t with
    | Some replaced =>
        match onig_new E replaced with
        | Some c =>
            let '(res, region') :=
              onig_search E c subject start range region opt in
            Ok (res, Some c, region')
        | None => Ok (-1, None, region)
        end
    | None => Ok (-1, None, region)
    end /\
  forall c,
    backreferencingSearch r a (Some c) p subject start range region opt =
      let '(res, region') := onig_search E c subject start range region opt in
      Ok (res, Some c, region').
Proof.
  intros Hback Htext Hregion Hwithin Hfits. unfold expansionFits in Hfits.
  unfold backreferencingSearch. rewrite Hback, Hregion. cbn [negb].
  split; [|done]. unfold len. rewrite Htext. cbn [default].
  destruct (Z.gtb_spec (Z.of_nat (length t)) (SIZE_MAX / 2)) as [Hbig|_].
  { change (SIZE_MAX / 2) with (2 ^ 63 - 1) in Hbig. nia. }
  destruct t as [|c t]; [done|].
  rewrite (expandFrom_expansion (bytes r) (beginOffset a) br
             (Z.of_nat (length (c :: t))) (c :: t) 0 _ [] Hwithin Hfits);
    [|lia|lia|cbn [length]; lia|cbn [length]; lia].
  cbn [mbind result_bind app].
  by destruct (expansion_as_stated _ _ _ _).
Qed.

Lemma backreferencingSearch_expands_witness :
  backreferencingPattern (Backrefs.backref "\0" 7) = true /\
  text (Backrefs.backref "\0" 7) = Some (Lit.bytesOf "\0") /\
  beginRegion Expansions.frame = Some [(0, 2)] /\
  regionWithin (bytes Expansions.reentered) (beginOffset Expansions.frame) [(0, 2)] /\
  expansionFits (bytes Expansions.reentered) (Lit.bytesOf "\0") /\
  backreferencingSearch Expansions.reentered Expansions.frame None
    (Backrefs.backref "\0" 7) (Lit.bytesOf "ab") 0 2 [] ONIG_OPTION_NONE =
    match expansion_as_stated (bytes Expansions.reentered)
            (beginOffset Expansions.frame) [(0, 2)] (Lit.bytesOf "\0") with
    | Some replaced =>
        match onig_new Lit.engine replaced with
        | Some c =>
            let '(res, region') :=
              onig_search Lit.engine c (Lit.bytesOf "ab") 0 2 [] ONIG_OPTION_NONE in
            Ok (res, Some c, region')
        | None => Ok (-1, None, [])
        end
    | None => Ok (-1, None, [])
    end /\
  forall c,
    backreferencingSearch Expansions.reentered Expansions.frame (Some c)
      (Backrefs.backref "\0" 7) (Lit.bytesOf "ab") 0 2 [] ONIG_OPTION_NONE =
      let '(res, region') :=
        onig_search Lit.engine c (Lit.bytesOf "ab") 0 2 [] ONIG_OPTION_NONE in
      Ok (res, Some c, region').
Proof.
  assert (H1 : backreferencingPattern (Backrefs.backref "\0" 7) = true)
    by reflexivity.
  assert (H2 : text (Backrefs.backref "\0" 7) = Some (Lit.bytesOf "\0"))
    by reflexivity.
  assert (H3 : beginRegion Expansions.frame = Some [(0, 2)])
    by (vm_compute; reflexivity).
  assert (H4 : regionWithin (bytes Expansions.reentered)
                 (beginOffset Expansions.frame) [(0, 2)]).
  { split; [vm_compute; discriminate|].
    intros [|i] b e Hlook Hb He; [|done].
    injection Hlook as <- <-. vm_compute. discriminate. }
  assert (H5 : expansionFits (bytes Expansions.reentered) (Lit.bytesOf "\0"))
    by (vm_compute; discriminate).
  split; [exact H1|]. split; [exact H2|]. split; [exact H3|].
  split; [exact H4|]. split; [exact H5|].
  exact (backreferencingSearch_expands Expansions.reentered Expansions.frame
           (Backrefs.backref "\0" 7) (Lit.bytesOf "\0") [(0, 2)]
           (Lit.bytesOf "ab") 0 2 [] ONIG_OPTION_NONE H1 H2 H3 H4 H5).
Defined.

(** X13: the buffer [replaced] is never written past its capacity: with the
    capacity checked at every write, the expansion of a pattern's source from
    the initial capacity of twice its length runs as without the check, and
    gives the expansion. *)
Theorem expandFrom_within_capacity (bytes : list byte) (beginOffset : Z)
    (region : OnigRegion) (t : list byte) :
  regionWithin bytes beginOffset region ->
  expansionFits bytes t ->
  expandFromChecked bytes beginOffset region (Z.of_nat (length t)) t 0
    (Z.of_nat (length t) * 2) [] =
    Ok (expansion_as_stated bytes beginOffset region t) /\
  expandFrom bytes beginOffset region (Z.of_nat (length t)) t 0
    (Z.of_nat (length t) * 2) [] =
    Ok (expansion_as_stated bytes beginOffset region t).
Proof.
  intros Hwithin Hfits. unfold expansionFits in Hfits.
  destruct t as [|c t]; [done|].
  rewrite (expandFromChecked_expansion bytes beginOffset region
             (Z.of_nat (length (c :: t))) (c :: t) 0 _ [] Hwithin Hfits);
    [|lia|lia|cbn [length]; lia|cbn [length]; lia|cbn [length]; lia].
  rewrite (expandFrom_expansion bytes beginOffset region
             (Z.of_nat (length (c :: t))) (c :: t) 0 _ [] Hwithin Hfits);
    [|lia|lia|cbn [length]; lia|cbn [length]; lia].
  cbn [app fmap]. by destruct (expansion_as_stated _ _ _ _).
Qed.

Lemma expandFrom_within_capacity_witness :
  regionWithin (Lit.bytesOf "ab") 0 [(0, 2)] /\
  expansionFits (Lit.bytesOf "ab") (Lit.bytesOf "x\0\0") /\
  expandFromChecked (Lit.bytesOf "ab") 0 [(0, 2)]
    (Z.of_nat (length (Lit.bytesOf "x\0\0"))) (Lit.bytesOf "x\0\0") 0
    (Z.of_nat (length (Lit.bytesOf "x\0\0")) * 2) [] =
    Ok (expansion_as_stated (Lit.bytesOf "ab") 0 [(0, 2)] (Lit.bytesOf "x\0\0")) /\
  expandFrom (Lit.bytesOf "ab") 0 [(0, 2)]
    (Z.of_nat (length (Lit.bytesOf "x\0\0"))) (Lit.bytesOf "x\0\0") 0
    (Z.of_nat (length (Lit.bytesOf "x\0\0")) * 2) [] =
    Ok (expansion_as_stated (Lit.bytesOf "ab") 0 [(0, 2)] (Lit.bytesOf "x\0\0")).
Proof.
  assert (H1 : regionWithin (Lit.bytesOf "ab") 0 [(0, 2)]).
  { split; [done|]. intros [|i] b e Hlook Hb He; [|done].
    injection Hlook as <- <-. vm_compute. discriminate. }
  assert (H2 : expansionFits (Lit.bytesOf "ab") (Lit.bytesOf "x\0\0"))
    by (vm_compute; discriminate).
  split; [exact H1|]. split; [exact H2|].
  exact (expandFrom_within_capacity (Lit.bytesOf "ab") 0 [(0, 2)]
           (Lit.bytesOf "x\0\0") H1 H2).
Defined.
(** *** The frame a BEGIN rule pushes *)

(** X14: a BEGIN rule that is applied with room on the stack pushes a frame
    for the state it leads to, with no regex and with the offsets of the
    match; the frame holds the region of the match exactly when the end
    pattern of that state is backreferencing.  When it is not, and the while
    pattern of the state is backreferencing, the frame is popped by the first
    loop of [renderLine] wherever it is looked at again, without a search. *)
Theorem applyRule_begin_frame {E : Onig} (states : list (state (OnigRegex E)))
    rc sid st res m v q to tost m1 region b0 e0 :
  patterns st !! Z.to_nat res = Some q ->
  pis_type q = BEGIN ->
  pis_to q = Some to ->
  states !! to = Some tost ->
  rc m (pis_p q) (RegsetRegion sid (Z.to_nat res)) = Ok m1 ->
  (stackDepth m1 < stackSize)%nat ->
  readRegion m1 (RegsetRegion sid (Z.to_nat res)) = Ok region ->
  reg_beg region 0 = Some b0 ->
  reg_end region 0 = Some e0 ->
  exists frame v',
    applyRule states rc sid st res m v =
      Ok (Continue (with_seq (pushStack m1 frame) (size_t_ (seq (rd m1) + 2)), v')) /\
    lv_offset v' = abs m1 e0 /\
    as_s frame = Some to /\ as_p frame = Some (pis_p q) /\
    endRegex frame = None /\ whileRegex frame = None /\
    beginOffset frame = line_begin (ln m1) /\
    outerBegin frame = abs m1 b0 /\ innerBegin frame = abs m1 e0 /\
    outerSeq frame = seq (rd m1) /\ innerSeq frame = size_t_ (seq (rd m1) + 1) /\
    (beginRegion frame = Some region <->
     exists ep, endPattern tost = Some ep /\ backreferencingPattern ep = true) /\
    (beginRegion frame = None <->
     forall ep, endPattern tost = Some ep -> backreferencingPattern ep = false) /\
    forall wp,
      whilePattern tost = Some wp -> backreferencingPattern wp = true ->
      beginRegion frame = None ->
      forall rc' end_ m3 i offset ewr,
        stack (rd m3) !! i = Some frame ->
        whileAnchor states rc' end_ (m3, i, offset, ewr) =
          Ok (Break (popStack (setFrame m3 i (with_whileRegex frame None)) i,
                     offset, ewr)).
Proof.
  intros Hq Hty Hto Htost Hrc Hroom Hregion Hb0 He0.
  eexists _, _. split.
  { unfold applyRule. rewrite Hq. cbn [deref mbind result_bind].
    rewrite Hrc. cbn [mbind result_bind]. rewrite Hty.
    assert (Hfull : (stackDepth m1 =? stackSize)%nat = false)
      by (apply Nat.eqb_neq; lia).
    rewrite Hfull, Hto. cbn [deref mbind result_bind].
    rewrite Htost. cbn [deref mbind result_bind].
    rewrite Hregion. cbn [mbind result_bind].
    rewrite Hb0, He0. cbn [deref mbind result_bind].
    change (readRegion (with_seq (pushStack m1 _) _) ?ref) with (readRegion m1 ref).
    rewrite Hregion. cbn [mbind result_bind]. rewrite He0.
    cbn [deref mbind result_bind]. reflexivity. }
  cbn [as_s as_p endRegex whileRegex beginOffset outerBegin innerBegin outerSeq
       innerSeq beginRegion].
  split; [by destruct (_ >? _)|].
  repeat (split; [reflexivity|]).
  split; [|split].
  { destruct (endPattern tost) as [ep|] eqn:Hep;
      [destruct (backreferencingPattern ep) eqn:Hback|]; split; try done.
    - intros _. by exists ep.
    - intros (ep' & [= <-] & Hback'). congruence.
    - by intros (ep' & [=] & _). }
  { destruct (endPattern tost) as [ep|] eqn:Hep;
      [destruct (backreferencingPattern ep) eqn:Hback|]; split; try done.
    - intros Hall. specialize (Hall ep eq_refl). congruence.
    - intros _ ep' [= <-]. done. }
  intros wp Hwp Hback Hnone rc' end_ m3 i offset ewr Hframe.
  unfold whileAnchor.
  assert (Hi : (i <? stackDepth m3)%nat = true).
  { apply Nat.ltb_lt. unfold stackDepth. by eapply lookup_lt_Some. }
  rewrite Hi, Hframe. cbn [deref mbind result_bind as_s].
  rewrite Htost. cbn [deref mbind result_bind]. rewrite Hwp.
  unfold backreferencingSearch. rewrite Hback. cbn [negb whileRegex].
  rewrite Hnone. reflexivity.
Qed.

Lemma applyRule_begin_frame_witness :
  patterns Pushes.from !! Z.to_nat 0 = Some Pushes.rule /\
  pis_type Pushes.rule = BEGIN /\
  pis_to Pushes.rule = Some 1%nat /\
  Backrefs.whileOnly !! 1%nat = Some Pushes.target /\
  renderCaptures Backrefs.whileOnly 10 Pushes.searched (pis_p Pushes.rule)
    (RegsetRegion 0%nat (Z.to_nat 0)) = Ok Pushes.searched /\
  (stackDepth Pushes.searched < stackSize)%nat /\
  readRegion Pushes.searched (RegsetRegion 0%nat (Z.to_nat 0)) = Ok [(0, 2)] /\
  reg_beg [(0, 2)] 0 = Some 0 /\
  reg_end [(0, 2)] 0 = Some 2 /\
  exists frame v',
    applyRule Backrefs.whileOnly (renderCaptures Backrefs.whileOnly 10) 0%nat
      Pushes.from 0 Pushes.searched Pushes.vars =
      Ok (Continue
            (with_seq (pushStack Pushes.searched frame)
               (size_t_ (seq (rd Pushes.searched) + 2)), v')) /\
    lv_offset v' = abs Pushes.searched 2 /\
    as_s frame = Some 1%nat /\ as_p frame = Some (pis_p Pushes.rule) /\
    endRegex frame = None /\ whileRegex frame = None /\
    beginOffset frame = line_begin (ln Pushes.searched) /\
    outerBegin frame = abs Pushes.searched 0 /\
    innerBegin frame = abs Pushes.searched 2 /\
    outerSeq frame = seq (rd Pushes.searched) /\
    innerSeq frame = size_t_ (seq (rd Pushes.searched) + 1) /\
    (beginRegion frame = Some [(0, 2)] <->
     exists ep, endPattern Pushes.target = Some ep /\
                backreferencingPattern ep = true) /\
    (beginRegion frame = None <->
     forall ep, endPattern Pushes.target = Some ep ->
                backreferencingPattern ep = false) /\
    forall wp,
      whilePattern Pushes.target = Some wp -> backreferencingPattern wp = true ->
      beginRegion frame = None ->
      forall rc' end_ m3 i offset ewr,
        stack (rd m3) !! i = Some frame ->
        whileAnchor Backrefs.whileOnly rc' end_ (m3, i, offset, ewr) =
          Ok (Break (popStack (setFrame m3 i (with_whileRegex frame None)) i,
                     offset, ewr)).
Proof.
  assert (H1 : patterns Pushes.from !! Z.to_nat 0 = Some Pushes.rule)
    by reflexivity.
  assert (H5 : renderCaptures Backrefs.whileOnly 10 Pushes.searched
                 (pis_p Pushes.rule) (RegsetRegion 0%nat (Z.to_nat 0)) =
               Ok Pushes.searched) by (vm_compute; reflexivity).
  assert (H6 : (stackDepth Pushes.searched < stackSize)%nat)
    by (apply Nat.ltb_lt; vm_compute; reflexivity).
  assert (H7 : readRegion Pushes.searched (RegsetRegion 0%nat (Z.to_nat 0)) =
               Ok [(0, 2)]) by (vm_compute; reflexivity).
  split; [exact H1|]. split; [reflexivity|]. split; [reflexivity|].
  split; [reflexivity|]. split; [exact H5|]. split; [exact H6|].
  split; [exact H7|]. split; [reflexivity|]. split; [reflexivity|].
  exact (applyRule_begin_frame Backrefs.whileOnly
           (renderCaptures Backrefs.whileOnly 10) 0%nat Pushes.from 0
           Pushes.searched Pushes.vars Pushes.rule 1%nat Pushes.target
           Pushes.searched [(0, 2)] 0 2
           H1 eq_refl eq_refl eq_refl H5 H6 H7 eq_refl eq_refl).
Defined.
(** *** Named captures *)

Lemma setGroups_ok {A} (n i : nat) (groups : list Z) (v : A) (a : list A) :
  (forall j, (i <= j < i + n)%nat ->
     exists g, groups !! j = Some g /\ 0 <= g < Z.of_nat (length a)) ->
  exists a',
    setGroups n i groups v a = Ok a' /\ length a' = length a /\
    (forall k, a !! k = Some v -> a' !! k = Some v) /\
    (forall j g, (i <= j < i + n)%nat -> groups !! j = Some g ->
       a' !! Z.to_nat g = Some v) /\
    (forall k,
       (forall j g, (i <= j < i + n)%nat -> groups !! j = Some g ->
          Z.to_nat g <> k) ->
       a' !! k = a !! k).
Proof.
  revert i a. induction n as [|n IH]; intros i a Hin.
  - exists a. cbn. repeat split; try done. intros; lia.
  - destruct (Hin i ltac:(lia)) as (g & Hg & Hrange).
    cbn [setGroups]. rewrite Hg. cbn [deref mbind result_bind].
    assert (Htest : ((0 <=? g) && (g <? Z.of_nat (length a))) = true)
      by (apply andb_true_iff; lia).
    rewrite Htest.
    destruct (IH (S i) (<[Z.to_nat g := v]> a))
      as (a' & Hrun & Hlen & Hstay & Hset & Hkeep).
    { intros j Hj. rewrite length_insert. apply Hin. lia. }
    exists a'. rewrite length_insert in Hlen.
    split; [done|]. split; [done|]. split; [|split].
    + intros k Hk. apply Hstay.
      destruct (decide (k = Z.to_nat g)) as [->|Hne].
      * apply list_lookup_insert_eq. lia.
      * by rewrite list_lookup_insert_ne.
    + intros j g' Hj Hg'. destruct (decide (j = i)) as [->|Hne].
      * assert (g' = g) as -> by congruence.
        apply Hstay, list_lookup_insert_eq. lia.
      * eapply Hset; [|done]. lia.
    + intros k Hk. rewrite Hkeep.
      * apply list_lookup_insert_ne. by eapply Hk; [|done]; lia.
      * intros j g' Hj Hg'. eapply Hk; [|done]. lia.
Qed.

(** X15: with a name that is no number of a group of the pattern,
    [setCaptureScope] and [setCaptureState] ask the engine for the groups of
    that name: on an error (a negative count) the pattern is left as it is;
    otherwise the entry of every group the engine lists is set, and no other
    entry and no other field. *)
Theorem setCapture_named (E : Onig) (p : pattern (OnigRegex E)) (name : list byte)
    (scope : scopeName) (s : option stateId) (n : Z) (groups : list Z) :
  ((0 <=? captureNameToInt name) && (captureNameToInt name <? captures p)) = false ->
  onig_name_to_group_numbers E (re p) name = (n, groups) ->
  (n < 0 ->
   setCaptureScope p name scope = Ok p /\ setCaptureState p name s = Ok p) /\
  (0 <= n ->
   groupsWithin n groups (length (captureScopes p)) ->
   exists v, setCaptureScope p name scope = Ok (with_captureScopes p v) /\
             groupsSet n groups scope (captureScopes p) v) /\
  (0 <= n ->
   groupsWithin n groups (length (captureStates p)) ->
   exists v, setCaptureState p name s = Ok (with_captureStates p v) /\
             groupsSet n groups s (captureStates p) v).
Proof.
  intros Hname Hgroups. unfold setCaptureScope, setCaptureState.
  rewrite Hname, Hgroups. split; [|split].
  - intros Hn. destruct (Z.ltb_spec n 0); [done|lia].
  - intros Hn Hin. destruct (Z.ltb_spec n 0); [lia|].
    destruct (setGroups_ok (Z.to_nat n) 0 groups scope (captureScopes p))
      as (v & -> & Hlen & _ & Hset & Hkeep).
    { intros j Hj. apply Hin. lia. }
    exists v. split; [done|]. split; [done|]. split.
    + intros j g Hj. apply Hset. lia.
    + intros k Hk. apply Hkeep. intros j g Hj. apply Hk. lia.
  - intros Hn Hin. destruct (Z.ltb_spec n 0); [lia|].
    destruct (setGroups_ok (Z.to_nat n) 0 groups s (captureStates p))
      as (v & -> & Hlen & _ & Hset & Hkeep).
    { intros j Hj. apply Hin. lia. }
    exists v. split; [done|]. split; [done|]. split.
    + intros j g Hj. apply Hset. lia.
    + intros k Hk. apply Hkeep. intros j g Hj. apply Hk. lia.
Qed.

Lemma setCapture_named_witness :
  ((0 <=? captureNameToInt (Lit.bytesOf "word")) &&
   (captureNameToInt (Lit.bytesOf "word") <? captures (Lit.pat "ab" 0 0 0))) = false /\
  onig_name_to_group_numbers Lit.engine (re (Lit.pat "ab" 0 0 0))
    (Lit.bytesOf "word") = (-217, []) /\
  (-217 < 0 ->
   setCaptureScope (Lit.pat "ab" 0 0 0) (Lit.bytesOf "word") 7 =
     Ok (Lit.pat "ab" 0 0 0) /\
   setCaptureState (Lit.pat "ab" 0 0 0) (Lit.bytesOf "word") (Some 1%nat) =
     Ok (Lit.pat "ab" 0 0 0)) /\
  (0 <= -217 ->
   groupsWithin (-217) [] (length (captureScopes (Lit.pat "ab" 0 0 0))) ->
   exists v,
     setCaptureScope (Lit.pat "ab" 0 0 0) (Lit.bytesOf "word") 7 =
       Ok (with_captureScopes (Lit.pat "ab" 0 0 0) v) /\
     groupsSet (-217) [] 7 (captureScopes (Lit.pat "ab" 0 0 0)) v) /\
  (0 <= -217 ->
   groupsWithin (-217) [] (length (captureStates (Lit.pat "ab" 0 0 0))) ->
   exists v,
     setCaptureState (Lit.pat "ab" 0 0 0) (Lit.bytesOf "word") (Some 1%nat) =
       Ok (with_captureStates (Lit.pat "ab" 0 0 0) v) /\
     groupsSet (-217) [] (Some 1%nat) (captureStates (Lit.pat "ab" 0 0 0)) v).
Proof.
  assert (H1 : ((0 <=? captureNameToInt (Lit.bytesOf "word")) &&
                (captureNameToInt (Lit.bytesOf "word") <?
                 captures (Lit.pat "ab" 0 0 0))) = false) by reflexivity.
  assert (H2 : onig_name_to_group_numbers Lit.engine (re (Lit.pat "ab" 0 0 0))
                 (Lit.bytesOf "word") = (-217, [])) by reflexivity.
  split; [exact H1|]. split; [exact H2|].
  exact (setCapture_named Lit.engine (Lit.pat "ab" 0 0 0) (Lit.bytesOf "word") 7
           (Some 1%nat) (-217) [] H1 H2).
Defined.
